(** * algo-trading: order ledger, strategy state machine and price codec

    A shallow embedding of [utils.py], [order_manager.py], [market_manager.py]
    and [strategy.py], with the registry of loggers of [log.py], and the
    properties of the specification proved (or refuted) against it, followed
    by further properties of the code.

    Modelling conventions.
    - A Python [int] is a [Z].
    - A finite [decimal.Decimal] is the rational it denotes (a [Q], compared
      with [==]); every arithmetic result is rounded by the default context
      (28 significant digits, ROUND_HALF_EVEN).  NaN, infinities and the
      exponent limits of the context are not modelled.
    - A Python [float] is IEEE binary64: a finite value is the rational it
      denotes, every result is rounded to 53 significant bits (ties to even,
      gradual underflow below 2^-1022, overflow to infinity).
    - [Order] objects are mutable and shared by reference: they live in a heap
      (a list indexed by address), the ledger and the requests hold addresses.
    - A method that mutates its object is a function in a state monad whose
      result is a value or a raised exception; the state survives a raise.
    - A coroutine is cut at its [await]s into segments that run without
      interruption; a StopIteration that would leave a coroutine leaves it
      as a RuntimeError. *)

From Stdlib Require Import ZArith QArith Qround Qabs Qpower Lia Lqa Bool.
From Stdlib Require Import Sorting.Sorted.
From stdpp Require Import base option list strings gmap.

Local Open Scope Z_scope.

(** ** Exceptions and results *)

Inductive exn : Type :=
  | AssertionError
  | StopIteration
  | IndexError
  | AttributeError
  | OverflowError
  | ZeroDivisionError
  | RuntimeError
  | DanglingReference.
  (* [DanglingReference] has no Python counterpart: it is what reading an
     unallocated address gives, and no reachable state does so (see
     [heap_wf] below). *)

Inductive result (A : Type) : Type :=
  | Ok (a : A)
  | Raise (e : exn).
Arguments Ok {A} a.
Arguments Raise {A} e.

Definition rbind {A B : Type} (r : result A) (k : A -> result B) : result B :=
  match r with
  | Ok a => k a
  | Raise e => Raise e
  end.

(** ** Rounding to a number of significant digits *)

Module Rounding.

(** [pow b t] is b^t for an integer exponent of either sign. *)
Definition pow (b : Z) (t : Z) : Q := Qpower (inject_Z b) t.

(** Descending search for the largest [t] with b^t <= q. *)
Fixpoint ilog_search (b : Z) (q : Q) (fuel : nat) (t : Z) : Z :=
  match fuel with
  | O => t
  | S fuel' =>
      if Qle_bool (pow b t) q then t else ilog_search b q fuel' (t - 1)
  end.

(** Floor of the base-[b] logarithm of a positive rational: the search runs
    from an exponent above the answer down to one below it. *)
Definition ilog (b : Z) (q : Q) : Z :=
  let hi := Z.log2 (Qnum q) + 1 in
  let lo := - (Z.log2 (Zpos (Qden q)) + 1) in
  ilog_search b q (Z.to_nat (hi - lo)) hi.

(** Nearest integer, ties to the even one. *)
Definition round_half_even (q : Q) : Z :=
  let f := Qfloor q in
  match Qcompare (q - inject_Z f) (1 # 2) with
  | Lt => f
  | Gt => f + 1
  | Eq => if Z.even f then f else f + 1
  end.

(** The exponent of the last digit kept when [q] is written with [p]
    significant base-[b] digits; [emin], when given, is the least exponent a
    digit may have (gradual underflow). *)
Definition last_digit_exp (b p : Z) (emin : option Z) (q : Q) : Z :=
  let e := ilog b (Qabs q) - (p - 1) in
  match emin with
  | Some m => Z.max e m
  | None => e
  end.

(** [q] rounded to [p] significant base-[b] digits, ties to even. *)
Definition round_sig (b p : Z) (emin : option Z) (q : Q) : Q :=
  if Qeq_bool q 0 then 0%Q
  else
    let e := last_digit_exp b p emin q in
    (inject_Z (round_half_even (q / pow b e)) * pow b e)%Q.

(** Truncation toward zero, as [int(x)] does. *)
Definition trunc (q : Q) : Z := Z.quot (Qnum q) (Zpos (Qden q)).

End Rounding.

(** ** [decimal.Decimal] under the default context *)

Module Decimal.

Definition t : Type := Q.

Definition prec : Z := 28.

Definition ctx (q : Q) : t := Rounding.round_sig 10 prec None q.

(** [Decimal(n)] for an [int]: exact, the constructor does not round. *)
Definition of_int (n : Z) : t := inject_Z n.

Definition add (a b : t) : t := ctx (a + b)%Q.
Definition sub (a b : t) : t := ctx (a - b)%Q.
Definition mul (a b : t) : t := ctx (a * b)%Q.

Definition div (a b : t) : result t :=
  if Qeq_bool b 0 then Raise ZeroDivisionError else Ok (ctx (a / b)%Q).

Definition eqb (a b : t) : bool := Qeq_bool a b.
Definition ltb (a b : t) : bool := negb (Qle_bool b a).

(** [int(d)] *)
Definition to_int (a : t) : Z := Rounding.trunc a.

End Decimal.

(** ** Python [float] (IEEE binary64) *)

Module Float.

Inductive t : Type :=
  | Finite (q : Q)
  | Inf (negative : bool)
  | NaN.

Definition max_finite_bound : Q := Rounding.pow 2 1024.

(** Rounding of an exact real result to binary64. *)
Definition round (q : Q) : t :=
  let r := Rounding.round_sig 2 53 (Some (-1074)) q in
  if Qle_bool max_finite_bound (Qabs r) then Inf (negb (Qle_bool 0 r))
  else Finite r.

(** [float(d)] for a [Decimal]: correctly rounded, infinite on overflow. *)
Definition of_decimal (d : Decimal.t) : t := round d.

(** Conversion of an [int] operand: raises OverflowError when the integer
    is too large for a float. *)
Definition of_int (n : Z) : result t :=
  match round (inject_Z n) with
  | Finite r => Ok (Finite r)
  | _ => Raise OverflowError
  end.

Definition add (a b : t) : t :=
  match a, b with
  | Finite x, Finite y => round (x + y)
  | NaN, _ | _, NaN => NaN
  | Inf s, Finite _ | Finite _, Inf s => Inf s
  | Inf s1, Inf s2 => if Bool.eqb s1 s2 then Inf s1 else NaN
  end.

Definition neg (a : t) : t :=
  match a with
  | Finite x => Finite (- x)
  | Inf s => Inf (negb s)
  | NaN => NaN
  end.

Definition sub (a b : t) : t := add a (neg b).

Definition div (a b : t) : result t :=
  match a, b with
  | NaN, _ | _, NaN => Ok NaN
  | _, Finite y =>
      if Qeq_bool y 0 then Raise ZeroDivisionError
      else match a with
           | Finite x => Ok (round (x / y))
           | Inf s => Ok (Inf (xorb s (negb (Qle_bool 0 y))))
           | NaN => Ok NaN
           end
  | Finite x, Inf _ => Ok (Finite 0)
  | Inf _, Inf _ => Ok NaN
  end.

Definition abs (a : t) : t :=
  match a with
  | Finite x => Finite (Qabs x)
  | Inf _ => Inf false
  | NaN => NaN
  end.

Definition ltb (a b : t) : bool :=
  match a, b with
  | Finite x, Finite y => negb (Qle_bool y x)
  | Finite _, Inf s => negb s
  | Inf s, Finite _ => s
  | Inf s1, Inf s2 => s1 && negb s2
  | NaN, _ | _, NaN => false
  end.

(** A decimal literal of the source, read as the nearest float. *)
Definition literal (q : Q) : t := round q.

End Float.

(** ** utils.py: the fixed-point price codec *)

(** [inv.Quotation] (and [inv.MoneyValue], read the same way): integer units
    and a fraction in billionths. *)
Module Quotation.
Record t : Type := { units : Z; nano : Z }.
End Quotation.

Definition EPS : Float.t := Float.literal (1 # 10000000000).

(** [int(1e9)] *)
Definition int_1e9 : Z := 1000000000.

Definition quotation_to_float (quotation : Quotation.t) : result Float.t :=
  rbind (Float.of_int (Quotation.nano quotation)) (fun n =>
  rbind (Float.div n (Float.literal (inject_Z int_1e9))) (fun frac =>
  rbind (Float.of_int (Quotation.units quotation)) (fun u =>
  Ok (Float.add u frac)))).

Definition quotation_to_decimal (quotation : Quotation.t) : result Decimal.t :=
  rbind (Decimal.div (Decimal.of_int (Quotation.nano quotation))
                     (Decimal.of_int int_1e9)) (fun frac =>
  Ok (Decimal.add (Decimal.of_int (Quotation.units quotation)) frac)).

Definition decimal_to_quotation (value : Decimal.t) : result Quotation.t :=
  let units := Decimal.to_int value in
  let nano :=
    Decimal.to_int
      (Decimal.mul (Decimal.sub value (Decimal.of_int units))
                   (Decimal.of_int int_1e9)) in
  let result := {| Quotation.units := units; Quotation.nano := nano |} in
  rbind (quotation_to_float result) (fun f =>
  if Float.ltb (Float.abs (Float.sub (Float.of_decimal value) f)) EPS
  then Ok result
  else Raise AssertionError).

(** ** order_manager.py: data *)

(** The address of an [Order] object in the heap. *)
Abbreviation addr := nat.

(** [inv.OrderDirection] of the brokerage service. *)
Module OrderDirection.
Inductive t : Type :=
  | ORDER_DIRECTION_UNSPECIFIED
  | ORDER_DIRECTION_BUY
  | ORDER_DIRECTION_SELL.
End OrderDirection.

Module Side.
Inductive t : Type := BUY | SELL.

#[global] Instance eq_dec : EqDecision t.
Proof. solve_decision. Defined.

(** The value of the [IntEnum] member. *)
Definition value (s : t) : Z :=
  match s with
  | BUY => 1
  | SELL => -1
  end.

Definition from_direction (direction : OrderDirection.t) : result t :=
  match direction with
  | OrderDirection.ORDER_DIRECTION_BUY => Ok BUY
  | OrderDirection.ORDER_DIRECTION_SELL => Ok SELL
  | _ => Raise AssertionError
  end.
End Side.

Module NewOrder.
Record t : Type := { qty : Z; px : Decimal.t; side : Side.t }.
End NewOrder.

Module CancelOrder.
Record t : Type := { order : addr }.
End CancelOrder.

Module OrderStatus.
Inductive t : Type := PENDING | OPEN | FILLED | CANCELLED.

#[global] Instance eq_dec : EqDecision t.
Proof. solve_decision. Defined.

Definition is_active (self : t) : bool :=
  negb (bool_decide (self ∈ [FILLED; CANCELLED])).
End OrderStatus.

Module Order.
Record t : Type := {
  qty : Z;
  px : Decimal.t;
  side : Side.t;
  status : OrderStatus.t;
  id : option string
}.

Definition set_status (st : OrderStatus.t) (o : t) : t :=
  {| qty := qty o; px := px o; side := side o; status := st; id := id o |}.

Definition set_id (i : option string) (o : t) : t :=
  {| qty := qty o; px := px o; side := side o; status := status o; id := i |}.
End Order.

Module OrderEventType.
Inductive t : Type := PENDING | OPEN | FILLED | CANCELLED.

#[global] Instance eq_dec : EqDecision t.
Proof. solve_decision. Defined.
End OrderEventType.

Module OrderEvent.
Record t : Type := { event_type : OrderEventType.t; order : addr }.
End OrderEvent.

(** The responses of the brokerage service, with the fields the code reads. *)
Module PostOrderResponse.
Record t : Type := {
  direction : OrderDirection.t;
  initial_security_price : Quotation.t;
  lots_requested : Z;
  lots_executed : Z;
  order_id : string
}.
End PostOrderResponse.

(** [inv.CancelOrderResponse]: the acknowledgement of a cancel; the code reads
    nothing of it. *)
Module CancelOrderResponse.
Record t : Type := { time : Z }.
End CancelOrderResponse.

Module OrderState.
Record t : Type := {
  direction : OrderDirection.t;
  order_id : string;
  lots_executed : Z
}.
End OrderState.

(** [Orders.by_side]: a dict with exactly the keys [Side.BUY] and
    [Side.SELL], each holding a list of references to [Order] objects. *)
Module Orders.
Record t : Type := { by_side_BUY : list addr; by_side_SELL : list addr }.

Definition by_side (self : t) (s : Side.t) : list addr :=
  match s with
  | Side.BUY => by_side_BUY self
  | Side.SELL => by_side_SELL self
  end.

Definition set_by_side (s : Side.t) (l : list addr) (self : t) : t :=
  match s with
  | Side.BUY => {| by_side_BUY := l; by_side_SELL := by_side_SELL self |}
  | Side.SELL => {| by_side_BUY := by_side_BUY self; by_side_SELL := l |}
  end.

(** [field(default_factory=...)] *)
Definition empty : t := {| by_side_BUY := []; by_side_SELL := [] |}.
End Orders.

Module Position.
Record t : Type := { qty : Z }.
End Position.

(** An item of the submission queue. *)
Inductive Request : Type :=
  | Request_NewOrder (request : NewOrder.t)
  | Request_CancelOrder (request : CancelOrder.t).

Module OrderManager.
Record t : Type := {
  orders : Orders.t;
  position : Position.t;
  _order_queue : list Request
}.

Definition N_ORDER_CONSUMERS : Z := 5.
Definition N_MS_BETWEEN_MONITOR_ORDERS : Z := 500.
End OrderManager.

(** ** market_manager.py: data *)

Module Quote.
Record t : Type := { px : Decimal.t; qty : Z }.
End Quote.

Module OrderBook.
Record t : Type := { bids : list Quote.t; asks : list Quote.t }.
End OrderBook.

(** A snapshot as the brokerage service sends it. *)
Module RawOrder.
Record t : Type := { price : Quotation.t; quantity : Z }.
End RawOrder.

Module RawOrderBook.
Record t : Type := { bids : list RawOrder.t; asks : list RawOrder.t }.
End RawOrderBook.

Module MarketManager.
Record t : Type := { depth : option Z; ob : option OrderBook.t }.
End MarketManager.

(** ** strategy.py: data *)

Module Action.
Inductive t : Type := BUY | SELL | WAIT.

#[global] Instance eq_dec : EqDecision t.
Proof. solve_decision. Defined.

Definition get_side (self : t) : result Side.t :=
  match self with
  | BUY => Ok Side.BUY
  | SELL => Ok Side.SELL
  | WAIT => Raise AssertionError
  end.
End Action.

Module Strategy.
Record t : Type := { px_step : Decimal.t; action : Action.t }.
End Strategy.

(** ** The log *)

Inductive LogLevel : Type := DEBUG | INFO | ERROR.

(** What a log call formats; the rendering of the text is not modelled. *)
Inductive LogMessage : Type :=
  | Log_post_order (order : NewOrder.t)
  | Log_cancel_order (order : CancelOrder.t)
  | Log_post_order_request (request : NewOrder.t)
  | Log_cancel_order_request (request : CancelOrder.t)
  | Log_order_state (order_id : option string) (order_state : OrderState.t)
  | Log_not_found (response : OrderState.t)
  | Log_orderbook_update
  | Log_order_event (order_event : OrderEvent.t) (position : Position.t)
                    (orders : Orders.t)
  | Log_create_new_order (new_order : NewOrder.t)
  | Log_cancel (order : addr) (ob_px : Decimal.t).

Record LogRecord : Type := {
  log_name : string;
  log_level : LogLevel;
  log_message : LogMessage
}.

(** ** The object graph *)

Record World : Type := {
  heap : list Order.t;
  om : OrderManager.t;
  mm : MarketManager.t;
  strategy : Strategy.t;
  log : list LogRecord
}.

Definition set_heap (h : list Order.t) (w : World) : World :=
  {| heap := h; om := om w; mm := mm w; strategy := strategy w; log := log w |}.

Definition set_om (x : OrderManager.t) (w : World) : World :=
  {| heap := heap w; om := x; mm := mm w; strategy := strategy w; log := log w |}.

Definition set_mm (x : MarketManager.t) (w : World) : World :=
  {| heap := heap w; om := om w; mm := x; strategy := strategy w; log := log w |}.

Definition set_strategy (x : Strategy.t) (w : World) : World :=
  {| heap := heap w; om := om w; mm := mm w; strategy := x; log := log w |}.

Definition set_log (l : list LogRecord) (w : World) : World :=
  {| heap := heap w; om := om w; mm := mm w; strategy := strategy w; log := l |}.

Definition set_orders (x : Orders.t) (w : World) : World :=
  set_om {| OrderManager.orders := x;
            OrderManager.position := OrderManager.position (om w);
            OrderManager._order_queue := OrderManager._order_queue (om w) |} w.

Definition set_position (x : Position.t) (w : World) : World :=
  set_om {| OrderManager.orders := OrderManager.orders (om w);
            OrderManager.position := x;
            OrderManager._order_queue := OrderManager._order_queue (om w) |} w.

Definition set_order_queue (x : list Request) (w : World) : World :=
  set_om {| OrderManager.orders := OrderManager.orders (om w);
            OrderManager.position := OrderManager.position (om w);
            OrderManager._order_queue := x |} w.

Definition set_action (x : Action.t) (w : World) : World :=
  set_strategy {| Strategy.px_step := Strategy.px_step (strategy w);
                  Strategy.action := x |} w.

Definition set_px_step (x : Decimal.t) (w : World) : World :=
  set_strategy {| Strategy.px_step := x;
                  Strategy.action := Strategy.action (strategy w) |} w.

Definition set_ob (x : option OrderBook.t) (w : World) : World :=
  set_mm {| MarketManager.depth := MarketManager.depth (mm w);
            MarketManager.ob := x |} w.

Definition set_depth (x : option Z) (w : World) : World :=
  set_mm {| MarketManager.depth := x;
            MarketManager.ob := MarketManager.ob (mm w) |} w.

Definition orders (w : World) : Orders.t := OrderManager.orders (om w).
Definition position (w : World) : Position.t := OrderManager.position (om w).
Definition order_queue (w : World) : list Request :=
  OrderManager._order_queue (om w).
Definition action (w : World) : Action.t := Strategy.action (strategy w).
Definition ob (w : World) : option OrderBook.t := MarketManager.ob (mm w).
Definition depth (w : World) : option Z := MarketManager.depth (mm w).
Definition by_side (w : World) (s : Side.t) : list addr :=
  Orders.by_side (orders w) s.

(** ** The monad of methods: state and exceptions *)

Definition M (A : Type) : Type := World -> World * result A.

Definition ret {A : Type} (a : A) : M A := fun w => (w, Ok a).

Definition raise {A : Type} (e : exn) : M A := fun w => (w, Raise e).

Definition bind {A B : Type} (m : M A) (k : A -> M B) : M B :=
  fun w =>
    match m w with
    | (w', Ok a) => k a w'
    | (w', Raise e) => (w', Raise e)
    end.

Notation "x <- m ;; k" := (bind m (fun x => k))
  (at level 100, m at next level, right associativity, only parsing).
Notation "m ;;; k" := (bind m (fun _ => k))
  (at level 100, right associativity, only parsing).

Definition get : M World := fun w => (w, Ok w).
Definition modify (f : World -> World) : M unit := fun w => (f w, Ok tt).

(** The value of a pure computation that may raise. *)
Definition lift {A : Type} (r : result A) : M A := fun w => (w, r).

(** [try: m except: h] with a bare [except], which catches everything. *)
Definition try_except {A : Type} (m : M A) (h : M A) : M A :=
  fun w =>
    match m w with
    | (w', Ok a) => (w', Ok a)
    | (w', Raise _) => h w'
    end.

Definition assert (b : bool) : M unit :=
  if b then ret tt else raise AssertionError.

(** The body of a coroutine ([async def]): a StopIteration that would leave
    it is replaced by a RuntimeError (PEP 479); every other outcome is the
    body's. *)
Definition coroutine {A : Type} (body : M A) : M A :=
  fun w =>
    match body w with
    | (w', Raise StopIteration) => (w', Raise RuntimeError)
    | (w', r) => (w', r)
    end.

Definition logging (name : string) (level : LogLevel) (message : LogMessage)
  : M unit :=
  modify (fun w =>
    set_log (log w ++ [{| log_name := name; log_level := level;
                          log_message := message |}]) w).

(** ** References to [Order] objects *)

Definition deref (a : addr) : M Order.t :=
  fun w =>
    match heap w !! a with
    | Some o => (w, Ok o)
    | None => (w, Raise DanglingReference)
    end.

(** The objects a list of references denotes, each with its address. *)
Fixpoint deref_all (l : list addr) : M (list (addr * Order.t)) :=
  match l with
  | [] => ret []
  | a :: l' =>
      o <- deref a ;;
      r <- deref_all l' ;;
      ret ((a, o) :: r)
  end.

(** Attribute assignment through a reference. *)
Definition setattr (a : addr) (f : Order.t -> Order.t) : M unit :=
  o <- deref a ;;
  modify (fun w => set_heap (<[a := f o]> (heap w)) w).

(** [Order(...)]: a new object at a fresh address. *)
Definition new_Order (o : Order.t) : M addr :=
  fun w => (set_heap (heap w ++ [o]) w, Ok (length (heap w))).

(** [l[0]] *)
Definition index0 {A : Type} (l : list A) : result A :=
  match l with
  | [] => Raise IndexError
  | x :: _ => Ok x
  end.

(** ** order_manager.py: [Orders] *)

Definition get_all_orders : M (list addr) :=
  w <- get ;;
  ret (by_side w Side.BUY ++ by_side w Side.SELL).

Definition is_any_pending : M bool :=
  l <- get_all_orders ;;
  objs <- deref_all l ;;
  ret (existsb
         (fun p => bool_decide (Order.status (snd p) = OrderStatus.PENDING))
         objs).

Definition clear_inactive_orders_side (side : Side.t) : M unit :=
  w <- get ;;
  objs <- deref_all (by_side w side) ;;
  let kept :=
    filter (fun p => OrderStatus.is_active (Order.status (snd p)) = true)
           objs in
  modify (fun w =>
    set_orders (Orders.set_by_side side (map fst kept) (orders w)) w).

Definition clear_inactive_orders : M unit :=
  clear_inactive_orders_side Side.BUY ;;;
  clear_inactive_orders_side Side.SELL.

(** The key of [_insert_order]'s sort: [order.px * order.side]. *)
Definition sort_key (order : Order.t) : Decimal.t :=
  Decimal.mul (Order.px order) (Decimal.of_int (Side.value (Order.side order))).

(** [list.sort(key=..., reverse=True)]: the sort is stable, so its result is
    the one of a stable insertion sort into descending key order. *)
Fixpoint insert_reverse (x : addr * Order.t) (l : list (addr * Order.t))
  : list (addr * Order.t) :=
  match l with
  | [] => [x]
  | y :: l' =>
      if Decimal.ltb (sort_key (snd x)) (sort_key (snd y))
      then y :: insert_reverse x l'
      else x :: y :: l'
  end.

Definition sort_reverse (l : list (addr * Order.t)) : list (addr * Order.t) :=
  foldr insert_reverse [] l.

Definition _insert_order (order : addr) : M unit :=
  o <- deref order ;;
  let side := Order.side o in
  modify (fun w =>
    set_orders (Orders.set_by_side side (by_side w side ++ [order]) (orders w))
               w) ;;;
  w <- get ;;
  objs <- deref_all (by_side w side) ;;
  modify (fun w =>
    set_orders
      (Orders.set_by_side side (map fst (sort_reverse objs)) (orders w)) w).

Definition _find_order_by_side_px_qty (side : Side.t) (px : Decimal.t) (qty : Z)
  : M addr :=
  w <- get ;;
  objs <- deref_all (by_side w side) ;;
  match
    find (fun p => Decimal.eqb (Order.px (snd p)) px
                   && (Order.qty (snd p) =? qty)) objs
  with
  | Some p => ret (fst p)
  | None => raise StopIteration
  end.

Definition _find_order_by_id (side : Side.t) (order_id : string) : M addr :=
  w <- get ;;
  objs <- deref_all (by_side w side) ;;
  match
    find (fun p => bool_decide (Order.id (snd p) = Some order_id)) objs
  with
  | Some p => ret (fst p)
  | None => raise StopIteration
  end.

Definition create_pending_order (request : NewOrder.t)
  : M (option OrderEvent.t) :=
  new_order <- new_Order {| Order.qty := NewOrder.qty request;
                            Order.px := NewOrder.px request;
                            Order.side := NewOrder.side request;
                            Order.status := OrderStatus.PENDING;
                            Order.id := None |} ;;
  _insert_order new_order ;;;
  ret (Some {| OrderEvent.event_type := OrderEventType.PENDING;
               OrderEvent.order := new_order |}).

Definition process_pending_cancel (request : CancelOrder.t)
  : M (option OrderEvent.t) :=
  setattr (CancelOrder.order request) (Order.set_status OrderStatus.PENDING) ;;;
  ret (Some {| OrderEvent.event_type := OrderEventType.PENDING;
               OrderEvent.order := CancelOrder.order request |}).

Definition process_post_order_response (response : PostOrderResponse.t)
  : M (option OrderEvent.t) :=
  side <- lift (Side.from_direction (PostOrderResponse.direction response)) ;;
  px <- lift (quotation_to_decimal
                (PostOrderResponse.initial_security_price response)) ;;
  let qty := PostOrderResponse.lots_requested response in
  order <- _find_order_by_side_px_qty side px qty ;;
  setattr order (Order.set_id (Some (PostOrderResponse.order_id response))) ;;;
  o <- deref order ;;
  (if Order.qty o =? PostOrderResponse.lots_executed response
   then setattr order (Order.set_status OrderStatus.FILLED)
   else setattr order (Order.set_status OrderStatus.OPEN)) ;;;
  o <- deref order ;;
  ret (Some {| OrderEvent.event_type :=
                 if bool_decide (Order.status o = OrderStatus.OPEN)
                 then OrderEventType.OPEN
                 else OrderEventType.FILLED;
               OrderEvent.order := order |}).

Definition process_cancel_order_response (request : CancelOrder.t)
    (response : CancelOrderResponse.t) : M (option OrderEvent.t) :=
  let order := CancelOrder.order request in
  setattr order (Order.set_status OrderStatus.CANCELLED) ;;;
  ret (Some {| OrderEvent.event_type := OrderEventType.CANCELLED;
               OrderEvent.order := order |}).

Definition process_get_order (logger : string) (response : OrderState.t)
  : M (option OrderEvent.t) :=
  side <- lift (Side.from_direction (OrderState.direction response)) ;;
  let order_id := OrderState.order_id response in
  found <- try_except
             (order <- _find_order_by_id side order_id ;; ret (Some order))
             (logging logger ERROR (Log_not_found response) ;;; ret None) ;;
  match found with
  | None => ret None
  | Some order =>
      o <- deref order ;;
      if Order.qty o =? OrderState.lots_executed response
      then
        setattr order (Order.set_status OrderStatus.FILLED) ;;;
        ret (Some {| OrderEvent.event_type := OrderEventType.FILLED;
                     OrderEvent.order := order |})
      else ret None
  end.

(** ** order_manager.py: [Position] *)

Definition update_by_filled_order (order : addr) : M unit :=
  o <- deref order ;;
  modify (fun w =>
    set_position
      {| Position.qty :=
           Position.qty (position w)
           + Order.qty o * Side.value (Order.side o) |} w).

(** ** order_manager.py: [OrderManager], the queue side *)

Definition post_order (order : NewOrder.t) : M unit :=
  logging "OrderManager" INFO (Log_post_order order) ;;;
  modify (fun w => set_order_queue (order_queue w ++ [Request_NewOrder order]) w).

Definition cancel_order (order : CancelOrder.t) : M unit :=
  logging "OrderManager" INFO (Log_cancel_order order) ;;;
  modify (fun w =>
    set_order_queue (order_queue w ++ [Request_CancelOrder order]) w).

(** ** order_manager.py: the position at startup *)

(** [inv.PositionsSecurities] and [inv.Share] of the brokerage service, with
    the fields the code reads. *)
Module PositionsSecurities.
Record t : Type := { figi : string; balance : Z }.
End PositionsSecurities.

Module Share.
Record t : Type := {
  figi : string;
  lot : Z;
  min_price_increment : Quotation.t
}.
End Share.

(** [a // b] on [int]: the floor of the quotient. *)
Definition floordiv (a b : Z) : result Z :=
  if b =? 0 then Raise ZeroDivisionError else Ok (a / b).

(** The [for] loop of [get_initial_position], from the value [position] has
    so far. *)
Fixpoint get_initial_position_loop (securities : list PositionsSecurities.t)
    (instrument : Share.t) (position : Z) : result Z :=
  match securities with
  | [] => Ok position
  | security :: rest =>
      if bool_decide (PositionsSecurities.figi security = Share.figi instrument)
      then
        rbind (floordiv (PositionsSecurities.balance security)
                        (Share.lot instrument)) (fun position' =>
        get_initial_position_loop rest instrument position')
      else get_initial_position_loop rest instrument position
  end.

(** [OrderManager.get_initial_position], from the response of
    [get_positions] on; [securities] is [response.securities]. *)
Definition get_initial_position (securities : list PositionsSecurities.t)
    (instrument : Share.t) : result Z :=
  get_initial_position_loop securities instrument 0.

(** ** market_manager.py *)

Definition Quote__init__ (order : RawOrder.t) : result Quote.t :=
  rbind (quotation_to_decimal (RawOrder.price order)) (fun px =>
  Ok {| Quote.px := px; Quote.qty := RawOrder.quantity order |}).

Fixpoint Quotes (l : list RawOrder.t) : result (list Quote.t) :=
  match l with
  | [] => Ok []
  | x :: l' =>
      rbind (Quote__init__ x) (fun q =>
      rbind (Quotes l') (fun r => Ok (q :: r)))
  end.

Definition OrderBook__init__ (orderbook : RawOrderBook.t) : result OrderBook.t :=
  rbind (Quotes (RawOrderBook.bids orderbook)) (fun bids =>
  rbind (Quotes (RawOrderBook.asks orderbook)) (fun asks =>
  Ok {| OrderBook.bids := bids; OrderBook.asks := asks |})).

(** [MarketManager.subscribe]; the subscription request to the market-data
    stream is a call to the brokerage service and leaves no trace here. *)
Definition MarketManager_subscribe (orderbook_depth : Z) : M unit :=
  assert (bool_decide (orderbook_depth ∈ [1; 10; 20; 30; 40; 50])) ;;;
  modify (set_depth (Some orderbook_depth)).

(** ** strategy.py *)

(** [self.mm.ob.bids[0].px if side == Side.BUY else self.mm.ob.asks[0].px] *)
Definition best_px (side : Side.t) : M Decimal.t :=
  w <- get ;;
  match ob w with
  | None => raise AttributeError
  | Some book =>
      q <- lift (index0 (if bool_decide (side = Side.BUY)
                         then OrderBook.bids book
                         else OrderBook.asks book)) ;;
      ret (Quote.px q)
  end.

Definition Strategy__init__ (min_price_increment : Quotation.t) : M unit :=
  MarketManager_subscribe 10 ;;;
  px_step <- lift (quotation_to_decimal min_price_increment) ;;
  modify (set_px_step px_step) ;;;
  w <- get ;;
  assert (bool_decide (Position.qty (position w) ∈ [0; 1])) ;;;
  modify (set_action (if Position.qty (position w) =? 0
                      then Action.BUY else Action.SELL)).

Definition buy_or_sell_action : M unit :=
  w <- get ;;
  modify (set_action (if Position.qty (position w) =? 0
                      then Action.BUY else Action.SELL)) ;;;
  w <- get ;;
  side <- lift (Action.get_side (action w)) ;;
  px <- best_px side ;;
  let new_order :=
    {| NewOrder.qty := 1; NewOrder.px := px; NewOrder.side := side |} in
  logging "Strategy" INFO (Log_create_new_order new_order) ;;;
  post_order new_order ;;;
  modify (set_action Action.WAIT).

Definition possible_cancel_action : M unit :=
  orders <- get_all_orders ;;
  assert (bool_decide (length orders = 1%nat)) ;;;
  order <- lift (index0 orders) ;;
  o <- deref order ;;
  ob_px <- best_px (Order.side o) ;;
  let side := Decimal.of_int (Side.value (Order.side o)) in
  if Decimal.ltb (Decimal.mul side (Order.px o)) (Decimal.mul side ob_px)
  then
    logging "Strategy" INFO (Log_cancel order ob_px) ;;;
    first <- lift (index0 orders) ;;
    cancel_order {| CancelOrder.order := first |}
  else ret tt.

Definition on_orderbook_update : M unit :=
  logging "Strategy" DEBUG Log_orderbook_update ;;;
  pending <- is_any_pending ;;
  if pending then ret tt
  else
    w <- get ;;
    if bool_decide (action w = Action.WAIT)
    then possible_cancel_action
    else buy_or_sell_action.

Definition on_order_event (order_event : OrderEvent.t) : M unit :=
  w <- get ;;
  logging "Strategy" INFO (Log_order_event order_event (position w) (orders w)) ;;;
  if bool_decide (OrderEvent.event_type order_event
                  ∈ [OrderEventType.FILLED; OrderEventType.CANCELLED])
  then buy_or_sell_action
  else ret tt.

(** One turn of [MarketManager.run_loop]: a snapshot replaces the book and
    the strategy is told; an item of the stream without a book is skipped. *)
Definition run_loop_orderbook (raw_orderbook : option RawOrderBook.t) : M unit :=
  match raw_orderbook with
  | None => ret tt
  | Some raw =>
      book <- lift (OrderBook__init__ raw) ;;
      modify (set_ob (Some book)) ;;;
      on_orderbook_update
  end.

(** ** order_manager.py: [OrderManager], the execution side

    Each coroutine is cut at its [await]s: between two of them the code runs
    without interruption, and each such segment is one function here. *)

Definition _notify_strategy (order_event : option OrderEvent.t) : M unit :=
  match order_event with
  | None => ret tt
  | Some order_event =>
      (if bool_decide (OrderEvent.event_type order_event = OrderEventType.FILLED)
       then update_by_filled_order (OrderEvent.order order_event)
       else ret tt) ;;;
      on_order_event order_event ;;;
      clear_inactive_orders
  end.

(** [_order_consumer]: the item [await self._order_queue.get()] returns, when
    the queue is not empty. *)
Definition _order_consumer_get : M (option Request) :=
  w <- get ;;
  match order_queue w with
  | [] => ret None
  | request :: rest =>
      modify (set_order_queue rest) ;;;
      ret (Some request)
  end.

(** [_post_order_consumer] up to the call of [post_order]; the value is the
    price sent with it. *)
Definition _post_order_consumer_send (request : NewOrder.t) : M Quotation.t :=
  logging "OrderManager" INFO (Log_post_order_request request) ;;;
  order_event <- create_pending_order request ;;
  _notify_strategy order_event ;;;
  lift (decimal_to_quotation (NewOrder.px request)).

(** [_post_order_consumer] from the response on.  The lookup of
    [process_post_order_response] is the one place of the coroutines where a
    StopIteration can arise outside a [try]: it leaves the coroutine as a
    RuntimeError. *)
Definition _post_order_consumer_receive (response : PostOrderResponse.t)
  : M unit :=
  coroutine
    (order_event <- process_post_order_response response ;;
     _notify_strategy order_event).

(** [_cancel_order_consumer] up to the call of [cancel_order]; the value is
    the order id sent with it. *)
Definition _cancel_order_consumer_send (request : CancelOrder.t)
  : M (option string) :=
  logging "OrderManager" INFO (Log_cancel_order_request request) ;;;
  order_event <- process_pending_cancel request ;;
  _notify_strategy order_event ;;;
  o <- deref (CancelOrder.order request) ;;
  ret (Order.id o).

(** [_cancel_order_consumer] from the response on. *)
Definition _cancel_order_consumer_receive (request : CancelOrder.t)
    (response : CancelOrderResponse.t) : M unit :=
  order_event <- process_cancel_order_response request response ;;
  _notify_strategy order_event.

(** [_monitor_orders], one order of the loop, up to the status query: the
    value is the id to query, or [None] when the order is skipped. *)
Definition _monitor_orders_query (order : addr) : M (option string) :=
  o <- deref order ;;
  match Order.id o with
  | None => ret None
  | Some order_id =>
      if bool_decide (Order.status o = OrderStatus.FILLED) then ret None
      else ret (Some order_id)
  end.

(** [_monitor_orders], one order of the loop, from the response on. *)
Definition _monitor_orders_receive (order : addr) (order_state : OrderState.t)
  : M unit :=
  o <- deref order ;;
  logging "OrderManager" DEBUG (Log_order_state (Order.id o) order_state) ;;;
  order_event <- process_get_order "OrderManager" order_state ;;
  _notify_strategy order_event.

(** ** Invariants of the ledger *)

(** The objects the references of [l] denote in the heap [h]. *)
Definition objects (h : list Order.t) (l : list addr) : list (addr * Order.t) :=
  omap (fun a => pair a <$> h !! a) l.

Definition allocated (w : World) (a : addr) : Prop := is_Some (heap w !! a).

(** Every reference the ledger holds denotes an object. *)
Definition heap_wf (w : World) : Prop :=
  forall s : Side.t, Forall (allocated w) (by_side w s).

(** Priority order: the key of [p] is at least the key of [q]. *)
Definition key_ge (p q : addr * Order.t) : Prop :=
  (sort_key (snd q) <= sort_key (snd p))%Q.

Definition side_sorted (w : World) (s : Side.t) : Prop :=
  StronglySorted key_ge (objects (heap w) (by_side w s)).

Definition ledger_sorted (w : World) : Prop :=
  forall s : Side.t, side_sorted w s.


(** The ledger after a purge: each side keeps its active orders. *)
Definition active_objects (h : list Order.t) (l : list addr)
  : list (addr * Order.t) :=
  filter (fun p => OrderStatus.is_active (Order.status (snd p)) = true)
         (objects h l).

Definition purged (w : World) : World :=
  set_orders
    {| Orders.by_side_BUY := (active_objects (heap w) (by_side w Side.BUY)).*1;
       Orders.by_side_SELL := (active_objects (heap w) (by_side w Side.SELL)).*1 |}
    w.

(** The heap [h'] still holds every object of [h], with the price and the
    side it had. *)
Definition heap_extends (h h' : list Order.t) : Prop :=
  forall (a : addr) (o : Order.t),
    h !! a = Some o ->
    exists o', h' !! a = Some o'
               /\ Order.px o' = Order.px o /\ Order.side o' = Order.side o.

(** [frame R m]: whatever its result, [m] takes a state to one related to it
    by [R]. *)
Definition frame {A : Type} (R : World -> World -> Prop) (m : M A) : Prop :=
  forall w : World, R w (fst (m w)).

(** The two sequences of the ledger are as they were, and no price and no
    side in the heap has been rewritten. *)
Definition ledger_kept (w w' : World) : Prop :=
  heap_extends (heap w) (heap w') /\ orders w' = orders w.

(** The position is as it was. *)
Definition position_kept (w w' : World) : Prop := position w' = position w.

(** An order attribute update that keeps price and side. *)
Definition keeps_key (f : Order.t -> Order.t) : Prop :=
  forall o : Order.t,
    Order.px (f o) = Order.px o /\ Order.side (f o) = Order.side o.

(** The [Order] that [create_pending_order] constructs for a request. *)
Definition pending_order_of (request : NewOrder.t) : Order.t :=
  {| Order.qty := NewOrder.qty request;
     Order.px := NewOrder.px request;
     Order.side := NewOrder.side request;
     Order.status := OrderStatus.PENDING;
     Order.id := None |}.

(** The state after [create_pending_order]: the new object sits at the next
    free address and its side is sorted again. *)
Definition with_pending (request : NewOrder.t) (w : World) : World :=
  let side := NewOrder.side request in
  let new := (length (heap w), pending_order_of request) in
  set_orders
    (Orders.set_by_side side
       (sort_reverse (objects (heap w) (by_side w side) ++ [new])).*1
       (orders w))
    (set_heap (heap w ++ [pending_order_of request]) w).

(** The invariants of the ledger, together. *)
Definition ledger_inv (w : World) : Prop := heap_wf w /\ ledger_sorted w.

(** The operations of the ledger, by the names the specification gives them,
    with the method of [Orders] each one stands for. *)
Inductive LedgerOp : Type :=
  | create_pending (request : NewOrder.t)
  | mark_cancel_pending (request : CancelOrder.t)
  | reconcile_post_response (response : PostOrderResponse.t)
  | reconcile_cancel_response (request : CancelOrder.t)
                              (response : CancelOrderResponse.t)
  | reconcile_status_poll (logger : string) (response : OrderState.t)
  | purge_terminal.

Definition run_ledger_op (op : LedgerOp) : M (option OrderEvent.t) :=
  match op with
  | create_pending request => create_pending_order request
  | mark_cancel_pending request => process_pending_cancel request
  | reconcile_post_response response => process_post_order_response response
  | reconcile_cancel_response request response =>
      process_cancel_order_response request response
  | reconcile_status_poll logger response => process_get_order logger response
  | purge_terminal => clear_inactive_orders ;;; ret None
  end.

(** ** The priority order, as a number *)

(** [side * price], exactly: the priority of an order on its side. *)
Definition priority (o : Order.t) : Q :=
  (inject_Z (Side.value (Order.side o)) * Order.px o)%Q.

Definition priority_ge (p q : addr * Order.t) : Prop :=
  (priority (snd q) <= priority (snd p))%Q.

(** Each side of the ledger is in non-increasing order of [side * price]. *)
Definition priority_sorted (w : World) : Prop :=
  forall s : Side.t,
    StronglySorted priority_ge (objects (heap w) (by_side w s)).

(** A decimal of at most 28 significant digits, the precision of the
    default context: [m * 10^e] with [|m| < 10^28]. *)
Definition fits_context (d : Decimal.t) : Prop :=
  exists m e : Z,
    Z.abs m < 10 ^ Decimal.prec /\ (d == inject_Z m * Rounding.pow 10 e)%Q.

(** Every order of the ledger has such a price. *)
Definition ledger_prices_fit (w : World) : Prop :=
  forall (s : Side.t) (a : addr) (o : Order.t),
    a ∈ by_side w s -> heap w !! a = Some o -> fits_context (Order.px o).

(** The price a ledger operation brings into the ledger, if it brings one,
    is such a price. *)
Definition ledger_op_fits (op : LedgerOp) : Prop :=
  match op with
  | create_pending request => fits_context (NewOrder.px request)
  | _ => True
  end.

(** C4 as the specification states it, at one operation and one ledger. *)
Definition priority_order_claim (op : LedgerOp) (w : World) : Prop :=
  heap_wf w -> priority_sorted w -> priority_sorted (fst (run_ledger_op op w)).

(** ** Concrete states, for the examples *)

Definition ex_book : OrderBook.t :=
  {| OrderBook.bids := [{| Quote.px := 100%Q; Quote.qty := 5 |}];
     OrderBook.asks := [{| Quote.px := 101%Q; Quote.qty := 7 |}] |}.

(** The system as [main.py] leaves it before the loops start, with a flat
    position and a first book received. *)
Definition ex_world_start : World :=
  {| heap := [];
     om := {| OrderManager.orders := Orders.empty;
              OrderManager.position := {| Position.qty := 0 |};
              OrderManager._order_queue := [] |};
     mm := {| MarketManager.depth := Some 10; MarketManager.ob := Some ex_book |};
     strategy := {| Strategy.px_step := (1 # 100)%Q; Strategy.action := Action.BUY |};
     log := [] |}.

Definition ex_order_open : Order.t :=
  {| Order.qty := 1; Order.px := 100%Q; Order.side := Side.BUY;
     Order.status := OrderStatus.OPEN; Order.id := Some "a"%string |}.

Definition ex_order_pending : Order.t :=
  {| Order.qty := 1; Order.px := 100%Q; Order.side := Side.BUY;
     Order.status := OrderStatus.PENDING; Order.id := None |}.

Definition ex_order_filled : Order.t :=
  {| Order.qty := 1; Order.px := 102%Q; Order.side := Side.SELL;
     Order.status := OrderStatus.FILLED; Order.id := Some "s"%string |}.

(** A ledger with an open buy order, a pending buy order at the same price
    and quantity behind it, and a filled sell order not yet purged. *)
Definition ex_world_ledger : World :=
  set_orders {| Orders.by_side_BUY := [0%nat; 1%nat];
                Orders.by_side_SELL := [2%nat] |}
    (set_heap [ex_order_open; ex_order_pending; ex_order_filled]
       (set_action Action.WAIT ex_world_start)).

Definition ex_new_order : NewOrder.t :=
  {| NewOrder.qty := 1; NewOrder.px := (201 # 2)%Q; NewOrder.side := Side.BUY |}.

(** An open sell order at 103.00000000000000000000000000049, a price of 32
    significant digits, alone in the ledger. *)
Definition ex_order_sell_long : Order.t :=
  {| Order.qty := 1;
     Order.px := (10300000000000000000000000000049
                  # 100000000000000000000000000000)%Q;
     Order.side := Side.SELL;
     Order.status := OrderStatus.OPEN; Order.id := Some "l"%string |}.

Definition ex_world_sell_long : World :=
  set_orders {| Orders.by_side_BUY := []; Orders.by_side_SELL := [0%nat] |}
    (set_heap [ex_order_sell_long] (set_action Action.WAIT ex_world_start)).

Definition ex_sell_103 : NewOrder.t :=
  {| NewOrder.qty := 1; NewOrder.px := 103%Q; NewOrder.side := Side.SELL |}.

(** ** The position and the operations that could write it *)

(** What a notified event adds to the position: the signed quantity of the
    order of a FILLED event, nothing otherwise. *)
Definition fill_delta (w : World) (order_event : option OrderEvent.t) : Z :=
  match order_event with
  | Some e =>
      if bool_decide (OrderEvent.event_type e = OrderEventType.FILLED)
      then match heap w !! OrderEvent.order e with
           | Some o => Order.qty o * Side.value (Order.side o)
           | None => 0
           end
      else 0
  | None => 0
  end.

(** What the event a reconciliation [m] produces adds to the position once it
    is notified. *)
Definition reconciliation_delta (m : M (option OrderEvent.t)) (w : World) : Z :=
  match m w with
  | (w1, Ok order_event) => fill_delta w1 order_event
  | (_, Raise _) => 0
  end.

(** Every operation of the ledger, of the execution engine and of the
    strategy. *)
Inductive Operation : Type :=
  | op_ledger (op : LedgerOp)
  | op_update_by_filled_order (order : addr)
  | op_post_order (order : NewOrder.t)
  | op_cancel_order (order : CancelOrder.t)
  | op_notify_strategy (order_event : option OrderEvent.t)
  | op_order_consumer_get
  | op_post_order_consumer_send (request : NewOrder.t)
  | op_post_order_consumer_receive (response : PostOrderResponse.t)
  | op_cancel_order_consumer_send (request : CancelOrder.t)
  | op_cancel_order_consumer_receive (request : CancelOrder.t)
                                     (response : CancelOrderResponse.t)
  | op_monitor_orders_query (order : addr)
  | op_monitor_orders_receive (order : addr) (order_state : OrderState.t)
  | op_MarketManager_subscribe (orderbook_depth : Z)
  | op_run_loop_orderbook (raw_orderbook : option RawOrderBook.t)
  | op_Strategy__init__ (min_price_increment : Quotation.t)
  | op_on_orderbook_update
  | op_on_order_event (order_event : OrderEvent.t)
  | op_buy_or_sell_action
  | op_possible_cancel_action.

Definition forget {A : Type} (m : M A) : M unit := _ <- m ;; ret tt.

(** The price an operation brings into the ledger, if it brings one, has at
    most 28 significant digits. *)
Definition operation_fits (op : Operation) : Prop :=
  match op with
  | op_ledger op => ledger_op_fits op
  | op_post_order_consumer_send request => fits_context (NewOrder.px request)
  | _ => True
  end.

Definition run_operation (op : Operation) : M unit :=
  match op with
  | op_ledger op => forget (run_ledger_op op)
  | op_update_by_filled_order order => update_by_filled_order order
  | op_post_order order => post_order order
  | op_cancel_order order => cancel_order order
  | op_notify_strategy order_event => _notify_strategy order_event
  | op_order_consumer_get => forget _order_consumer_get
  | op_post_order_consumer_send request =>
      forget (_post_order_consumer_send request)
  | op_post_order_consumer_receive response =>
      _post_order_consumer_receive response
  | op_cancel_order_consumer_send request =>
      forget (_cancel_order_consumer_send request)
  | op_cancel_order_consumer_receive request response =>
      _cancel_order_consumer_receive request response
  | op_monitor_orders_query order => forget (_monitor_orders_query order)
  | op_monitor_orders_receive order order_state =>
      _monitor_orders_receive order order_state
  | op_MarketManager_subscribe orderbook_depth =>
      MarketManager_subscribe orderbook_depth
  | op_run_loop_orderbook raw_orderbook => run_loop_orderbook raw_orderbook
  | op_Strategy__init__ min_price_increment =>
      Strategy__init__ min_price_increment
  | op_on_orderbook_update => on_orderbook_update
  | op_on_order_event order_event => on_order_event order_event
  | op_buy_or_sell_action => buy_or_sell_action
  | op_possible_cancel_action => possible_cancel_action
  end.

(** The state in which [_monitor_orders] reconciles a status response: after
    its debug line. *)
Definition monitor_logged (o : Order.t) (order_state : OrderState.t) (w : World)
  : World :=
  set_log (log w ++ [{| log_name := "OrderManager"; log_level := DEBUG;
                        log_message := Log_order_state (Order.id o) order_state |}])
          w.

(** What each operation adds to the position. *)
Definition position_delta (op : Operation) (w : World) : Z :=
  match op with
  | op_update_by_filled_order order =>
      match heap w !! order with
      | Some o => Order.qty o * Side.value (Order.side o)
      | None => 0
      end
  | op_notify_strategy order_event => fill_delta w order_event
  | op_post_order_consumer_receive response =>
      reconciliation_delta (process_post_order_response response) w
  | op_monitor_orders_receive order order_state =>
      match heap w !! order with
      | Some o =>
          reconciliation_delta (process_get_order "OrderManager" order_state)
                               (monitor_logged o order_state w)
      | None => 0
      end
  | _ => 0
  end.

(** ** Vocabulary of the reconciliation claims *)

(** The test of [_find_order_by_side_px_qty], on an order. *)
Definition matches_px_qty (px : Decimal.t) (qty : Z) (o : Order.t) : bool :=
  Decimal.eqb (Order.px o) px && (Order.qty o =? qty).

(** The test of [_find_order_by_id], on an order. *)
Definition has_id (order_id : string) (o : Order.t) : bool :=
  bool_decide (Order.id o = Some order_id).

(** What a post response writes into the order it is matched with. *)
Definition reconciled (response : PostOrderResponse.t) (o : Order.t) : Order.t :=
  Order.set_status
    (if Order.qty o =? PostOrderResponse.lots_executed response
     then OrderStatus.FILLED else OrderStatus.OPEN)
    (Order.set_id (Some (PostOrderResponse.order_id response)) o).

(** The event of a post response matched with the order at [a]. *)
Definition reconciled_event (response : PostOrderResponse.t) (a : addr)
    (o : Order.t) : OrderEvent.t :=
  {| OrderEvent.event_type :=
       if Order.qty o =? PostOrderResponse.lots_executed response
       then OrderEventType.FILLED else OrderEventType.OPEN;
     OrderEvent.order := a |}.

(** [a] is the one PENDING order on [side] with this price and quantity. *)
Definition unique_pending_match (w : World) (side : Side.t) (px : Decimal.t)
    (qty : Z) (a : addr) (o : Order.t) : Prop :=
  a ∈ by_side w side
  /\ heap w !! a = Some o
  /\ Order.status o = OrderStatus.PENDING
  /\ matches_px_qty px qty o = true
  /\ forall (b : addr) (ob : Order.t),
       b ∈ by_side w side -> heap w !! b = Some ob ->
       Order.status ob = OrderStatus.PENDING ->
       matches_px_qty px qty ob = true -> b = a.

(** What the specification promises of a post response matched with the
    order [o] at [a]: the broker id is assigned to it, its status is FILLED if
    the executed quantity is the requested one and OPEN otherwise, and the
    event returned is of that kind and carries that order. *)
Definition post_response_outcome (response : PostOrderResponse.t) (a : addr)
    (o : Order.t) (w' : World) (r : result (option OrderEvent.t)) : Prop :=
  let filled :=
    PostOrderResponse.lots_executed response
    =? PostOrderResponse.lots_requested response in
  r = Ok (Some {| OrderEvent.event_type :=
                    if filled then OrderEventType.FILLED
                    else OrderEventType.OPEN;
                  OrderEvent.order := a |})
  /\ heap w' !! a
     = Some {| Order.qty := Order.qty o;
               Order.px := Order.px o;
               Order.side := Order.side o;
               Order.status :=
                 if filled then OrderStatus.FILLED else OrderStatus.OPEN;
               Order.id := Some (PostOrderResponse.order_id response) |}.

(** C1 as the specification states it, at one ledger and one response. *)
Definition post_response_claim (w : World) (response : PostOrderResponse.t)
  : Prop :=
  forall (side : Side.t) (px : Decimal.t) (a : addr) (o : Order.t),
    Side.from_direction (PostOrderResponse.direction response) = Ok side ->
    quotation_to_decimal (PostOrderResponse.initial_security_price response)
    = Ok px ->
    unique_pending_match w side px (PostOrderResponse.lots_requested response)
                         a o ->
    post_response_outcome response a o
      (fst (process_post_order_response response w))
      (snd (process_post_order_response response w)).

Definition ex_buy_100 : NewOrder.t :=
  {| NewOrder.qty := 1; NewOrder.px := 100%Q; NewOrder.side := Side.BUY |}.

Definition ex_post_response (lots_executed : Z) (order_id : string)
  : PostOrderResponse.t :=
  {| PostOrderResponse.direction := OrderDirection.ORDER_DIRECTION_BUY;
     PostOrderResponse.initial_security_price :=
       {| Quotation.units := 100; Quotation.nano := 0 |};
     PostOrderResponse.lots_requested := 1;
     PostOrderResponse.lots_executed := lots_executed;
     PostOrderResponse.order_id := order_id |}.

(** One pending buy order for one lot at 100: the state
    [create_pending_order ex_buy_100] gives from [ex_world_start]. *)
Definition ex_world_one_buy : World :=
  set_orders {| Orders.by_side_BUY := [0%nat]; Orders.by_side_SELL := [] |}
    (set_heap [ex_order_pending] ex_world_start).

(** A buy order at 100 that the broker acknowledged unfilled under the id
    "a", and a second, pending buy order for the same quantity at the same
    price: the state reached from [ex_world_one_buy] by the post response of
    the first order and a second [create_pending_order ex_buy_100]. *)
Definition ex_world_two_buys : World :=
  set_orders {| Orders.by_side_BUY := [0%nat; 1%nat]; Orders.by_side_SELL := [] |}
    (set_heap [ex_order_open; ex_order_pending] ex_world_start).


Definition ex_order_state (order_id : string) (lots_executed : Z)
  : OrderState.t :=
  {| OrderState.direction := OrderDirection.ORDER_DIRECTION_BUY;
     OrderState.order_id := order_id;
     OrderState.lots_executed := lots_executed |}.

(** ** Vocabulary of the strategy claims *)

(** The price at the top of the book on a side: the best bid for BUY, the
    best ask for SELL, when the book has one. *)
Definition best_quote (w : World) (side : Side.t) : option Decimal.t :=
  match ob w with
  | Some book =>
      match (if bool_decide (side = Side.BUY)
             then OrderBook.bids book else OrderBook.asks book) with
      | q :: _ => Some (Quote.px q)
      | [] => None
      end
  | None => None
  end.

(** The side the strategy trades next: BUY when flat, SELL otherwise. *)
Definition side_from_position (w : World) : Side.t :=
  if Position.qty (position w) =? 0 then Side.BUY else Side.SELL.

Definition state_from_position (w : World) : Action.t :=
  if Position.qty (position w) =? 0 then Action.BUY else Action.SELL.

(** A single-lot limit order. *)
Definition single_lot (side : Side.t) (px : Decimal.t) : NewOrder.t :=
  {| NewOrder.qty := 1; NewOrder.px := px; NewOrder.side := side |}.

Definition logged (name : string) (level : LogLevel) (message : LogMessage)
    (w : World) : World :=
  set_log (log w ++ [{| log_name := name; log_level := level;
                        log_message := message |}]) w.

(** The state after [buy_or_sell_action] has submitted [new_order]. *)
Definition after_submission (new_order : NewOrder.t) (w : World) : World :=
  set_action Action.WAIT
    (set_order_queue (order_queue w ++ [Request_NewOrder new_order])
       (logged "OrderManager" INFO (Log_post_order new_order)
          (logged "Strategy" INFO (Log_create_new_order new_order) w))).

(** The state after the log line of [on_order_event]. *)
Definition event_logged (order_event : OrderEvent.t) (w : World) : World :=
  logged "Strategy" INFO (Log_order_event order_event (position w) (orders w)) w.

(** The state after the log line of [on_orderbook_update]. *)
Definition update_logged (w : World) : World :=
  logged "Strategy" DEBUG Log_orderbook_update w.


(** Some order of the ledger is PENDING. *)
Definition any_pending (w : World) : bool :=
  existsb (fun p => bool_decide (Order.status (snd p) = OrderStatus.PENDING))
          (objects (heap w) (by_side w Side.BUY ++ by_side w Side.SELL)).

(** C2 as the specification states it, at one state and one event. *)
Definition order_event_claim (w : World) (order_event : OrderEvent.t) : Prop :=
  let w' := fst (on_order_event order_event w) in
  (OrderEvent.event_type order_event
   ∈ [OrderEventType.FILLED; OrderEventType.CANCELLED] ->
   exists px : Decimal.t,
     best_quote w (side_from_position w) = Some px
     /\ order_queue w'
        = order_queue w
          ++ [Request_NewOrder (single_lot (side_from_position w) px)]
     /\ action w' = Action.WAIT)
  /\ (OrderEvent.event_type order_event
      ∈ [OrderEventType.PENDING; OrderEventType.OPEN] ->
      action w' = action w /\ order_queue w' = order_queue w).


Definition ex_order_open_101 : Order.t :=
  {| Order.qty := 1; Order.px := 101%Q; Order.side := Side.BUY;
     Order.status := OrderStatus.OPEN; Order.id := Some "a"%string |}.

(** One open buy order at 101 while the book shows a best bid of 100; the
    strategy waits. *)
Definition ex_world_above_best : World :=
  set_orders {| Orders.by_side_BUY := [0%nat]; Orders.by_side_SELL := [] |}
    (set_heap [ex_order_open_101] (set_action Action.WAIT ex_world_start)).

(** One open buy order at 99 while the book shows a best bid of 100. *)
Definition ex_world_below_best : World :=
  set_heap [Order.set_status OrderStatus.OPEN
              {| Order.qty := 1; Order.px := 99%Q; Order.side := Side.BUY;
                 Order.status := OrderStatus.OPEN; Order.id := Some "a"%string |}]
    ex_world_above_best.

(** A flat position and a book whose bid side is empty. *)
Definition ex_world_no_bids : World :=
  set_ob (Some {| OrderBook.bids := [];
                  OrderBook.asks := [{| Quote.px := 101%Q; Quote.qty := 7 |}] |})
    ex_world_start.

Definition ex_filled_event : OrderEvent.t :=
  {| OrderEvent.event_type := OrderEventType.FILLED; OrderEvent.order := 0%nat |}.

(** ** Vocabulary of the codec claim *)

(** A decimal with at most nine fractional digits: a whole number of
    billionths. *)
Definition at_most_9_fractional_digits (v : Decimal.t) : Prop :=
  exists k : Z, (v == k # 1000000000)%Q.

(** C8 as the specification states it, at one value: the conversion to the
    fixed-point representation and back gives a value within 1e-10 of it. *)
Definition round_trip_claim (v : Decimal.t) : Prop :=
  exists (q : Quotation.t) (d : Decimal.t),
    decimal_to_quotation v = Ok q
    /\ quotation_to_decimal q = Ok d
    /\ (Qabs (d - v) < 1 # 10000000000)%Q.

(** 9007199254740993.5, that is 2^53 + 1.5 *)
Definition ex_price_large : Decimal.t := (90071992547409935 # 10)%Q.

(** 10^30 + 0.5 *)
Definition ex_price_huge : Decimal.t :=
  (10000000000000000000000000000005 # 10)%Q.

(** ** log.py: the registry of loggers

    [Logging] keeps its state in class attributes: the log directory, the
    handler of the common file, and a [LoggerInfo] per logger name.  The
    handlers are objects of the [logging] library, shared between a
    [LoggerInfo] and its logger: they live in a heap of their own and are
    held by address; of a handler the model keeps where it writes, its level
    and whether it has the common formatter.  The calls of the operating
    system (making the directory, opening a file for writing) are recorded
    in the order they are made; whether each one succeeds is given with the
    call of the module that makes it. *)
Module Logging.

Definition NOTSET : Z := 0.
Definition DEBUG : Z := 10.
Definition INFO : Z := 20.
Definition WARNING : Z := 30.
Definition ERROR : Z := 40.
Definition CRITICAL : Z := 50.
Definition levels : list Z := [DEBUG; INFO; WARNING; ERROR; CRITICAL].

(** What a call of this module raises: a failed assertion, or the error of
    a call of the operating system. *)
Inductive error : Type := AssertionFailed | OSError.

Inductive OsCall : Type :=
  | Mkdir (directory : string)
  | Open (directory filename : string).

(** The operating system as one call of the module meets it. *)
Record Os : Type := { mkdir_ok : bool; open_ok : string -> bool }.

Inductive Stream : Type :=
  | Stderr
  | LogFile (directory filename : string).

Record Handler : Type := {
  handler_stream : Stream;
  handler_level : Z;
  handler_formatted : bool
}.

Record Logger : Type := {
  logger_name : string;
  logger_level : Z;
  logger_handlers : list nat
}.

Record LoggerInfo : Type := {
  name : string;
  logger : option Logger;
  stdout_log_level : option Z;
  stdout_handler : option nat;
  file_log_level : option Z;
  file_handler : option nat
}.

(** [LoggerInfo(name=name)] *)
Definition LoggerInfo__init__ (name : string) : LoggerInfo :=
  {| name := name; logger := None; stdout_log_level := None;
     stdout_handler := None; file_log_level := None; file_handler := None |}.

Record State : Type := {
  _log_directory : option string;
  _common_handler : option nat;
  _loggers : gmap string LoggerInfo;
  handlers : list Handler;
  os_calls : list OsCall
}.

(** The class as the module is loaded. *)
Definition initial : State :=
  {| _log_directory := None; _common_handler := None; _loggers := ∅;
     handlers := []; os_calls := [] |}.

Definition L (A : Type) : Type := State -> State * (A + error).

Definition lret {A : Type} (a : A) : L A := fun st => (st, inl a).

Definition lraise {A : Type} (e : error) : L A := fun st => (st, inr e).

Definition lbind {A B : Type} (m : L A) (k : A -> L B) : L B :=
  fun st =>
    match m st with
    | (st', inl a) => k a st'
    | (st', inr e) => (st', inr e)
    end.

Notation "x <~ m ;; k" := (lbind m (fun x => k))
  (at level 100, m at next level, right associativity, only parsing).
Notation "m ;;~ k" := (lbind m (fun _ => k))
  (at level 100, right associativity, only parsing).

Definition lget : L State := fun st => (st, inl st).

Definition lassert (b : bool) : L unit :=
  if b then lret tt else lraise AssertionFailed.

Definition set_loggers (x : gmap string LoggerInfo) : L unit :=
  fun st =>
    ({| _log_directory := _log_directory st;
        _common_handler := _common_handler st;
        _loggers := x; handlers := handlers st; os_calls := os_calls st |},
     inl tt).

Definition set_common_handler (h : nat) : L unit :=
  fun st =>
    ({| _log_directory := _log_directory st; _common_handler := Some h;
        _loggers := _loggers st; handlers := handlers st;
        os_calls := os_calls st |},
     inl tt).

Definition set_handlers (x : list Handler) : L unit :=
  fun st =>
    ({| _log_directory := _log_directory st;
        _common_handler := _common_handler st;
        _loggers := _loggers st; handlers := x; os_calls := os_calls st |},
     inl tt).

(** A call of the operating system: recorded, then it returns or raises. *)
Definition os_call (c : OsCall) (ok : bool) : L unit :=
  fun st =>
    ({| _log_directory := _log_directory st;
        _common_handler := _common_handler st;
        _loggers := _loggers st; handlers := handlers st;
        os_calls := os_calls st ++ [c] |},
     if ok then inl tt else inr OSError).

(** A handler as its constructor leaves it. *)
Definition new_handler (stream : Stream) : L nat :=
  st <~ lget ;;
  set_handlers (handlers st ++ [{| handler_stream := stream;
                                   handler_level := NOTSET;
                                   handler_formatted := false |}]) ;;~
  lret (length (handlers st)).

(** [logging.StreamHandler()] *)
Definition StreamHandler : L nat := new_handler Stderr.

(** [logging.FileHandler(filename=directory / filename, mode='w', ...)]: the
    file is opened, and emptied, when the handler is made. *)
Definition FileHandler (os : Os) (directory filename : string) : L nat :=
  os_call (Open directory filename) (open_ok os filename) ;;~
  new_handler (LogFile directory filename).

Definition setLevel (h : nat) (level : Z) : L unit :=
  st <~ lget ;;
  set_handlers
    (alter (fun x => {| handler_stream := handler_stream x;
                        handler_level := level;
                        handler_formatted := handler_formatted x |})
           h (handlers st)).

(** [handler.setFormatter(cls._common_formatter)] *)
Definition setFormatter (h : nat) : L unit :=
  st <~ lget ;;
  set_handlers
    (alter (fun x => {| handler_stream := handler_stream x;
                        handler_level := handler_level x;
                        handler_formatted := true |})
           h (handlers st)).

(** [handler.level] *)
Definition level_of (h : nat) : L Z :=
  st <~ lget ;;
  lret (default NOTSET (handler_level <$> handlers st !! h)).

(** [self._loggers[name] = info], and the assignments to the attributes of
    that object. *)
Definition store_info (info : LoggerInfo) : L unit :=
  st <~ lget ;;
  set_loggers (<[name info := info]> (_loggers st)).

(** [level or cls.DEBUG] *)
Definition or_DEBUG (level : option Z) : Z :=
  match level with
  | None => DEBUG
  | Some l => if l =? 0 then DEBUG else l
  end.

Definition check_correctness (self : LoggerInfo) : L unit :=
  lassert (bool_decide (is_Some (logger self))
           && bool_decide (is_Some (stdout_log_level self))
           && bool_decide (is_Some (stdout_handler self))
           && bool_decide (is_Some (file_log_level self))
           && bool_decide (is_Some (file_handler self))).

Definition set_log_directory (log_directory : string) : L unit :=
  fun st =>
    ({| _log_directory := Some log_directory;
        _common_handler := _common_handler st;
        _loggers := _loggers st; handlers := handlers st;
        os_calls := os_calls st |},
     inl tt).

Definition _construct_logger (os : Os) (name : string) : L LoggerInfo :=
  st <~ lget ;;
  match _loggers st !! name with
  | Some logger_info => lret logger_info
  | None =>
      lassert (bool_decide (is_Some (_log_directory st))) ;;~
      let log_directory := default ""%string (_log_directory st) in
      os_call (Mkdir log_directory) (mkdir_ok os) ;;~
      common <~ match _common_handler st with
                | Some h => lret h
                | None =>
                    h <~ FileHandler os log_directory "All.log" ;;
                    set_common_handler h ;;~
                    setLevel h DEBUG ;;~
                    setFormatter h ;;~
                    lret h
                end ;;
      let logger_info := LoggerInfo__init__ name in
      store_info logger_info ;;~
      stdout_handler <~ StreamHandler ;;
      setFormatter stdout_handler ;;~
      setLevel stdout_handler (or_DEBUG (stdout_log_level logger_info)) ;;~
      stdout_level <~ level_of stdout_handler ;;
      let logger_info :=
        {| name := name; logger := logger logger_info;
           stdout_log_level := Some stdout_level;
           stdout_handler := Some stdout_handler;
           file_log_level := file_log_level logger_info;
           file_handler := file_handler logger_info |} in
      store_info logger_info ;;~
      file_handler <~ FileHandler os log_directory (name ++ ".log") ;;
      setFormatter file_handler ;;~
      setLevel file_handler (or_DEBUG (file_log_level logger_info)) ;;~
      file_level <~ level_of file_handler ;;
      let logger_info :=
        {| name := name; logger := logger logger_info;
           stdout_log_level := stdout_log_level logger_info;
           stdout_handler := Logging.stdout_handler logger_info;
           file_log_level := Some file_level;
           file_handler := Some file_handler |} in
      store_info logger_info ;;~
      let logger_info :=
        {| name := name;
           logger := Some {| logger_name := name; logger_level := DEBUG;
                             logger_handlers :=
                               [stdout_handler; file_handler; common] |};
           stdout_log_level := stdout_log_level logger_info;
           stdout_handler := Logging.stdout_handler logger_info;
           file_log_level := file_log_level logger_info;
           file_handler := Logging.file_handler logger_info |} in
      store_info logger_info ;;~
      check_correctness logger_info ;;~
      lret logger_info
  end.

Definition get_logger (os : Os) (name : string) : L (option Logger) :=
  logger_info <~ _construct_logger os name ;;
  lret (logger logger_info).

Definition _set_log_level (name : string) (level : Z) (is_file : bool)
  : L unit :=
  lassert (bool_decide (level ∈ levels)) ;;~
  st <~ lget ;;
  (match _loggers st !! name with
   | Some _ => lret tt
   | None => store_info (LoggerInfo__init__ name)
   end) ;;~
  st <~ lget ;;
  let logger_info := default (LoggerInfo__init__ name) (_loggers st !! name) in
  if is_file
  then
    store_info {| name := Logging.name logger_info;
                  logger := logger logger_info;
                  stdout_log_level := stdout_log_level logger_info;
                  stdout_handler := stdout_handler logger_info;
                  file_log_level := Some level;
                  file_handler := file_handler logger_info |} ;;~
    match file_handler logger_info with
    | Some h => setLevel h level
    | None => lret tt
    end
  else
    store_info {| name := Logging.name logger_info;
                  logger := logger logger_info;
                  stdout_log_level := Some level;
                  stdout_handler := stdout_handler logger_info;
                  file_log_level := file_log_level logger_info;
                  file_handler := file_handler logger_info |} ;;~
    match stdout_handler logger_info with
    | Some h => setLevel h level
    | None => lret tt
    end.

Definition set_file_log_level (name : string) (level : Z) : L unit :=
  _set_log_level name level true.

Definition set_stdout_log_level (name : string) (level : Z) : L unit :=
  _set_log_level name level false.

(** A call of the interface of the class, with the operating system as the
    call meets it. *)
Inductive Call : Type :=
  | call_set_log_directory (log_directory : string)
  | call_get_logger (os : Os) (name : string)
  | call_set_file_log_level (name : string) (level : Z)
  | call_set_stdout_log_level (name : string) (level : Z).

(** The state a call leaves, whether it returns or raises. *)
Definition run_call (c : Call) (st : State) : State :=
  match c with
  | call_set_log_directory log_directory =>
      fst (set_log_directory log_directory st)
  | call_get_logger os name => fst (get_logger os name st)
  | call_set_file_log_level name level => fst (set_file_log_level name level st)
  | call_set_stdout_log_level name level =>
      fst (set_stdout_log_level name level st)
  end.

(** The state of the class after the calls [calls], one after the other,
    from the class as the module is loaded. *)
Definition reached (calls : list Call) : State :=
  foldl (fun st c => run_call c st) initial calls.

(** The common handler, when there is one, is as [_construct_logger] makes
    it: for [All.log], at level DEBUG, with the common formatter. *)
Definition common_handler_made (st : State) : Prop :=
  forall hc : nat,
    _common_handler st = Some hc ->
    exists directory : string,
      handlers st !! hc
      = Some {| handler_stream := LogFile directory "All.log";
                handler_level := DEBUG; handler_formatted := true |}.

(** The handlers of the entries exist, and none of them is the common
    handler. *)
Definition entry_handlers_own (st : State) : Prop :=
  forall (n : string) (info : LoggerInfo) (h : nat),
    _loggers st !! n = Some info ->
    stdout_handler info = Some h \/ file_handler info = Some h ->
    (h < length (handlers st))%nat /\ _common_handler st <> Some h.

Definition registry_inv (st : State) : Prop :=
  common_handler_made st /\ entry_handlers_own st.

End Logging.

(** ** Vocabulary of the properties of the engine as a whole *)

(** No order object and no sequence of the ledger has changed. *)
Definition orders_kept (w w' : World) : Prop :=
  heap w' = heap w /\ orders w' = orders w.

(** Neither an order object, nor the ledger, nor the position, nor the
    market side (depth and book) has changed. *)
Definition books_kept (w w' : World) : Prop :=
  orders_kept w w' /\ position w' = position w /\ mm w' = mm w.

(** Every order object is still there, with the quantity, the price and the
    side it had. *)
Definition identity_kept (w w' : World) : Prop :=
  forall (a : addr) (o : Order.t),
    heap w !! a = Some o ->
    exists o' : Order.t,
      heap w' !! a = Some o'
      /\ Order.qty o' = Order.qty o /\ Order.px o' = Order.px o
      /\ Order.side o' = Order.side o.

(** The invariants of the ledger, with the priority order as a number, on a
    ledger of prices of at most 28 significant digits. *)
Definition priority_inv (w : World) : Prop :=
  heap_wf w /\ ledger_prices_fit w /\ priority_sorted w.

(** These invariants, if they held, still hold. *)
Definition invariant_kept (w w' : World) : Prop :=
  priority_inv w -> priority_inv w'.

(** The submission queue has at most [n] more requests, behind the ones it
    had. *)
Definition queue_grows (n : nat) (w w' : World) : Prop :=
  exists rs : list Request,
    order_queue w' = order_queue w ++ rs /\ (length rs <= n)%nat.

(** The log has its former lines first. *)
Definition log_grows (w w' : World) : Prop :=
  exists recs : list LogRecord, log w' = log w ++ recs.

(** The state after a run of operations, one after the other; an operation
    that raises leaves the state it had reached. *)
Definition run_operations (ops : list Operation) (w : World) : World :=
  foldl (fun w op => fst (run_operation op w)) w ops.

(** The exact value of a quotation. *)
Definition quotation_value (q : Quotation.t) : Q :=
  (inject_Z (Quotation.units q) + (Quotation.nano q # 1000000000))%Q.

(** Units and nano do not pull in opposite directions, and the nano is
    below a unit. *)
Definition normalised (q : Quotation.t) : Prop :=
  (Z.abs (Quotation.nano q) < 1000000000)
  /\ (0 <= Quotation.units q * Quotation.nano q).

(** What [Quote(order)] reads off a raw order. *)
Definition decodes (raw : RawOrder.t) (q : Quote.t) : Prop :=
  quotation_to_decimal (RawOrder.price raw) = Ok (Quote.px q)
  /\ Quote.qty q = RawOrder.quantity raw.

(** An order of the ledger is in a terminal status. *)
Definition terminal_in_ledger (w : World) : Prop :=
  exists (s : Side.t) (a : addr) (o : Order.t),
    a ∈ by_side w s /\ heap w !! a = Some o
    /\ OrderStatus.is_active (Order.status o) = false.
(** * Properties *)

(** ** The monad *)

Lemma deref_Some (a : addr) (o : Order.t) (w : World) :
  heap w !! a = Some o -> deref a w = (w, Ok o).
Proof. intros H. unfold deref. now rewrite H. Qed.

Lemma deref_state (a : addr) (w : World) : fst (deref a w) = w.
Proof. unfold deref. now destruct (heap w !! a). Qed.

Lemma deref_all_state (l : list addr) (w : World) : fst (deref_all l w) = w.
Proof.
  induction l as [|a l IH]; simpl; [reflexivity|].
  unfold bind, deref. destruct (heap w !! a) as [o|]; [|reflexivity].
  destruct (deref_all l w) as [w' [r|e]] eqn:E; simpl in *; now subst.
Qed.

Lemma deref_all_objects (l : list addr) (w : World) :
  Forall (allocated w) l -> deref_all l w = (w, Ok (objects (heap w) l)).
Proof.
  induction 1 as [|a l [o Ho] _ IH]; simpl; [reflexivity|].
  unfold bind. rewrite (deref_Some a o w Ho), IH. simpl.
  unfold objects. simpl. now rewrite Ho.
Qed.

Lemma objects_cons (h : list Order.t) (a : addr) (l : list addr) :
  objects h (a :: l) =
  match h !! a with Some o => (a, o) :: objects h l | None => objects h l end.
Proof. unfold objects. simpl. now destruct (h !! a). Qed.

Lemma objects_fst (h : list Order.t) (l : list addr) :
  Forall (fun a => is_Some (h !! a)) l -> (objects h l).*1 = l.
Proof.
  induction 1 as [|a l [o Ho] _ IH]; [reflexivity|].
  rewrite objects_cons, Ho, fmap_cons, IH. reflexivity.
Qed.

Lemma objects_lookup (h : list Order.t) (l : list addr) :
  Forall (fun p => h !! fst p = Some (snd p)) (objects h l).
Proof.
  induction l as [|a l IH]; [constructor|].
  rewrite objects_cons. destruct (h !! a) as [o|] eqn:E; [|exact IH].
  constructor; [exact E | exact IH].
Qed.

Lemma objects_of_fst (h : list Order.t) (ps : list (addr * Order.t)) :
  Forall (fun p => h !! fst p = Some (snd p)) ps -> objects h ps.*1 = ps.
Proof.
  induction 1 as [|[a o] ps Hp _ IH]; [reflexivity|].
  simpl in Hp. rewrite fmap_cons, objects_cons. simpl. now rewrite Hp, IH.
Qed.

Lemma objects_app (h : list Order.t) (l1 l2 : list addr) :
  objects h (l1 ++ l2) = objects h l1 ++ objects h l2.
Proof. unfold objects. apply omap_app. Qed.

Lemma elem_of_objects (h : list Order.t) (l : list addr) (p : addr * Order.t) :
  p ∈ objects h l -> fst p ∈ l /\ h !! fst p = Some (snd p).
Proof.
  unfold objects. intros Hp. apply list_elem_of_omap in Hp as (a & Ha & Hp).
  destruct (h !! a) as [o|] eqn:E; [|discriminate].
  injection Hp as <-. now split.
Qed.

Lemma active_objects_lookup h l :
  Forall (fun p => h !! fst p = Some (snd p)) (active_objects h l).
Proof.
  unfold active_objects. apply Forall_forall. intros p Hp.
  apply list_elem_of_filter in Hp as [_ Hp].
  revert p Hp. apply Forall_forall, objects_lookup.
Qed.

Lemma active_objects_allocated h l :
  Forall (fun a => is_Some (h !! a)) (active_objects h l).*1.
Proof.
  apply Forall_fmap. eapply Forall_impl; [apply active_objects_lookup|].
  intros p Hp. simpl. rewrite Hp. eauto.
Qed.

Lemma active_objects_idem h l :
  active_objects h (active_objects h l).*1 = active_objects h l.
Proof.
  unfold active_objects at 1. rewrite objects_of_fst by apply active_objects_lookup.
  unfold active_objects. apply list_filter_filter_l. tauto.
Qed.

Lemma clear_inactive_orders_side_run s w :
  Forall (allocated w) (by_side w s) ->
  clear_inactive_orders_side s w =
  (set_orders (Orders.set_by_side s (active_objects (heap w) (by_side w s)).*1
                                  (orders w)) w, Ok tt).
Proof.
  intros H. unfold clear_inactive_orders_side, bind, get.
  rewrite deref_all_objects by exact H. reflexivity.
Qed.

Lemma clear_inactive_orders_run w :
  heap_wf w -> clear_inactive_orders w = (purged w, Ok tt).
Proof.
  intros H. unfold clear_inactive_orders, bind.
  rewrite clear_inactive_orders_side_run by apply H.
  rewrite clear_inactive_orders_side_run by apply (H Side.SELL).
  reflexivity.
Qed.

Lemma purged_wf w : heap_wf (purged w).
Proof.
  intros []; unfold allocated; simpl; apply active_objects_allocated.
Qed.

Lemma purged_idem w : purged (purged w) = purged w.
Proof.
  unfold purged. simpl. unfold by_side, orders. simpl.
  now rewrite !active_objects_idem.
Qed.
(** ** Sorting *)

Lemma ltb_false_ge (a b : Decimal.t) : Decimal.ltb a b = false -> (b <= a)%Q.
Proof.
  unfold Decimal.ltb. intros H. apply negb_false_iff in H.
  now apply Qle_bool_iff.
Qed.

Lemma ltb_true_lt (a b : Decimal.t) : Decimal.ltb a b = true -> (a < b)%Q.
Proof.
  unfold Decimal.ltb. intros H. apply negb_true_iff in H.
  apply Qnot_le_lt. intros Hle. apply Qle_bool_iff in Hle. congruence.
Qed.

Lemma key_ge_trans (p q r : addr * Order.t) :
  key_ge p q -> key_ge q r -> key_ge p r.
Proof. unfold key_ge. intros H1 H2. eapply Qle_trans; eassumption. Qed.

Lemma insert_reverse_perm x l : insert_reverse x l ≡ₚ x :: l.
Proof.
  induction l as [|y l IH]; simpl; [reflexivity|].
  destruct (Decimal.ltb _ _); [|reflexivity].
  rewrite IH. apply perm_swap.
Qed.

Lemma sort_reverse_perm l : sort_reverse l ≡ₚ l.
Proof.
  induction l as [|x l IH]; simpl; [reflexivity|].
  rewrite insert_reverse_perm. now rewrite IH.
Qed.

Lemma insert_reverse_sorted x l :
  StronglySorted key_ge l -> StronglySorted key_ge (insert_reverse x l).
Proof.
  induction 1 as [|y l Hs IH Hy]; simpl.
  - repeat constructor.
  - destruct (Decimal.ltb _ _) eqn:E.
    + constructor; [exact IH|].
      rewrite insert_reverse_perm. constructor; [|exact Hy].
      unfold key_ge. apply Qlt_le_weak. now apply ltb_true_lt.
    + apply ltb_false_ge in E.
      constructor; [now constructor|].
      constructor; [exact E|].
      eapply Forall_impl; [exact Hy|].
      intros r Hr. eapply key_ge_trans; [exact E | exact Hr].
Qed.

Lemma sort_reverse_sorted l : StronglySorted key_ge (sort_reverse l).
Proof.
  induction l as [|x l IH]; simpl; [constructor|].
  now apply insert_reverse_sorted.
Qed.

Lemma StronglySorted_filter {A} (R : A -> A -> Prop) (P : A -> Prop)
    `{!forall x, Decision (P x)} (l : list A) :
  StronglySorted R l -> StronglySorted R (filter P l).
Proof.
  induction 1 as [|x l Hs IH Hx]; [constructor|].
  rewrite filter_cons. destruct (decide (P x)); [|exact IH].
  constructor; [exact IH|].
  apply Forall_forall. intros y Hy. apply list_elem_of_filter in Hy as [_ Hy].
  revert y Hy. now apply Forall_forall.
Qed.

(** Two lists of objects with the same keys, position by position. *)
Lemma StronglySorted_same_keys (l1 l2 : list (addr * Order.t)) :
  Forall2 (fun p q => sort_key (snd p) = sort_key (snd q)) l1 l2 ->
  StronglySorted key_ge l1 -> StronglySorted key_ge l2.
Proof.
  induction 1 as [|p q l1 l2 Hpq Hl IH]; intros Hs; [constructor|].
  inversion Hs as [|? ? Hs' Hp]; subst.
  constructor; [now apply IH|].
  clear IH Hs Hs'. induction Hl as [|p' q' l1 l2 Hpq' Hl IH]; [constructor|].
  inversion Hp; subst. constructor; [|now apply IH].
  unfold key_ge in *. now rewrite <- Hpq, <- Hpq'.
Qed.
(** ** Frames: what a computation leaves as it is *)

Section Frame.

Context (R : World -> World -> Prop) `{!Reflexive R} `{!Transitive R}.

Lemma frame_ret {A} (a : A) : frame R (ret a).
Proof. intros w. reflexivity. Qed.

Lemma frame_raise {A} e : frame R (@raise A e).
Proof. intros w. reflexivity. Qed.

Lemma frame_lift {A} (r : result A) : frame R (lift r).
Proof. intros w. reflexivity. Qed.

Lemma frame_get : frame R get.
Proof. intros w. reflexivity. Qed.

Lemma frame_assert b : frame R (assert b).
Proof. destruct b; [apply frame_ret | apply frame_raise]. Qed.

Lemma frame_deref a : frame R (deref a).
Proof. intros w. rewrite deref_state. reflexivity. Qed.

Lemma frame_deref_all l : frame R (deref_all l).
Proof. intros w. rewrite deref_all_state. reflexivity. Qed.

Lemma frame_modify f : (forall w, R w (f w)) -> frame R (modify f).
Proof. intros H w. apply H. Qed.

Lemma frame_bind {A B} (m : M A) (k : A -> M B) :
  frame R m -> (forall a, frame R (k a)) -> frame R (bind m k).
Proof.
  intros Hm Hk w. unfold bind. specialize (Hm w).
  destruct (m w) as [w1 [a|e]]; simpl in *; [|exact Hm].
  etransitivity; [exact Hm | apply Hk].
Qed.

Lemma frame_try_except {A} (m h : M A) :
  frame R m -> frame R h -> frame R (try_except m h).
Proof.
  intros Hm Hh w. unfold try_except. specialize (Hm w).
  destruct (m w) as [w1 [a|e]]; simpl in *; [exact Hm|].
  etransitivity; [exact Hm | apply Hh].
Qed.

End Frame.

(** A coroutine leaves the state its body leaves. *)
Lemma coroutine_state {A} (body : M A) (w : World) :
  fst (coroutine body w) = fst (body w).
Proof. unfold coroutine. now destruct (body w) as [w1 [a|[]]]. Qed.

Lemma coroutine_Ok {A} (body : M A) (w w' : World) (a : A) :
  body w = (w', Ok a) -> coroutine body w = (w', Ok a).
Proof. intros H. unfold coroutine. now rewrite H. Qed.

Lemma frame_coroutine {A} (R : World -> World -> Prop) (body : M A) :
  frame R body -> frame R (coroutine body).
Proof. intros Hm w. rewrite coroutine_state. apply Hm. Qed.

Create HintDb frame.

#[local] Hint Resolve frame_ret frame_raise frame_lift frame_get frame_assert
  frame_deref frame_deref_all : frame.

(** One step through the structure of a method. *)
Ltac frame_step :=
  match goal with
  | |- frame _ (bind _ _) => apply frame_bind; [| |intros ?]
  | |- frame _ (try_except _ _) => apply frame_try_except
  | |- frame _ (coroutine _) => apply frame_coroutine
  | |- frame _ (if ?b then _ else _) => destruct b
  | |- frame _ (match ?x with _ => _ end) => destruct x
  | |- Transitive _ => typeclasses eauto
  | |- Reflexive _ => typeclasses eauto
  | |- _ => solve [auto with frame typeclass_instances]
  end.

(** ** Computations that keep the ledger *)

Lemma heap_extends_refl h : heap_extends h h.
Proof. intros a o H. eauto. Qed.

Lemma heap_extends_trans h1 h2 h3 :
  heap_extends h1 h2 -> heap_extends h2 h3 -> heap_extends h1 h3.
Proof.
  intros H12 H23 a o H.
  destruct (H12 a o H) as (o2 & H2 & Hp2 & Hs2).
  destruct (H23 a o2 H2) as (o3 & H3 & Hp3 & Hs3).
  exists o3. repeat split; congruence.
Qed.

Lemma heap_extends_insert h a o f :
  h !! a = Some o -> keeps_key f -> heap_extends h (<[a := f o]> h).
Proof.
  intros Ha Hf b ob Hb. destruct (decide (a = b)) as [->|Hne].
  - exists (f o). rewrite list_lookup_insert_eq by (eapply lookup_lt_Some; eauto).
    assert (ob = o) by congruence. subst. destruct (Hf o). auto.
  - exists ob. rewrite list_lookup_insert_ne by exact Hne. auto.
Qed.

Lemma heap_extends_app h o : heap_extends h (h ++ [o]).
Proof.
  intros a oa Ha. exists oa.
  rewrite lookup_app_l by (eapply lookup_lt_Some; eauto). auto.
Qed.

#[local] Instance ledger_kept_refl : Reflexive ledger_kept.
Proof. intros w. split; [apply heap_extends_refl | reflexivity]. Qed.

#[local] Instance ledger_kept_trans : Transitive ledger_kept.
Proof.
  intros w1 w2 w3 [H1 H2] [H3 H4].
  split; [eapply heap_extends_trans; eassumption | congruence].
Qed.

Lemma keeps_key_set_status st : keeps_key (Order.set_status st).
Proof. intros o. auto. Qed.

Lemma keeps_key_set_id i : keeps_key (Order.set_id i).
Proof. intros o. auto. Qed.

Lemma ledger_kept_logging name level message :
  frame ledger_kept (logging name level message).
Proof. intros w. split; [apply heap_extends_refl | reflexivity]. Qed.

Lemma ledger_kept_setattr a f : keeps_key f -> frame ledger_kept (setattr a f).
Proof.
  intros Hf w. unfold setattr, bind, deref, modify.
  destruct (heap w !! a) as [o|] eqn:E; simpl.
  - split; [now apply heap_extends_insert | reflexivity].
  - split; [apply heap_extends_refl | reflexivity].
Qed.

#[local] Hint Resolve ledger_kept_logging ledger_kept_setattr
  keeps_key_set_status keeps_key_set_id : frame.

Lemma ledger_kept_find_px_qty side px qty :
  frame ledger_kept (_find_order_by_side_px_qty side px qty).
Proof. unfold _find_order_by_side_px_qty. repeat frame_step. Qed.

Lemma ledger_kept_find_id side order_id :
  frame ledger_kept (_find_order_by_id side order_id).
Proof. unfold _find_order_by_id. repeat frame_step. Qed.

#[local] Hint Resolve ledger_kept_find_px_qty ledger_kept_find_id : frame.

Lemma ledger_kept_process_pending_cancel request :
  frame ledger_kept (process_pending_cancel request).
Proof. unfold process_pending_cancel. repeat frame_step. Qed.

Lemma ledger_kept_process_post_order_response response :
  frame ledger_kept (process_post_order_response response).
Proof. unfold process_post_order_response. repeat frame_step. Qed.

Lemma ledger_kept_process_cancel_order_response request response :
  frame ledger_kept (process_cancel_order_response request response).
Proof. unfold process_cancel_order_response. repeat frame_step. Qed.

Lemma ledger_kept_process_get_order logger response :
  frame ledger_kept (process_get_order logger response).
Proof. unfold process_get_order. repeat frame_step. Qed.

(** ** The invariants under the ledger operations *)

Lemma sort_key_ext (o o' : Order.t) :
  Order.px o' = Order.px o -> Order.side o' = Order.side o ->
  sort_key o' = sort_key o.
Proof. unfold sort_key. now intros -> ->. Qed.

Lemma objects_extends h h' (l : list addr) :
  heap_extends h h' ->
  Forall (fun a => is_Some (h !! a)) l ->
  Forall2 (fun p q => sort_key (snd p) = sort_key (snd q))
          (objects h l) (objects h' l).
Proof.
  intros He. induction 1 as [|a l [o Ho] _ IH]; [constructor|].
  destruct (He a o Ho) as (o' & Ho' & Hp & Hs).
  rewrite !objects_cons, Ho, Ho'. constructor; [|exact IH].
  simpl. symmetry. now apply sort_key_ext.
Qed.

Lemma allocated_extends h h' (a : addr) :
  heap_extends h h' -> is_Some (h !! a) -> is_Some (h' !! a).
Proof. intros He [o Ho]. destruct (He a o Ho) as (o' & Ho' & _). eauto. Qed.

Lemma ledger_inv_extends (w w' : World) :
  heap_extends (heap w) (heap w') -> orders w' = orders w ->
  ledger_inv w -> ledger_inv w'.
Proof.
  intros He Ho [Hwf Hs]. split.
  - intros s. unfold by_side. rewrite Ho.
    eapply Forall_impl; [apply (Hwf s)|].
    intros a. apply allocated_extends, He.
  - intros s. unfold side_sorted, by_side. rewrite Ho.
    eapply StronglySorted_same_keys; [|apply (Hs s)].
    apply objects_extends; [exact He | apply (Hwf s)].
Qed.

Lemma ledger_kept_inv {A} (m : M A) (w : World) :
  frame ledger_kept m -> ledger_inv w -> ledger_inv (fst (m w)).
Proof.
  intros Hk Hi. destruct (Hk w) as [He Ho].
  eapply ledger_inv_extends; eassumption.
Qed.

Lemma by_side_set_same s l os : Orders.by_side (Orders.set_by_side s l os) s = l.
Proof. now destruct s. Qed.

Lemma by_side_set_other s s' l os :
  s <> s' -> Orders.by_side (Orders.set_by_side s l os) s' = Orders.by_side os s'.
Proof. now destruct s, s'. Qed.

Lemma set_by_side_twice s l l' os :
  Orders.set_by_side s l (Orders.set_by_side s l' os) = Orders.set_by_side s l os.
Proof. now destruct s. Qed.

Lemma objects_app_heap h o (l : list addr) :
  Forall (fun a => is_Some (h !! a)) l -> objects (h ++ [o]) l = objects h l.
Proof.
  induction 1 as [|a l [oa Ha] _ IH]; [reflexivity|].
  rewrite !objects_cons, IH.
  now rewrite lookup_app_l by (eapply lookup_lt_Some; eauto).
Qed.

Lemma objects_fresh h o : objects (h ++ [o]) [length h] = [(length h, o)].
Proof. rewrite objects_cons. now rewrite list_lookup_middle. Qed.

Lemma create_pending_order_run (request : NewOrder.t) (w : World) :
  heap_wf w ->
  create_pending_order request w =
  (with_pending request w,
   Ok (Some {| OrderEvent.event_type := OrderEventType.PENDING;
               OrderEvent.order := length (heap w) |})).
Proof.
  intros Hwf. set (side := NewOrder.side request).
  unfold create_pending_order, bind, new_Order, _insert_order, bind.
  fold (pending_order_of request).
  erewrite deref_Some by (simpl; apply list_lookup_middle; reflexivity).
  unfold modify, get. cbn [fst snd]. fold side.
  match goal with |- context [deref_all ?l ?w1] =>
    assert (Hl : l = by_side w side ++ [length (heap w)]);
    [| assert (Ha : Forall (allocated w1) l)] end.
  { unfold by_side at 1, orders. cbn. now rewrite by_side_set_same. }
  { rewrite Hl. apply Forall_app; split.
    - eapply Forall_impl; [apply (Hwf side)|]. intros a Ha. unfold allocated. cbn.
      eapply allocated_extends; [apply heap_extends_app | exact Ha].
    - constructor; [|constructor]. unfold allocated. cbn.
      rewrite list_lookup_middle by reflexivity. eauto. }
  rewrite deref_all_objects by exact Ha. rewrite Hl. cbn [heap set_orders set_om set_heap].
  rewrite objects_app, objects_app_heap by apply (Hwf side).
  rewrite objects_fresh. unfold with_pending. fold side.
  unfold set_orders, set_om, set_heap, orders. cbn.
  now rewrite set_by_side_twice.
Qed.
Lemma Forall_lookup_perm (h : list Order.t) (l1 l2 : list (addr * Order.t)) :
  l1 ≡ₚ l2 ->
  Forall (fun p => h !! fst p = Some (snd p)) l2 ->
  Forall (fun p => h !! fst p = Some (snd p)) l1.
Proof. intros Hp H. now rewrite Hp. Qed.

Lemma by_side_set_orders os w s : by_side (set_orders os w) s = Orders.by_side os s.
Proof. reflexivity. Qed.

Lemma by_side_set_heap h w s : by_side (set_heap h w) s = by_side w s.
Proof. reflexivity. Qed.

Lemma with_pending_side (request : NewOrder.t) (w : World) :
  by_side (with_pending request w) (NewOrder.side request) =
  (sort_reverse (objects (heap w) (by_side w (NewOrder.side request))
                 ++ [(length (heap w), pending_order_of request)])).*1.
Proof.
  unfold with_pending. cbn zeta. now rewrite by_side_set_orders, by_side_set_same.
Qed.

Lemma with_pending_side_objects (request : NewOrder.t) (w : World) :
  heap_wf w ->
  let w' := with_pending request w in
  objects (heap w') (by_side w' (NewOrder.side request)) =
  sort_reverse (objects (heap w) (by_side w (NewOrder.side request))
                ++ [(length (heap w), pending_order_of request)]).
Proof.
  intros Hwf w'. unfold w'. rewrite with_pending_side.
  unfold with_pending. cbn. apply objects_of_fst.
  eapply Forall_lookup_perm; [apply sort_reverse_perm|].
  apply Forall_app; split.
  - eapply Forall_impl; [apply objects_lookup|].
    intros p Hp. cbn in *. rewrite lookup_app_l; [exact Hp|].
    eapply lookup_lt_Some; eauto.
  - constructor; [|constructor]. cbn. now apply list_lookup_middle.
Qed.

Lemma with_pending_other_side (request : NewOrder.t) (w : World) (s : Side.t) :
  s <> NewOrder.side request ->
  by_side (with_pending request w) s = by_side w s.
Proof.
  intros Hs. unfold with_pending. cbn zeta.
  rewrite by_side_set_orders, by_side_set_other by congruence. reflexivity.
Qed.

Lemma with_pending_inv (request : NewOrder.t) (w : World) :
  ledger_inv w -> ledger_inv (with_pending request w).
Proof.
  intros [Hwf Hs].
  assert (Hwf' : heap_wf (with_pending request w)).
  { intros s. destruct (decide (s = NewOrder.side request)) as [->|Hne].
    - pose proof (with_pending_side_objects request w Hwf) as Ho. cbn zeta in Ho.
      rewrite with_pending_side. unfold with_pending, allocated. cbn.
      apply Forall_fmap.
      eapply Forall_impl; [eapply Forall_lookup_perm; [apply sort_reverse_perm|]|].
      2: { intros p Hp. cbn. rewrite Hp. eauto. }
      apply Forall_app; split.
      + eapply Forall_impl; [apply objects_lookup|].
        intros p Hp. cbn in *. rewrite lookup_app_l; [exact Hp|].
        eapply lookup_lt_Some; eauto.
      + constructor; [|constructor]. cbn. now apply list_lookup_middle.
    - rewrite with_pending_other_side by exact Hne.
      eapply Forall_impl; [apply (Hwf s)|]. intros a Ha.
      unfold allocated, with_pending. cbn.
      eapply allocated_extends; [apply heap_extends_app | exact Ha]. }
  split; [exact Hwf'|].
  intros s. unfold side_sorted.
  destruct (decide (s = NewOrder.side request)) as [->|Hne].
  - rewrite with_pending_side_objects by exact Hwf. apply sort_reverse_sorted.
  - rewrite with_pending_other_side by exact Hne.
    unfold with_pending. cbn.
    rewrite objects_app_heap by apply (Hwf s). apply (Hs s).
Qed.

Lemma purged_side_objects (w : World) (s : Side.t) :
  objects (heap (purged w)) (by_side (purged w) s) =
  active_objects (heap w) (by_side w s).
Proof.
  destruct s; unfold purged, by_side, orders; cbn;
    apply objects_of_fst, active_objects_lookup.
Qed.

Lemma purged_inv (w : World) : ledger_inv w -> ledger_inv (purged w).
Proof.
  intros [Hwf Hs]. split; [apply purged_wf|].
  intros s. unfold side_sorted. rewrite purged_side_objects.
  unfold active_objects. apply StronglySorted_filter, (Hs s).
Qed.

Lemma clear_inactive_orders_inv (w : World) :
  ledger_inv w -> ledger_inv (fst (clear_inactive_orders w)).
Proof.
  intros Hi. rewrite clear_inactive_orders_run by apply Hi.
  now apply purged_inv.
Qed.

Lemma run_ledger_op_inv (op : LedgerOp) (w : World) :
  ledger_inv w -> ledger_inv (fst (run_ledger_op op w)).
Proof.
  intros Hi. destruct op; simpl.
  - rewrite create_pending_order_run by apply Hi. now apply with_pending_inv.
  - apply ledger_kept_inv; [apply ledger_kept_process_pending_cancel | exact Hi].
  - apply ledger_kept_inv; [apply ledger_kept_process_post_order_response | exact Hi].
  - apply ledger_kept_inv; [apply ledger_kept_process_cancel_order_response | exact Hi].
  - apply ledger_kept_inv; [apply ledger_kept_process_get_order | exact Hi].
  - unfold bind. rewrite clear_inactive_orders_run by apply Hi.
    now apply purged_inv.
Qed.
(** ** C7: purging twice *)

(** C7 -- For every ledger state, applying [purge_terminal]
    ([clear_inactive_orders]) twice in a row yields the same active-order
    set, and the same per-side order sequences, as applying it once: the
    first purge returns, and the second one returns the state it was given. *)
Theorem purge_terminal_idempotent (w : World) :
  heap_wf w ->
  exists w1 : World,
    clear_inactive_orders w = (w1, Ok tt)
    /\ clear_inactive_orders w1 = (w1, Ok tt)
    /\ forall s : Side.t,
         by_side w1 s = (active_objects (heap w) (by_side w s)).*1.
Proof.
  intros Hwf. exists (purged w). split; [|split].
  - now apply clear_inactive_orders_run.
  - rewrite clear_inactive_orders_run by apply purged_wf.
    now rewrite purged_idem.
  - now intros [].
Qed.

Lemma ex_world_ledger_wf : heap_wf ex_world_ledger.
Proof. intros []; repeat constructor; eexists; reflexivity. Qed.

Lemma purge_terminal_idempotent_witness :
  heap_wf ex_world_ledger
  /\ exists w1 : World,
       clear_inactive_orders ex_world_ledger = (w1, Ok tt)
       /\ clear_inactive_orders w1 = (w1, Ok tt)
       /\ forall s : Side.t,
            by_side w1 s
            = (active_objects (heap ex_world_ledger)
                              (by_side ex_world_ledger s)).*1.
Proof.
  split.
  - exact ex_world_ledger_wf.
  - exact (purge_terminal_idempotent ex_world_ledger ex_world_ledger_wf).
Defined.

Example purge_example :
  by_side (fst (clear_inactive_orders ex_world_ledger)) Side.BUY = [0%nat; 1%nat]
  /\ by_side (fst (clear_inactive_orders ex_world_ledger)) Side.SELL = [].
Proof. split; reflexivity. Qed.

(** ** Sorted ledgers, concretely *)

(** Sortedness of a concrete list: the comparisons of keys are evaluated. *)
Ltac sorted_by_computation :=
  repeat match goal with
         | |- StronglySorted _ [] => apply SSorted_nil
         | |- StronglySorted _ (_ :: _) => apply SSorted_cons
         | |- Forall _ _ => constructor
         | |- key_ge _ _ => unfold key_ge; vm_compute; discriminate
         end.

Lemma ex_world_ledger_sorted : ledger_sorted ex_world_ledger.
Proof.
  intros []; unfold side_sorted; cbn; sorted_by_computation.
Qed.

Example create_pending_example :
  by_side (fst (create_pending_order ex_new_order ex_world_ledger)) Side.BUY
  = [3%nat; 0%nat; 1%nat].
Proof. vm_compute. reflexivity. Qed.
(** ** Computations that keep the position *)

#[local] Instance position_kept_refl : Reflexive position_kept.
Proof. intros w. reflexivity. Qed.

#[local] Instance position_kept_trans : Transitive position_kept.
Proof. intros w1 w2 w3 H1 H2. unfold position_kept in *. congruence. Qed.

Lemma position_kept_logging name level message :
  frame position_kept (logging name level message).
Proof. intros w. reflexivity. Qed.

Lemma position_kept_setattr a f : frame position_kept (setattr a f).
Proof.
  intros w. unfold setattr, bind, deref, modify.
  now destruct (heap w !! a).
Qed.

Lemma position_kept_new_Order o : frame position_kept (new_Order o).
Proof. intros w. reflexivity. Qed.

#[local] Hint Resolve position_kept_logging position_kept_setattr
  position_kept_new_Order : frame.

(** A step for [modify] with one of the setters that leave the position. *)
Ltac position_step :=
  match goal with
  | |- frame position_kept (modify _) =>
      apply frame_modify; intros ?; reflexivity
  | |- _ => frame_step
  end.

Ltac position_frame := repeat position_step.

Lemma position_kept_get_all_orders : frame position_kept get_all_orders.
Proof. unfold get_all_orders. position_frame. Qed.

Lemma position_kept_is_any_pending : frame position_kept is_any_pending.
Proof.
  pose proof position_kept_get_all_orders.
  unfold is_any_pending. position_frame.
Qed.

Lemma position_kept_clear_inactive_orders :
  frame position_kept clear_inactive_orders.
Proof.
  unfold clear_inactive_orders, clear_inactive_orders_side. position_frame.
Qed.

Lemma position_kept_insert_order a : frame position_kept (_insert_order a).
Proof. unfold _insert_order. position_frame. Qed.

Lemma position_kept_find_px_qty side px qty :
  frame position_kept (_find_order_by_side_px_qty side px qty).
Proof. unfold _find_order_by_side_px_qty. position_frame. Qed.

Lemma position_kept_find_id side order_id :
  frame position_kept (_find_order_by_id side order_id).
Proof. unfold _find_order_by_id. position_frame. Qed.

#[local] Hint Resolve position_kept_get_all_orders position_kept_is_any_pending
  position_kept_clear_inactive_orders position_kept_insert_order
  position_kept_find_px_qty position_kept_find_id : frame.

Lemma position_kept_create_pending_order request :
  frame position_kept (create_pending_order request).
Proof. unfold create_pending_order. position_frame. Qed.

Lemma position_kept_process_pending_cancel request :
  frame position_kept (process_pending_cancel request).
Proof. unfold process_pending_cancel. position_frame. Qed.

Lemma position_kept_process_post_order_response response :
  frame position_kept (process_post_order_response response).
Proof. unfold process_post_order_response. position_frame. Qed.

Lemma position_kept_process_cancel_order_response request response :
  frame position_kept (process_cancel_order_response request response).
Proof. unfold process_cancel_order_response. position_frame. Qed.

Lemma position_kept_process_get_order logger response :
  frame position_kept (process_get_order logger response).
Proof. unfold process_get_order. position_frame. Qed.

Lemma position_kept_post_order order : frame position_kept (post_order order).
Proof. unfold post_order. position_frame. Qed.

Lemma position_kept_cancel_order order : frame position_kept (cancel_order order).
Proof. unfold cancel_order. position_frame. Qed.

Lemma position_kept_best_px side : frame position_kept (best_px side).
Proof. unfold best_px. position_frame. Qed.

#[local] Hint Resolve position_kept_create_pending_order
  position_kept_process_pending_cancel
  position_kept_process_post_order_response
  position_kept_process_cancel_order_response
  position_kept_process_get_order position_kept_post_order
  position_kept_cancel_order position_kept_best_px : frame.

Lemma position_kept_buy_or_sell_action : frame position_kept buy_or_sell_action.
Proof. unfold buy_or_sell_action. position_frame. Qed.

Lemma position_kept_possible_cancel_action :
  frame position_kept possible_cancel_action.
Proof. unfold possible_cancel_action. position_frame. Qed.

#[local] Hint Resolve position_kept_buy_or_sell_action
  position_kept_possible_cancel_action : frame.

Lemma position_kept_on_orderbook_update : frame position_kept on_orderbook_update.
Proof. unfold on_orderbook_update. position_frame. Qed.

Lemma position_kept_on_order_event order_event :
  frame position_kept (on_order_event order_event).
Proof. unfold on_order_event. position_frame. Qed.

Lemma position_kept_MarketManager_subscribe orderbook_depth :
  frame position_kept (MarketManager_subscribe orderbook_depth).
Proof. unfold MarketManager_subscribe. position_frame. Qed.

#[local] Hint Resolve position_kept_on_orderbook_update
  position_kept_on_order_event position_kept_MarketManager_subscribe : frame.

Lemma position_kept_Strategy__init__ min_price_increment :
  frame position_kept (Strategy__init__ min_price_increment).
Proof. unfold Strategy__init__. position_frame. Qed.

Lemma position_kept_run_loop_orderbook raw_orderbook :
  frame position_kept (run_loop_orderbook raw_orderbook).
Proof. unfold run_loop_orderbook. position_frame. Qed.

Lemma position_kept_order_consumer_get : frame position_kept _order_consumer_get.
Proof. unfold _order_consumer_get. position_frame. Qed.

Lemma position_kept_monitor_orders_query order :
  frame position_kept (_monitor_orders_query order).
Proof. unfold _monitor_orders_query. position_frame. Qed.

Lemma position_kept_forget {A} (m : M A) :
  frame position_kept m -> frame position_kept (forget m).
Proof. intros H. unfold forget. position_frame. Qed.

Lemma position_kept_run_ledger_op op : frame position_kept (run_ledger_op op).
Proof. destruct op; simpl; position_frame. Qed.
(** ** C6: the writers of the position *)

Lemma position_bind_r {A B} (m : M A) (k : A -> M B) (w : World) :
  (forall a, frame position_kept (k a)) ->
  position (fst (bind m k w)) = position (fst (m w)).
Proof.
  intros Hk. unfold bind. destruct (m w) as [w1 [a|e]]; [|reflexivity].
  apply Hk.
Qed.

Lemma position_bind_l {A B} (m : M A) (k : A -> M B) (w : World) :
  frame position_kept m ->
  position (fst (bind m k w))
  = match m w with
    | (w1, Ok a) => position (fst (k a w1))
    | (_, Raise _) => position w
    end.
Proof.
  intros Hm. unfold bind. specialize (Hm w).
  destruct (m w) as [w1 [a|e]]; [reflexivity | exact Hm].
Qed.

Lemma update_by_filled_order_position (order : addr) (w : World) :
  Position.qty (position (fst (update_by_filled_order order w)))
  = Position.qty (position w)
    + match heap w !! order with
      | Some o => Order.qty o * Side.value (Order.side o)
      | None => 0
      end.
Proof.
  unfold update_by_filled_order, bind, deref, modify.
  destruct (heap w !! order) as [o|]; simpl; [reflexivity | lia].
Qed.

Lemma update_by_filled_order_heap (order : addr) (w : World) :
  heap (fst (update_by_filled_order order w)) = heap w.
Proof.
  unfold update_by_filled_order, bind, deref, modify.
  now destruct (heap w !! order).
Qed.

Lemma notify_strategy_position (order_event : option OrderEvent.t) (w : World) :
  Position.qty (position (fst (_notify_strategy order_event w)))
  = Position.qty (position w) + fill_delta w order_event.
Proof.
  destruct order_event as [e|]; simpl; [|lia].
  rewrite position_bind_r by (intros; position_frame).
  destruct (bool_decide (OrderEvent.event_type e = OrderEventType.FILLED)).
  - apply update_by_filled_order_position.
  - simpl. lia.
Qed.

Lemma bind_notify_position (m : M (option OrderEvent.t)) (w : World) :
  frame position_kept m ->
  Position.qty (position (fst (bind m _notify_strategy w)))
  = Position.qty (position w) + reconciliation_delta m w.
Proof.
  intros Hm. rewrite position_bind_l by exact Hm.
  unfold reconciliation_delta. specialize (Hm w).
  destruct (m w) as [w1 [ev|e]]; simpl in *.
  - rewrite notify_strategy_position. unfold position_kept in Hm. now rewrite Hm.
  - lia.
Qed.

(** The kind of event a reconciliation can produce. *)
Lemma create_pending_order_event request w w1 ev :
  create_pending_order request w = (w1, Ok ev) ->
  fill_delta w1 ev = 0.
Proof.
  unfold create_pending_order, bind.
  destruct (new_Order _ w) as [w2 [a|e]]; [|discriminate].
  destruct (_insert_order a w2) as [w3 [[]|e]]; [|discriminate].
  unfold ret. intros [= <- <-]. reflexivity.
Qed.

Lemma process_pending_cancel_event request w w1 ev :
  process_pending_cancel request w = (w1, Ok ev) ->
  fill_delta w1 ev = 0.
Proof.
  unfold process_pending_cancel, bind.
  destruct (setattr _ _ w) as [w2 [[]|e]]; [|discriminate].
  unfold ret. intros [= <- <-]. reflexivity.
Qed.

Lemma process_cancel_order_response_event request response w w1 ev :
  process_cancel_order_response request response w = (w1, Ok ev) ->
  fill_delta w1 ev = 0.
Proof.
  unfold process_cancel_order_response, bind.
  destruct (setattr _ _ w) as [w2 [[]|e]]; [|discriminate].
  unfold ret. intros [= <- <-]. reflexivity.
Qed.

Lemma reconciliation_delta_0 (m : M (option OrderEvent.t)) (w : World) :
  (forall w1 ev, m w = (w1, Ok ev) -> fill_delta w1 ev = 0) ->
  reconciliation_delta m w = 0.
Proof.
  intros H. unfold reconciliation_delta.
  destruct (m w) as [w1 [ev|e]]; [now apply H | reflexivity].
Qed.

Lemma bind_assoc {A B C} (m : M A) (k : A -> M B) (k' : B -> M C) (w : World) :
  bind (bind m k) k' w = bind m (fun a => bind (k a) k') w.
Proof.
  unfold bind. destruct (m w) as [w1 [a|e]]; reflexivity.
Qed.

Lemma segment_position {B} (m : M (option OrderEvent.t)) (k : unit -> M B)
    (w : World) :
  frame position_kept m -> (forall a, frame position_kept (k a)) ->
  Position.qty (position (fst (bind m (fun ev => bind (_notify_strategy ev) k) w)))
  = Position.qty (position w) + reconciliation_delta m w.
Proof.
  intros Hm Hk. rewrite <- bind_assoc, position_bind_r by exact Hk.
  now apply bind_notify_position.
Qed.

Lemma post_order_consumer_send_position request w :
  Position.qty (position (fst (_post_order_consumer_send request w)))
  = Position.qty (position w).
Proof.
  unfold _post_order_consumer_send.
  rewrite position_bind_l by position_frame. unfold logging at 1, modify.
  rewrite segment_position by (intros; position_frame).
  rewrite reconciliation_delta_0
    by (intros; eapply create_pending_order_event; eassumption).
  unfold position. simpl. lia.
Qed.

Lemma cancel_order_consumer_send_position request w :
  Position.qty (position (fst (_cancel_order_consumer_send request w)))
  = Position.qty (position w).
Proof.
  unfold _cancel_order_consumer_send.
  rewrite position_bind_l by position_frame. unfold logging at 1, modify.
  rewrite segment_position by (intros; position_frame).
  rewrite reconciliation_delta_0
    by (intros; eapply process_pending_cancel_event; eassumption).
  unfold position. simpl. lia.
Qed.

Lemma cancel_order_consumer_receive_position request response w :
  Position.qty
    (position (fst (_cancel_order_consumer_receive request response w)))
  = Position.qty (position w).
Proof.
  unfold _cancel_order_consumer_receive.
  rewrite bind_notify_position by position_frame.
  rewrite reconciliation_delta_0
    by (intros; eapply process_cancel_order_response_event; eassumption).
  lia.
Qed.

Lemma monitor_orders_receive_position order order_state w :
  Position.qty (position (fst (_monitor_orders_receive order order_state w)))
  = Position.qty (position w)
    + position_delta (op_monitor_orders_receive order order_state) w.
Proof.
  unfold _monitor_orders_receive, position_delta.
  unfold bind at 1, deref. destruct (heap w !! order) as [o|]; [|simpl; lia].
  rewrite position_bind_l by position_frame. unfold logging at 1, modify.
  fold (monitor_logged o order_state w).
  now rewrite bind_notify_position by position_frame.
Qed.

Lemma frame_position_qty {A} (m : M A) (w : World) :
  frame position_kept m ->
  Position.qty (position (fst (m w))) = Position.qty (position w) + 0.
Proof. intros H. rewrite (H w). lia. Qed.

(** C6 -- The position quantity is mutated only when a FILLED order event is
    produced, and then exactly by [quantity += order.quantity * side_sign]
    (+1 for BUY, -1 for SELL): [update_by_filled_order] adds just that,
    [_notify_strategy] calls it for a FILLED event and for no other, so do the
    two segments of the execution engine whose reconciliation can produce a
    FILLED event, and every other operation of the ledger, of the execution
    engine and of the strategy adds nothing. *)
Theorem position_written_only_on_fill (op : Operation) (w : World) :
  Position.qty (position (fst (run_operation op w)))
  = Position.qty (position w) + position_delta op w.
Proof.
  destruct op; simpl run_operation; simpl position_delta.
  - apply frame_position_qty, position_kept_forget, position_kept_run_ledger_op.
  - apply update_by_filled_order_position.
  - apply frame_position_qty. position_frame.
  - apply frame_position_qty. position_frame.
  - apply notify_strategy_position.
  - apply frame_position_qty, position_kept_forget, position_kept_order_consumer_get.
  - unfold forget. rewrite position_bind_r by (intros; position_frame).
    rewrite post_order_consumer_send_position. lia.
  - unfold _post_order_consumer_receive. rewrite coroutine_state.
    apply bind_notify_position. position_frame.
  - unfold forget. rewrite position_bind_r by (intros; position_frame).
    rewrite cancel_order_consumer_send_position. lia.
  - rewrite cancel_order_consumer_receive_position. lia.
  - apply frame_position_qty, position_kept_forget, position_kept_monitor_orders_query.
  - apply monitor_orders_receive_position.
  - apply frame_position_qty. position_frame.
  - apply frame_position_qty, position_kept_run_loop_orderbook.
  - apply frame_position_qty, position_kept_Strategy__init__.
  - apply frame_position_qty. position_frame.
  - apply frame_position_qty. position_frame.
  - apply frame_position_qty. position_frame.
  - apply frame_position_qty. position_frame.
Qed.

(** The only non-zero additions are the signed quantities of FILLED orders. *)
Lemma fill_delta_nonzero (w : World) (order_event : option OrderEvent.t) :
  fill_delta w order_event <> 0 ->
  exists e o,
    order_event = Some e
    /\ OrderEvent.event_type e = OrderEventType.FILLED
    /\ heap w !! OrderEvent.order e = Some o
    /\ fill_delta w order_event = Order.qty o * Side.value (Order.side o).
Proof.
  destruct order_event as [e|]; simpl; [|congruence].
  case_bool_decide as Hf; [|congruence].
  destruct (heap w !! OrderEvent.order e) as [o|] eqn:Ho; [|congruence].
  intros _. exists e, o. repeat split; assumption.
Qed.

(** A post response that no order of the ledger matches: the StopIteration
    of the lookup leaves the coroutine as a RuntimeError, in the state the
    lookup left. *)
Lemma post_order_consumer_receive_not_found
    (response : PostOrderResponse.t) (w w' : World) :
  process_post_order_response response w = (w', Raise StopIteration) ->
  _post_order_consumer_receive response w = (w', Raise RuntimeError).
Proof.
  intros H. unfold _post_order_consumer_receive, coroutine, bind.
  now rewrite H.
Qed.

Example post_order_consumer_receive_no_match :
  _post_order_consumer_receive (ex_post_response 1 "b") ex_world_start
  = (ex_world_start, Raise RuntimeError).
Proof. vm_compute. reflexivity. Qed.

Example position_after_fill :
  Position.qty
    (position
       (fst (_post_order_consumer_receive
               {| PostOrderResponse.direction := OrderDirection.ORDER_DIRECTION_BUY;
                  PostOrderResponse.initial_security_price :=
                    {| Quotation.units := 100; Quotation.nano := 0 |};
                  PostOrderResponse.lots_requested := 1;
                  PostOrderResponse.lots_executed := 1;
                  PostOrderResponse.order_id := "b" |}
               ex_world_ledger)))
  = 1.
Proof. vm_compute. reflexivity. Qed.
(** ** C9: configuration errors *)

Lemma quotation_to_decimal_Ok (quotation : Quotation.t) :
  quotation_to_decimal quotation
  = Ok (Decimal.add (Decimal.of_int (Quotation.units quotation))
          (Decimal.ctx (Decimal.of_int (Quotation.nano quotation)
                        / Decimal.of_int int_1e9)%Q)).
Proof. reflexivity. Qed.

Lemma MarketManager_subscribe_10 (w : World) :
  MarketManager_subscribe 10 w = (set_depth (Some 10) w, Ok tt).
Proof. reflexivity. Qed.

Lemma Strategy__init___run (min_price_increment : Quotation.t) (w : World) :
  Strategy__init__ min_price_increment w
  = let px_step :=
      Decimal.add (Decimal.of_int (Quotation.units min_price_increment))
        (Decimal.ctx (Decimal.of_int (Quotation.nano min_price_increment)
                      / Decimal.of_int int_1e9)%Q) in
    let w1 := set_px_step px_step (set_depth (Some 10) w) in
    if bool_decide (Position.qty (position w) ∈ [0; 1])
    then (set_action (if Position.qty (position w) =? 0
                      then Action.BUY else Action.SELL) w1, Ok tt)
    else (w1, Raise AssertionError).
Proof.
  unfold Strategy__init__, bind. rewrite MarketManager_subscribe_10.
  rewrite quotation_to_decimal_Ok. unfold lift, modify, get. cbn [fst snd].
  change (position (set_px_step _ (set_depth (Some 10) w))) with (position w).
  now destruct (bool_decide (Position.qty (position w) ∈ [0; 1])).
Qed.

(** C9 -- Configuration errors are asserted at startup: subscribing with an
    order-book depth outside {1, 10, 20, 30, 40, 50} fails an assertion, and
    constructing the Strategy with a starting position quantity outside
    {0, 1} fails an assertion; when the position precondition holds, the
    Strategy's initial state is BUY if the position quantity is 0 and SELL if
    it is 1. *)
Theorem configuration_errors_asserted :
  (forall (orderbook_depth : Z) (w : World),
     orderbook_depth ∉ [1; 10; 20; 30; 40; 50] ->
     MarketManager_subscribe orderbook_depth w = (w, Raise AssertionError))
  /\ (forall (min_price_increment : Quotation.t) (w : World),
        Position.qty (position w) ∉ [0; 1] ->
        snd (Strategy__init__ min_price_increment w) = Raise AssertionError)
  /\ (forall (min_price_increment : Quotation.t) (w : World),
        Position.qty (position w) = 0 ->
        snd (Strategy__init__ min_price_increment w) = Ok tt
        /\ action (fst (Strategy__init__ min_price_increment w)) = Action.BUY)
  /\ (forall (min_price_increment : Quotation.t) (w : World),
        Position.qty (position w) = 1 ->
        snd (Strategy__init__ min_price_increment w) = Ok tt
        /\ action (fst (Strategy__init__ min_price_increment w)) = Action.SELL).
Proof.
  repeat split.
  - intros orderbook_depth w H. unfold MarketManager_subscribe, bind, assert.
    now rewrite bool_decide_eq_false_2 by exact H.
  - intros mpi w H. rewrite Strategy__init___run. cbn zeta.
    now rewrite bool_decide_eq_false_2 by exact H.
  - rewrite Strategy__init___run. cbn zeta. now rewrite H.
  - rewrite Strategy__init___run. cbn zeta. now rewrite H.
  - rewrite Strategy__init___run. cbn zeta. now rewrite H.
  - rewrite Strategy__init___run. cbn zeta. now rewrite H.
Qed.

Lemma configuration_errors_asserted_witness :
  MarketManager_subscribe 5 ex_world_start = (ex_world_start, Raise AssertionError)
  /\ snd (Strategy__init__ {| Quotation.units := 0; Quotation.nano := 10000000 |}
            (set_position {| Position.qty := 2 |} ex_world_start))
     = Raise AssertionError
  /\ action (fst (Strategy__init__
                    {| Quotation.units := 0; Quotation.nano := 10000000 |}
                    ex_world_start)) = Action.BUY
  /\ action (fst (Strategy__init__
                    {| Quotation.units := 0; Quotation.nano := 10000000 |}
                    (set_position {| Position.qty := 1 |} ex_world_start)))
     = Action.SELL.
Proof.
  destruct configuration_errors_asserted as (Hd & Hp & H0 & H1).
  split; [|split; [|split]].
  - apply Hd. vm_compute. intros H. repeat (inversion H as [|? ? ? H']; subst; clear H; rename H' into H).
  - apply Hp. vm_compute. intros H. repeat (inversion H as [|? ? ? H']; subst; clear H; rename H' into H).
  - apply H0. reflexivity.
  - apply H1. reflexivity.
Defined.
(** ** The lookups of the reconciliations *)

Lemma setattr_run (a : addr) (f : Order.t -> Order.t) (o : Order.t) (w : World) :
  heap w !! a = Some o ->
  setattr a f w = (set_heap (<[a := f o]> (heap w)) w, Ok tt).
Proof. intros H. unfold setattr, bind. now rewrite (deref_Some a o w H). Qed.

Lemma find_objects_none (P : Order.t -> bool) (h : list Order.t) (l : list addr) :
  (forall b ob, b ∈ l -> h !! b = Some ob -> P ob = false) ->
  find (fun p => P (snd p)) (objects h l) = None.
Proof.
  induction l as [|b l IH]; intros H; [reflexivity|].
  rewrite objects_cons. destruct (h !! b) as [ob|] eqn:E.
  - simpl. rewrite (H b ob) by (constructor || exact E).
    apply IH. intros b' ob' Hb'. apply H. now constructor.
  - apply IH. intros b' ob' Hb'. apply H. now constructor.
Qed.

Lemma find_objects_first (P : Order.t -> bool) (h : list Order.t)
    (l1 l2 : list addr) (a : addr) (o : Order.t) :
  h !! a = Some o -> P o = true ->
  (forall b ob, b ∈ l1 -> h !! b = Some ob -> P ob = true -> b = a) ->
  find (fun p => P (snd p)) (objects h (l1 ++ a :: l2)) = Some (a, o).
Proof.
  intros Ha Hp. induction l1 as [|b l1 IH]; intros H.
  - rewrite app_nil_l, objects_cons, Ha. simpl. now rewrite Hp.
  - rewrite <- app_comm_cons, objects_cons. destruct (h !! b) as [ob|] eqn:E.
    + simpl. destruct (P ob) eqn:Eb.
      * assert (b = a) as -> by (eapply H; [constructor | exact E | exact Eb]).
        congruence.
      * apply IH. intros b' ob' Hb'. apply H. now constructor.
    + apply IH. intros b' ob' Hb'. apply H. now constructor.
Qed.

Lemma find_order_by_side_px_qty_run (side : Side.t) (px : Decimal.t) (qty : Z)
    (w : World) :
  heap_wf w ->
  _find_order_by_side_px_qty side px qty w
  = (w, match find (fun p => matches_px_qty px qty (snd p))
                   (objects (heap w) (by_side w side)) with
        | Some p => Ok (fst p)
        | None => Raise StopIteration
        end).
Proof.
  intros Hwf. unfold _find_order_by_side_px_qty, bind, get.
  rewrite deref_all_objects by apply Hwf.
  unfold matches_px_qty. now destruct (find _ _).
Qed.

Lemma find_order_by_id_run (side : Side.t) (order_id : string) (w : World) :
  heap_wf w ->
  _find_order_by_id side order_id w
  = (w, match find (fun p => has_id order_id (snd p))
                   (objects (heap w) (by_side w side)) with
        | Some p => Ok (fst p)
        | None => Raise StopIteration
        end).
Proof.
  intros Hwf. unfold _find_order_by_id, bind, get.
  rewrite deref_all_objects by apply Hwf.
  unfold has_id. now destruct (find _ _).
Qed.

Lemma process_post_order_response_found (response : PostOrderResponse.t)
    (side : Side.t) (px : Decimal.t) (a : addr) (o : Order.t) (w : World) :
  heap_wf w ->
  Side.from_direction (PostOrderResponse.direction response) = Ok side ->
  quotation_to_decimal (PostOrderResponse.initial_security_price response) = Ok px ->
  find (fun p => matches_px_qty px (PostOrderResponse.lots_requested response) (snd p))
       (objects (heap w) (by_side w side)) = Some (a, o) ->
  process_post_order_response response w
  = (set_heap (<[a := reconciled response o]> (heap w)) w,
     Ok (Some (reconciled_event response a o))).
Proof.
  intros Hwf Hs Hpx Hf.
  assert (Ha : heap w !! a = Some o).
  { apply find_some in Hf as [Hin _].
    pose proof (objects_lookup (heap w) (by_side w side)) as Hl.
    rewrite Forall_forall in Hl. apply (Hl (a, o)). now apply list_elem_of_In. }
  assert (Hlt : (a < length (heap w))%nat) by (eapply lookup_lt_Some; eauto).
  unfold process_post_order_response. rewrite Hs, Hpx.
  unfold bind at 1, lift. unfold bind at 1.
  unfold bind at 1. rewrite find_order_by_side_px_qty_run by exact Hwf.
  rewrite Hf. cbn [fst snd].
  unfold bind at 1. rewrite (setattr_run a _ o w Ha).
  set (w1 := set_heap _ w).
  assert (H1 : heap w1 !! a = Some (Order.set_id (Some (PostOrderResponse.order_id response)) o)).
  { unfold w1. cbn. now apply list_lookup_insert_eq. }
  unfold bind at 1. rewrite (deref_Some a _ w1 H1).
  change (Order.qty (Order.set_id _ o)) with (Order.qty o).
  unfold reconciled, reconciled_event.
  destruct (Order.qty o =? PostOrderResponse.lots_executed response).
  - unfold bind at 1. rewrite (setattr_run a _ _ w1 H1).
    unfold bind, deref, ret. cbn [heap set_heap w1].
    rewrite list_insert_insert_eq.
    rewrite list_lookup_insert_eq by exact Hlt. reflexivity.
  - unfold bind at 1. rewrite (setattr_run a _ _ w1 H1).
    unfold bind, deref, ret. cbn [heap set_heap w1].
    rewrite list_insert_insert_eq.
    rewrite list_lookup_insert_eq by exact Hlt. reflexivity.
Qed.

Lemma process_post_order_response_not_found (response : PostOrderResponse.t)
    (side : Side.t) (px : Decimal.t) (w : World) :
  heap_wf w ->
  Side.from_direction (PostOrderResponse.direction response) = Ok side ->
  quotation_to_decimal (PostOrderResponse.initial_security_price response) = Ok px ->
  find (fun p => matches_px_qty px (PostOrderResponse.lots_requested response) (snd p))
       (objects (heap w) (by_side w side)) = None ->
  process_post_order_response response w = (w, Raise StopIteration).
Proof.
  intros Hwf Hs Hpx Hf.
  unfold process_post_order_response. rewrite Hs, Hpx.
  unfold bind at 1, lift. unfold bind at 1.
  unfold bind at 1. rewrite find_order_by_side_px_qty_run by exact Hwf.
  now rewrite Hf.
Qed.
(** ** C1 and C10: the reconciliation of a post response *)

Lemma reconciled_outcome (response : PostOrderResponse.t) (a : addr)
    (o : Order.t) (w : World) :
  heap w !! a = Some o ->
  Order.qty o = PostOrderResponse.lots_requested response ->
  post_response_outcome response a o
    (set_heap (<[a := reconciled response o]> (heap w)) w)
    (Ok (Some (reconciled_event response a o))).
Proof.
  intros Ha Hq. unfold post_response_outcome, reconciled, reconciled_event.
  rewrite Hq, (Z.eqb_sym (PostOrderResponse.lots_requested response)).
  split; [reflexivity|].
  cbn [heap set_heap]. rewrite list_lookup_insert_eq by (eapply lookup_lt_Some; eauto).
  now rewrite <- Hq.
Qed.

Lemma matches_px_qty_qty (px : Decimal.t) (qty : Z) (o : Order.t) :
  matches_px_qty px qty o = true -> Order.qty o = qty.
Proof.
  unfold matches_px_qty. intros H. apply andb_true_iff in H as [_ H].
  now apply Z.eqb_eq.
Qed.

Lemma ex_world_one_buy_eq :
  heap ex_world_one_buy = [ex_order_pending]
  /\ by_side ex_world_one_buy Side.BUY = [0%nat]
  /\ by_side ex_world_one_buy Side.SELL = [].
Proof. repeat split. Qed.

Lemma ex_world_two_buys_eq :
  heap ex_world_two_buys = [ex_order_open; ex_order_pending]
  /\ by_side ex_world_two_buys Side.BUY = [0%nat; 1%nat]
  /\ by_side ex_world_two_buys Side.SELL = [].
Proof. repeat split. Qed.

(** The two example ledgers are reached through the operations of the
    ledger. *)
Example ex_world_one_buy_reached :
  create_pending_order ex_buy_100 ex_world_start
  = (ex_world_one_buy,
     Ok (Some {| OrderEvent.event_type := OrderEventType.PENDING;
                 OrderEvent.order := 0%nat |})).
Proof. vm_compute. reflexivity. Qed.

Example ex_world_two_buys_reached :
  fst (create_pending_order ex_buy_100
         (fst (process_post_order_response (ex_post_response 0 "a")
                 ex_world_one_buy)))
  = ex_world_two_buys.
Proof. vm_compute. reflexivity. Qed.

Lemma ex_world_one_buy_wf : heap_wf ex_world_one_buy.
Proof.
  destruct ex_world_one_buy_eq as (Hh & Hb & Hs).
  intros []; [rewrite Hb | rewrite Hs]; repeat constructor.
  unfold allocated. rewrite Hh. eexists. reflexivity.
Qed.

Lemma ex_world_two_buys_wf : heap_wf ex_world_two_buys.
Proof.
  destruct ex_world_two_buys_eq as (Hh & Hb & Hs).
  intros []; [rewrite Hb | rewrite Hs]; repeat constructor;
    unfold allocated; rewrite Hh; eexists; reflexivity.
Qed.

Lemma ex_post_response_px (lots_executed : Z) (order_id : string) :
  exists px : Decimal.t,
    quotation_to_decimal
      (PostOrderResponse.initial_security_price
         (ex_post_response lots_executed order_id)) = Ok px
    /\ matches_px_qty px 1 ex_order_pending = true
    /\ matches_px_qty px 1 ex_order_open = true.
Proof. eexists. split; [reflexivity|]. split; vm_compute; reflexivity. Qed.

(** In the ledger of [ex_world_two_buys] the order at address 1 is the one
    PENDING order with the side, price and quantity of the response, but the
    response is matched with the OPEN order at address 0, which stands before
    it: that one gets the broker id, and the event carries it. *)
Lemma post_response_claim_counterexample :
  ~ post_response_claim ex_world_two_buys (ex_post_response 0 "b").
Proof.
  intros H.
  destruct (ex_post_response_px 0 "b") as (px & Hpx & Hm & _).
  destruct ex_world_two_buys_eq as (Hh & Hb & _).
  specialize (H Side.BUY px 1%nat ex_order_pending eq_refl Hpx).
  assert (Hu : unique_pending_match ex_world_two_buys Side.BUY px
                 (PostOrderResponse.lots_requested (ex_post_response 0 "b"))
                 1%nat ex_order_pending).
  { unfold unique_pending_match. rewrite Hb, Hh.
    split; [repeat constructor|]. split; [reflexivity|].
    split; [reflexivity|]. split; [exact Hm|].
    intros b ob Hin Hob Hst _.
    destruct b as [|[|b]]; [|reflexivity|].
    - injection Hob as <-. discriminate Hst.
    - exfalso. apply list_elem_of_In in Hin. simpl in Hin.
      destruct Hin as [|[|[]]]; discriminate. }
  destruct (H Hu) as [Hr _].
  vm_compute in Hr. discriminate Hr.
Qed.

Example post_response_two_buys :
  snd (process_post_order_response (ex_post_response 0 "b") ex_world_two_buys)
  = Ok (Some {| OrderEvent.event_type := OrderEventType.OPEN;
                OrderEvent.order := 0%nat |})
  /\ heap (fst (process_post_order_response (ex_post_response 0 "b")
                  ex_world_two_buys))
     = [Order.set_id (Some "b"%string) ex_order_open; ex_order_pending].
Proof. vm_compute. auto. Qed.

(** C1, amended -- For every ledger containing exactly one PENDING order
    matching the response's side, price and requested quantity, and in which
    no order of another status with that price and quantity stands before it
    on that side, [process_post_order_response] assigns the broker id to that
    order, sets its status to FILLED if the executed quantity equals the full
    requested quantity and to OPEN otherwise, and returns an OrderEvent of the
    corresponding kind carrying that order; nothing else changes. *)
Theorem post_response_reconciles_pending_order
    (w : World) (response : PostOrderResponse.t) (side : Side.t)
    (px : Decimal.t) (l1 l2 : list addr) (a : addr) (o : Order.t) :
  heap_wf w ->
  Side.from_direction (PostOrderResponse.direction response) = Ok side ->
  quotation_to_decimal (PostOrderResponse.initial_security_price response)
  = Ok px ->
  unique_pending_match w side px (PostOrderResponse.lots_requested response) a o ->
  by_side w side = l1 ++ a :: l2 ->
  (forall (b : addr) (ob : Order.t),
     b ∈ l1 -> heap w !! b = Some ob ->
     Order.status ob <> OrderStatus.PENDING ->
     matches_px_qty px (PostOrderResponse.lots_requested response) ob = false) ->
  let w' := fst (process_post_order_response response w) in
  post_response_outcome response a o w'
    (snd (process_post_order_response response w))
  /\ w' = set_heap (<[a := reconciled response o]> (heap w)) w.
Proof.
  intros Hwf Hs Hpx (Hin & Ha & Hst & Hm & Hu) Hl Hbefore w'.
  assert (Hf : find (fun p => matches_px_qty px
                                (PostOrderResponse.lots_requested response) (snd p))
                    (objects (heap w) (by_side w side)) = Some (a, o)).
  { rewrite Hl. apply find_objects_first; [exact Ha | exact Hm |].
    intros b ob Hb Hob Hmb.
    destruct (decide (Order.status ob = OrderStatus.PENDING)) as [Hp|Hp].
    - apply (Hu b ob); [|exact Hob | exact Hp | exact Hmb].
      rewrite Hl. apply elem_of_app. now left.
    - rewrite (Hbefore b ob Hb Hob Hp) in Hmb. discriminate. }
  unfold w'.
  rewrite (process_post_order_response_found response side px a o w Hwf Hs Hpx Hf).
  split; [|reflexivity].
  apply reconciled_outcome; [exact Ha|].
  eapply matches_px_qty_qty, Hm.
Qed.

Lemma post_response_reconciles_pending_order_witness :
  post_response_outcome (ex_post_response 1 "b") 0%nat ex_order_pending
    (fst (process_post_order_response (ex_post_response 1 "b") ex_world_one_buy))
    (snd (process_post_order_response (ex_post_response 1 "b") ex_world_one_buy))
  /\ fst (process_post_order_response (ex_post_response 1 "b") ex_world_one_buy)
     = set_heap (<[0%nat := reconciled (ex_post_response 1 "b") ex_order_pending]>
                   (heap ex_world_one_buy)) ex_world_one_buy.
Proof.
  destruct (ex_post_response_px 1 "b") as (px & Hpx & Hm & _).
  destruct ex_world_one_buy_eq as (Hh & Hb & _).
  apply (post_response_reconciles_pending_order
           ex_world_one_buy (ex_post_response 1 "b") Side.BUY px [] [] 0%nat
           ex_order_pending ex_world_one_buy_wf eq_refl Hpx).
  - unfold unique_pending_match. rewrite Hb, Hh.
    split; [repeat constructor|]. split; [reflexivity|].
    split; [reflexivity|]. split; [exact Hm|].
    intros b ob Hin _ _ _. apply list_elem_of_In in Hin. simpl in Hin.
    destruct Hin as [<-|[]]. reflexivity.
  - exact Hb.
  - intros b ob Hin. apply list_elem_of_In in Hin. destruct Hin.
Defined.
(** C10 -- The post-response reconciliation's order lookup matches only on
    side, price and requested quantity, without requiring the candidate's
    status to be PENDING: the first order on the side with that price and
    quantity is taken whatever its status, so for some ledger containing a
    non-PENDING order with the same side, price and quantity, that order is
    selected and mutated; and when no order on the side matches the price and
    quantity, [process_post_order_response] raises an exception that
    propagates to the caller, nothing being logged or changed, rather than
    being logged and treated as no event. *)
Theorem post_response_lookup_ignores_status :
  (forall (w : World) (response : PostOrderResponse.t) (side : Side.t)
          (px : Decimal.t) (l1 l2 : list addr) (a : addr) (o : Order.t),
     heap_wf w ->
     Side.from_direction (PostOrderResponse.direction response) = Ok side ->
     quotation_to_decimal (PostOrderResponse.initial_security_price response)
     = Ok px ->
     by_side w side = l1 ++ a :: l2 ->
     heap w !! a = Some o ->
     matches_px_qty px (PostOrderResponse.lots_requested response) o = true ->
     (forall (b : addr) (ob : Order.t),
        b ∈ l1 -> heap w !! b = Some ob ->
        matches_px_qty px (PostOrderResponse.lots_requested response) ob = false) ->
     process_post_order_response response w
     = (set_heap (<[a := reconciled response o]> (heap w)) w,
        Ok (Some (reconciled_event response a o))))
  /\ (exists (w : World) (response : PostOrderResponse.t) (a : addr) (o : Order.t),
        heap w !! a = Some o
        /\ Order.status o <> OrderStatus.PENDING
        /\ snd (process_post_order_response response w)
           = Ok (Some (reconciled_event response a o))
        /\ heap (fst (process_post_order_response response w)) !! a
           = Some (reconciled response o)
        /\ reconciled response o <> o)
  /\ (forall (w : World) (response : PostOrderResponse.t) (side : Side.t)
             (px : Decimal.t),
        heap_wf w ->
        Side.from_direction (PostOrderResponse.direction response) = Ok side ->
        quotation_to_decimal (PostOrderResponse.initial_security_price response)
        = Ok px ->
        (forall (a : addr) (o : Order.t),
           a ∈ by_side w side -> heap w !! a = Some o ->
           matches_px_qty px (PostOrderResponse.lots_requested response) o = false) ->
        process_post_order_response response w = (w, Raise StopIteration)).
Proof.
  split; [|split].
  - intros w response side px l1 l2 a o Hwf Hs Hpx Hl Ha Hm Hbefore.
    apply (process_post_order_response_found response side px a o w Hwf Hs Hpx).
    rewrite Hl. apply find_objects_first; [exact Ha | exact Hm |].
    intros b ob Hb Hob Hmb. rewrite (Hbefore b ob Hb Hob) in Hmb. discriminate.
  - exists ex_world_two_buys, (ex_post_response 0 "b"), 0%nat, ex_order_open.
    split; [vm_compute; reflexivity|]. split; [discriminate|].
    split; [vm_compute; reflexivity|]. split; [vm_compute; reflexivity|].
    discriminate.
  - intros w response side px Hwf Hs Hpx Hnone.
    apply (process_post_order_response_not_found response side px w Hwf Hs Hpx).
    now apply find_objects_none.
Qed.

Lemma post_response_lookup_ignores_status_witness :
  process_post_order_response
    {| PostOrderResponse.direction := OrderDirection.ORDER_DIRECTION_SELL;
       PostOrderResponse.initial_security_price :=
         {| Quotation.units := 100; Quotation.nano := 0 |};
       PostOrderResponse.lots_requested := 1;
       PostOrderResponse.lots_executed := 1;
       PostOrderResponse.order_id := "c" |}
    ex_world_two_buys
  = (ex_world_two_buys, Raise StopIteration).
Proof.
  destruct post_response_lookup_ignores_status as (_ & _ & H).
  destruct ex_world_two_buys_eq as (_ & _ & Hs).
  eapply (H ex_world_two_buys _ Side.SELL);
    [exact ex_world_two_buys_wf | reflexivity | reflexivity |].
  intros a o Hin. rewrite Hs in Hin. apply list_elem_of_In in Hin. destruct Hin.
Defined.
(** ** C3: the reconciliation of a status poll *)


Lemma process_get_order_found (logger : string) (response : OrderState.t)
    (side : Side.t) (a : addr) (o : Order.t) (w : World) :
  heap_wf w ->
  Side.from_direction (OrderState.direction response) = Ok side ->
  find (fun p => has_id (OrderState.order_id response) (snd p))
       (objects (heap w) (by_side w side)) = Some (a, o) ->
  process_get_order logger response w
  = if Order.qty o =? OrderState.lots_executed response
    then (set_heap (<[a := Order.set_status OrderStatus.FILLED o]> (heap w)) w,
          Ok (Some {| OrderEvent.event_type := OrderEventType.FILLED;
                      OrderEvent.order := a |}))
    else (w, Ok None).
Proof.
  intros Hwf Hs Hf.
  assert (Ha : heap w !! a = Some o).
  { apply find_some in Hf as [Hin _].
    pose proof (objects_lookup (heap w) (by_side w side)) as Hl.
    rewrite Forall_forall in Hl. apply (Hl (a, o)). now apply list_elem_of_In. }
  unfold process_get_order. rewrite Hs.
  unfold bind at 1, lift. unfold bind at 1, try_except, bind at 1.
  rewrite find_order_by_id_run by exact Hwf. rewrite Hf. cbn [fst snd ret].
  unfold bind at 1. rewrite (deref_Some a o w Ha).
  destruct (Order.qty o =? OrderState.lots_executed response); [|reflexivity].
  unfold bind. now rewrite (setattr_run a _ o w Ha).
Qed.


(** ** C2: the strategy on an order event *)

Lemma best_px_run (side : Side.t) (px : Decimal.t) (w : World) :
  best_quote w side = Some px -> best_px side w = (w, Ok px).
Proof.
  unfold best_quote, best_px, bind, get. cbn [fst snd].
  destruct (ob w) as [book|]; [|discriminate].
  destruct (if bool_decide (side = Side.BUY) then _ else _) as [|q l];
    [discriminate|].
  now intros [= <-].
Qed.

Lemma best_px_raises (side : Side.t) (w : World) :
  best_quote w side = None ->
  exists e, best_px side w = (w, Raise e).
Proof.
  unfold best_quote, best_px, bind, get. cbn [fst snd].
  destruct (ob w) as [book|]; [|eexists; reflexivity].
  destruct (if bool_decide (side = Side.BUY) then _ else _) as [|q l];
    [|discriminate].
  intros _. eexists. reflexivity.
Qed.

Lemma get_side_state_from_position (w : World) :
  Action.get_side (state_from_position w) = Ok (side_from_position w).
Proof.
  unfold state_from_position, side_from_position.
  now destruct (Position.qty (position w) =? 0).
Qed.

Lemma best_quote_set_action (x : Action.t) (w : World) (side : Side.t) :
  best_quote (set_action x w) side = best_quote w side.
Proof. reflexivity. Qed.

Lemma buy_or_sell_action_run (px : Decimal.t) (w : World) :
  best_quote w (side_from_position w) = Some px ->
  buy_or_sell_action w
  = (after_submission (single_lot (side_from_position w) px) w, Ok tt).
Proof.
  intros Hq. unfold buy_or_sell_action.
  unfold bind at 1, get. cbn [fst snd].
  unfold bind at 1, modify. fold (state_from_position w).
  unfold bind at 1. cbn [fst snd].
  change (action (set_action (state_from_position w) w))
    with (state_from_position w).
  rewrite get_side_state_from_position.
  unfold bind at 1, lift. unfold bind at 1.
  rewrite (best_px_run (side_from_position w) px) by exact Hq.
  reflexivity.
Qed.

Lemma buy_or_sell_action_raises (w : World) :
  best_quote w (side_from_position w) = None ->
  exists e,
    buy_or_sell_action w = (set_action (state_from_position w) w, Raise e).
Proof.
  intros Hq. unfold buy_or_sell_action.
  unfold bind at 1, get. cbn [fst snd].
  unfold bind at 1, modify. fold (state_from_position w).
  unfold bind at 1. cbn [fst snd].
  change (action (set_action (state_from_position w) w))
    with (state_from_position w).
  rewrite get_side_state_from_position.
  unfold bind at 1, lift. unfold bind at 1.
  destruct (best_px_raises (side_from_position w)
              (set_action (state_from_position w) w) Hq) as [e He].
  rewrite He. eauto.
Qed.

Lemma on_order_event_run (order_event : OrderEvent.t) (w : World) :
  on_order_event order_event w
  = if bool_decide (OrderEvent.event_type order_event
                    ∈ [OrderEventType.FILLED; OrderEventType.CANCELLED])
    then buy_or_sell_action (event_logged order_event w)
    else (event_logged order_event w, Ok tt).
Proof.
  unfold on_order_event, bind, get, logging, modify. cbn [fst snd].
  fold (logged "Strategy" INFO
          (Log_order_event order_event (position w) (orders w)) w).
  fold (event_logged order_event w).
  now destruct (bool_decide _).
Qed.

(** With the bid side of the book empty and a flat position, a FILLED event
    makes the strategy raise IndexError: no order is submitted and the state
    it ends in is BUY. *)
Lemma order_event_claim_counterexample :
  ~ order_event_claim ex_world_no_bids ex_filled_event.
Proof.
  intros [H _].
  destruct H as (px & _ & _ & Hact).
  - repeat constructor.
  - vm_compute in Hact. discriminate Hact.
Qed.

Example on_order_event_no_bids :
  snd (on_order_event ex_filled_event ex_world_no_bids) = Raise IndexError
  /\ action (fst (on_order_event ex_filled_event ex_world_no_bids)) = Action.BUY
  /\ order_queue (fst (on_order_event ex_filled_event ex_world_no_bids)) = [].
Proof. vm_compute. auto. Qed.

(** C2, amended -- For every order event delivered to the Strategy: if the
    event kind is FILLED or CANCELLED and the book has a quote on the side
    the position calls for (a best bid for BUY when the position quantity is
    0, a best ask for SELL otherwise), the Strategy recomputes its state from
    the current position, submits exactly one new single-lot limit order
    priced at that best bid or best ask, and ends in state WAIT; if the event
    kind is PENDING or OPEN, the Strategy's state is unchanged and no order is
    submitted. *)
Theorem on_order_event_resubmits (w : World) (order_event : OrderEvent.t) :
  (OrderEvent.event_type order_event
   ∈ [OrderEventType.FILLED; OrderEventType.CANCELLED] ->
   forall px : Decimal.t,
     best_quote w (side_from_position w) = Some px ->
     let new_order := single_lot (side_from_position w) px in
     on_order_event order_event w
     = (after_submission new_order (event_logged order_event w), Ok tt)
     /\ order_queue (fst (on_order_event order_event w))
        = order_queue w ++ [Request_NewOrder new_order]
     /\ action (fst (on_order_event order_event w)) = Action.WAIT)
  /\ (OrderEvent.event_type order_event
      ∈ [OrderEventType.PENDING; OrderEventType.OPEN] ->
      on_order_event order_event w = (event_logged order_event w, Ok tt)
      /\ action (fst (on_order_event order_event w)) = action w
      /\ order_queue (fst (on_order_event order_event w)) = order_queue w).
Proof.
  split.
  - intros Hk px Hq new_order. rewrite on_order_event_run.
    rewrite bool_decide_eq_true_2 by exact Hk.
    rewrite (buy_or_sell_action_run px) by exact Hq.
    repeat split.
  - intros Hk. rewrite on_order_event_run.
    rewrite bool_decide_eq_false_2; [repeat split|].
    intros Hin. destruct (OrderEvent.event_type order_event);
      apply list_elem_of_In in Hk, Hin; simpl in Hk, Hin;
      intuition discriminate.
Qed.

Lemma on_order_event_resubmits_witness :
  on_order_event ex_filled_event ex_world_start
  = (after_submission (single_lot Side.BUY 100%Q)
       (event_logged ex_filled_event ex_world_start), Ok tt)
  /\ order_queue (fst (on_order_event ex_filled_event ex_world_start))
     = [Request_NewOrder (single_lot Side.BUY 100%Q)]
  /\ action (fst (on_order_event ex_filled_event ex_world_start)) = Action.WAIT.
Proof.
  apply (proj1 (on_order_event_resubmits ex_world_start ex_filled_event)).
  - repeat constructor.
  - reflexivity.
Defined.
(** ** C5: the strategy on an order-book update *)

Lemma bind_Ok {A B} (m : M A) (k : A -> M B) (w w1 : World) (a : A) :
  m w = (w1, Ok a) -> bind m k w = k a w1.
Proof. intros H. unfold bind. now rewrite H. Qed.

Lemma bind_Raise {A B} (m : M A) (k : A -> M B) (w w1 : World) (e : exn) :
  m w = (w1, Raise e) -> bind m k w = (w1, Raise e).
Proof. intros H. unfold bind. now rewrite H. Qed.

Lemma is_any_pending_run (w : World) :
  heap_wf w -> is_any_pending w = (w, Ok (any_pending w)).
Proof.
  intros Hwf. unfold is_any_pending, get_all_orders, bind, get. cbn [fst snd ret].
  rewrite deref_all_objects; [reflexivity|].
  apply Forall_app; split; apply Hwf.
Qed.

Lemma heap_wf_logged name level message (w : World) :
  heap_wf w -> heap_wf (logged name level message w).
Proof. intros H. exact H. Qed.


Lemma on_orderbook_update_run (w : World) :
  heap_wf w ->
  on_orderbook_update w
  = if any_pending w then (update_logged w, Ok tt)
    else if bool_decide (action w = Action.WAIT)
         then possible_cancel_action (update_logged w)
         else buy_or_sell_action (update_logged w).
Proof.
  intros Hwf. unfold on_orderbook_update.
  unfold bind at 1, logging, modify. cbn [fst snd].
  fold (logged "Strategy" DEBUG Log_orderbook_update w).
  fold (update_logged w).
  unfold bind at 1. rewrite is_any_pending_run by exact Hwf.
  change (any_pending (update_logged w)) with (any_pending w).
  destruct (any_pending w); [reflexivity|].
  unfold bind, get. cbn [fst snd].
  change (action (update_logged w)) with (action w).
  now destruct (bool_decide (action w = Action.WAIT)).
Qed.

Lemma ex_world_above_best_wf : heap_wf ex_world_above_best.
Proof. intros []; repeat constructor. eexists. reflexivity. Qed.

Lemma ex_world_below_best_wf : heap_wf ex_world_below_best.
Proof. intros []; repeat constructor. eexists. reflexivity. Qed.


Example on_orderbook_update_above_best :
  on_orderbook_update ex_world_above_best
  = (update_logged ex_world_above_best, Ok tt).
Proof. vm_compute. reflexivity. Qed.



(** * The price codec *)

Section Codec.

Local Open Scope Q_scope.

(** ** Rounding to significant digits *)


Lemma pow_pos (b t : Z) : (1 < b)%Z -> 0 < Rounding.pow b t.
Proof.
  intros Hb. apply Qpower_0_lt. unfold Qlt. simpl. lia.
Qed.

Lemma pow_le (b s t : Z) :
  (1 < b)%Z -> (s <= t)%Z -> Rounding.pow b s <= Rounding.pow b t.
Proof.
  intros Hb Hst. apply Qpower_le_compat_l; [exact Hst|].
  unfold Qle. simpl. lia.
Qed.

Lemma pow_lt_inv (b s t : Z) :
  (1 < b)%Z -> Rounding.pow b s < Rounding.pow b t -> (s < t)%Z.
Proof.
  intros Hb H. eapply Qpower_lt_compat_l_inv; [exact H|].
  unfold Qlt. simpl. lia.
Qed.

Lemma pow_add (b s t : Z) :
  (1 < b)%Z -> Rounding.pow b (s + t) == Rounding.pow b s * Rounding.pow b t.
Proof.
  intros Hb. apply Qpower_plus. unfold Qeq. simpl. lia.
Qed.

Lemma pow_nonneg (b t : Z) :
  (0 <= t)%Z -> Rounding.pow b t == inject_Z (b ^ t).
Proof. intros Ht. symmetry. now apply Zpower_Qpower. Qed.

Lemma pow_0 (b : Z) : Rounding.pow b 0 == 1.
Proof. reflexivity. Qed.

Lemma pow_cancel (b t : Z) :
  (1 < b)%Z -> Rounding.pow b (- t) * Rounding.pow b t == 1.
Proof.
  intros Hb. rewrite <- pow_add by exact Hb.
  replace (- t + t)%Z with 0%Z by lia. apply pow_0.
Qed.

Lemma ilog_search_lower (b : Z) (q : Q) (fuel : nat) (t : Z) :
  Rounding.pow b (t - Z.of_nat fuel) <= q ->
  Rounding.pow b (Rounding.ilog_search b q fuel t) <= q.
Proof.
  revert t. induction fuel as [|fuel IH]; intros t H; simpl.
  - now replace (t - Z.of_nat 0)%Z with t in H by lia.
  - destruct (Qle_bool (Rounding.pow b t) q) eqn:E.
    + now apply Qle_bool_iff.
    + apply IH. now replace (t - 1 - Z.of_nat fuel)%Z
                    with (t - Z.of_nat (S fuel))%Z by lia.
Qed.

Lemma pow_below (b : Z) (q : Q) :
  (1 < b)%Z -> 0 < q ->
  Rounding.pow b (- (Z.log2 (Zpos (Qden q)) + 1)) <= q.
Proof.
  intros Hb Hq. set (L := (Z.log2 (Zpos (Qden q)) + 1)%Z).
  assert (HL : (0 <= L)%Z) by (pose proof (Z.log2_nonneg (Zpos (Qden q))); lia).
  assert (H1 : 1 <= q * Rounding.pow b L).
  { rewrite pow_nonneg by exact HL.
    assert (Hd : (Zpos (Qden q) < b ^ L)%Z).
    { apply Z.lt_le_trans with (2 ^ L)%Z.
      - unfold L. apply Z.log2_spec. lia.
      - apply Z.pow_le_mono_l. lia. }
    destruct q as [n d]. unfold Qlt in Hq. simpl in *.
    unfold Qle. simpl. nia. }
  apply Qle_trans with (Rounding.pow b (- L) * (q * Rounding.pow b L)).
  - rewrite <- (Qmult_1_r (Rounding.pow b (- L))) at 1.
    apply Qmult_le_l; [now apply pow_pos | exact H1].
  - rewrite (Qmult_comm q), Qmult_assoc, pow_cancel by exact Hb.
    rewrite Qmult_1_l. apply Qle_refl.
Qed.

Lemma ilog_lower (b : Z) (q : Q) :
  (1 < b)%Z -> 0 < q -> Rounding.pow b (Rounding.ilog b q) <= q.
Proof.
  intros Hb Hq. unfold Rounding.ilog. apply ilog_search_lower.
  pose proof (Z.log2_nonneg (Qnum q)). pose proof (Z.log2_nonneg (Zpos (Qden q))).
  rewrite Z2Nat.id by lia.
  replace (Z.log2 (Qnum q) + 1
           - (Z.log2 (Qnum q) + 1 - - (Z.log2 (Zpos (Qden q)) + 1)))%Z
    with (- (Z.log2 (Zpos (Qden q)) + 1))%Z by lia.
  now apply pow_below.
Qed.

Lemma ilog_le (b : Z) (q : Q) (E : Z) :
  (1 < b)%Z -> 0 < q -> q < Rounding.pow b (E + 1) ->
  (Rounding.ilog b q <= E)%Z.
Proof.
  intros Hb Hq Hlt.
  assert (Rounding.ilog b q < E + 1)%Z; [|lia].
  apply (pow_lt_inv b); [exact Hb|].
  eapply Qle_lt_trans; [now apply ilog_lower | exact Hlt].
Qed.

Lemma round_half_even_error (x : Q) :
  Qabs (inject_Z (Rounding.round_half_even x) - x) <= 1 # 2.
Proof.
  unfold Rounding.round_half_even.
  pose proof (Qfloor_le x) as Hlo. pose proof (Qlt_floor x) as Hhi.
  rewrite inject_Z_plus in Hhi. change (inject_Z 1) with 1 in Hhi.
  apply Qabs_Qle_condition.
  destruct (Qcompare_spec (x - inject_Z (Qfloor x)) (1 # 2)) as [He|Hl|Hg].
  - destruct (Z.even (Qfloor x)); [|rewrite inject_Z_plus;
                                     change (inject_Z 1) with 1]; lra.
  - lra.
  - rewrite inject_Z_plus. change (inject_Z 1) with 1. lra.
Qed.

Lemma round_half_even_Z (x : Q) (z : Z) :
  x == inject_Z z -> Rounding.round_half_even x = z.
Proof.
  intros Hx. unfold Rounding.round_half_even.
  assert (Hf : Qfloor x = z) by (rewrite Hx; apply Qfloor_Z).
  rewrite Hf.
  destruct (Qcompare_spec (x - inject_Z z) (1 # 2)) as [He|Hl|Hg];
    [exfalso; lra | reflexivity | exfalso; lra].
Qed.

(** Rounding at the digit of exponent [e]. *)
Lemma round_at_error (b e : Z) (q : Q) :
  (1 < b)%Z ->
  Qabs (inject_Z (Rounding.round_half_even (q / Rounding.pow b e))
        * Rounding.pow b e - q)
  <= (1 # 2) * Rounding.pow b e.
Proof.
  intros Hb. pose proof (pow_pos b e Hb) as Hp.
  set (x := q / Rounding.pow b e).
  assert (Hq : q == x * Rounding.pow b e).
  { unfold x. field. lra. }
  clearbody x. rewrite Hq.
  setoid_replace (inject_Z (Rounding.round_half_even x) * Rounding.pow b e
                  - x * Rounding.pow b e)
    with ((inject_Z (Rounding.round_half_even x) - x) * Rounding.pow b e)
    using relation Qeq by ring.
  rewrite Qabs_Qmult, (Qabs_pos (Rounding.pow b e)) by lra.
  apply Qmult_le_compat_r; [apply round_half_even_error | lra].
Qed.

Lemma round_at_exact (b e e' z : Z) (q : Q) :
  (1 < b)%Z -> (e <= e')%Z ->
  q == inject_Z z * Rounding.pow b e' ->
  inject_Z (Rounding.round_half_even (q / Rounding.pow b e)) * Rounding.pow b e
  == q.
Proof.
  intros Hb He Hq. pose proof (pow_pos b e Hb) as Hp.
  assert (Hx : q / Rounding.pow b e == inject_Z (z * b ^ (e' - e))).
  { rewrite inject_Z_mult, <- pow_nonneg by lia.
    rewrite Hq. replace e' with (e' - e + e)%Z at 1 by lia.
    rewrite pow_add by exact Hb. field. lra. }
  rewrite (round_half_even_Z _ _ Hx), <- Hx. field. lra.
Qed.

Lemma last_digit_exp_le (b p : Z) (emin : option Z) (q : Q) (E : Z) :
  (1 < b)%Z -> ~ q == 0 -> Qabs q < Rounding.pow b (E + 1) ->
  (forall m, emin = Some m -> (m <= E - (p - 1))%Z) ->
  (Rounding.last_digit_exp b p emin q <= E - (p - 1))%Z.
Proof.
  intros Hb Hq Hlt Hm. unfold Rounding.last_digit_exp.
  assert (Hpos : 0 < Qabs q).
  { pose proof (Qabs_nonneg q) as H0.
    destruct (Qlt_le_dec 0 (Qabs q)) as [H|H]; [exact H|].
    exfalso. apply Hq. apply Qabs_Qle_condition in H. lra. }
  pose proof (ilog_le b (Qabs q) E Hb Hpos Hlt) as Hi.
  destruct emin as [m|]; [specialize (Hm m eq_refl)|]; lia.
Qed.

Lemma round_sig_error (b p : Z) (emin : option Z) (q : Q) (E : Z) :
  (1 < b)%Z -> Qabs q < Rounding.pow b (E + 1) ->
  (forall m, emin = Some m -> (m <= E - (p - 1))%Z) ->
  Qabs (Rounding.round_sig b p emin q - q)
  <= (1 # 2) * Rounding.pow b (E - (p - 1)).
Proof.
  intros Hb Hlt Hm. unfold Rounding.round_sig.
  pose proof (pow_pos b (E - (p - 1)) Hb) as Hp.
  destruct (Qeq_bool q 0) eqn:E0.
  - apply Qeq_bool_eq in E0. rewrite E0. setoid_replace (0 - 0) with 0 using relation Qeq by ring.
    simpl. lra.
  - apply Qeq_bool_neq in E0. cbn zeta.
    eapply Qle_trans; [apply round_at_error; exact Hb|].
    apply Qmult_le_l; [reflexivity|].
    apply pow_le; [exact Hb|]. now apply last_digit_exp_le.
Qed.

Lemma round_sig_exact (b p : Z) (emin : option Z) (q : Q) (E e' z : Z) :
  (1 < b)%Z -> Qabs q < Rounding.pow b (E + 1) ->
  q == inject_Z z * Rounding.pow b e' ->
  (E - (p - 1) <= e')%Z ->
  (forall m, emin = Some m -> (m <= E - (p - 1))%Z) ->
  Rounding.round_sig b p emin q == q.
Proof.
  intros Hb Hlt Hq He Hm. unfold Rounding.round_sig.
  destruct (Qeq_bool q 0) eqn:E0.
  - apply Qeq_bool_eq in E0. now rewrite E0.
  - apply Qeq_bool_neq in E0. cbn zeta.
    apply (round_at_exact b _ e' z); [exact Hb| |exact Hq].
    pose proof (last_digit_exp_le b p emin q E Hb E0 Hlt Hm). lia.
Qed.

Lemma trunc_Qeq (a b : Q) : a == b -> Rounding.trunc a = Rounding.trunc b.
Proof.
  unfold Qeq, Rounding.trunc. destruct a as [na da], b as [nb db]. simpl.
  intros H.
  rewrite <- (Z.quot_mul_cancel_r na (Zpos da) (Zpos db)) by lia.
  rewrite <- (Z.quot_mul_cancel_r nb (Zpos db) (Zpos da)) by lia.
  f_equal; lia.
Qed.

Lemma trunc_Z (z : Z) : Rounding.trunc (inject_Z z) = z.
Proof. unfold Rounding.trunc. simpl. apply Z.quot_1_r. Qed.

(** ** The default context of [Decimal] and binary64 *)

Lemma ctx_exact (q : Q) (z e' E : Z) :
  Qabs q < Rounding.pow 10 (E + 1) ->
  q == inject_Z z * Rounding.pow 10 e' ->
  (E - 27 <= e')%Z ->
  Decimal.ctx q == q.
Proof.
  intros Hlt Hq He. unfold Decimal.ctx, Decimal.prec.
  apply (round_sig_exact 10 28 None q E e' z); try assumption; try lia.
  intros m Hm. discriminate Hm.
Qed.

Lemma half_pow2 (E : Z) :
  (1 # 2) * Rounding.pow 2 (E - 52) == Rounding.pow 2 (E - 53).
Proof.
  replace (E - 53)%Z with (- 1 + (E - 52))%Z by lia.
  rewrite pow_add by lia. reflexivity.
Qed.

Lemma Qle_bool_false (x y : Q) : y < x -> Qle_bool x y = false.
Proof.
  intros H. destruct (Qle_bool x y) eqn:E; [|reflexivity].
  apply Qle_bool_iff in E. lra.
Qed.

Lemma float_no_overflow (r : Q) (E : Z) :
  Qabs r < Rounding.pow 2 E -> (E <= 1024)%Z ->
  Qle_bool Float.max_finite_bound (Qabs r) = false.
Proof.
  intros H HE. apply Qle_bool_false. unfold Float.max_finite_bound.
  eapply Qlt_le_trans; [exact H|]. apply pow_le; lia.
Qed.

Lemma float_round_error (q : Q) (E : Z) :
  Qabs q < Rounding.pow 2 (E + 1) -> (- 1022 <= E <= 1000)%Z ->
  exists r : Q,
    Float.round q = Float.Finite r /\ Qabs (r - q) <= Rounding.pow 2 (E - 53).
Proof.
  intros Hlt HE. exists (Rounding.round_sig 2 53 (Some (- 1074)%Z) q).
  assert (Herr : Qabs (Rounding.round_sig 2 53 (Some (- 1074)%Z) q - q)
                 <= Rounding.pow 2 (E - 53)).
  { rewrite <- half_pow2.
    apply (round_sig_error 2 53 (Some (- 1074)%Z) q E); [lia | exact Hlt |].
    intros m [= <-]. lia. }
  split; [|exact Herr].
  unfold Float.round.
  rewrite (float_no_overflow _ (E + 2)); [reflexivity | | lia].
  set (r := Rounding.round_sig 2 53 (Some (- 1074)%Z) q) in *.
  pose proof (pow_le 2 (E - 53) (E + 1) ltac:(lia) ltac:(lia)) as Hle.
  assert (H2 : Rounding.pow 2 (E + 2) == 2 * Rounding.pow 2 (E + 1)).
  { replace (E + 2)%Z with (1 + (E + 1))%Z by lia.
    rewrite pow_add by lia. reflexivity. }
  rewrite H2.
  apply Qabs_Qle_condition in Herr.
  apply Qabs_Qlt_condition in Hlt. apply Qabs_Qlt_condition.
  pose proof (pow_pos 2 (E + 1) ltac:(lia)).
  split; lra.
Qed.

Lemma Qabs_inject_Z_lt (q : Q) (z bound : Z) :
  q == inject_Z z -> (Z.abs z < bound)%Z -> Qabs q < inject_Z bound.
Proof.
  intros Hq Hz. rewrite Hq. apply Qabs_Qlt_condition.
  split; [rewrite <- inject_Z_opp|]; rewrite <- Zlt_Qlt; lia.
Qed.

Lemma float_round_exact (q : Q) (z : Z) :
  q == inject_Z z -> (Z.abs z < 2 ^ 53)%Z ->
  exists r : Q, Float.round q = Float.Finite r /\ r == q.
Proof.
  intros Hq Hz. exists (Rounding.round_sig 2 53 (Some (- 1074)%Z) q).
  assert (Hlt : Qabs q < Rounding.pow 2 (52 + 1)).
  { rewrite pow_nonneg by lia. now apply (Qabs_inject_Z_lt q z). }
  assert (Hex : Rounding.round_sig 2 53 (Some (- 1074)%Z) q == q).
  { apply (round_sig_exact 2 53 (Some (- 1074)%Z) q 52 0 z);
      [lia | exact Hlt | | lia |].
    - rewrite Hq, pow_0. ring.
    - intros m [= <-]. lia. }
  split; [|exact Hex].
  unfold Float.round.
  rewrite (float_no_overflow _ 53); [reflexivity | | lia].
  now rewrite Hex.
Qed.

(** ** C8: the price codec *)

Lemma pow10_m9 : Rounding.pow 10 (- 9) == 1 # 1000000000.
Proof. reflexivity. Qed.

(** The units and the nano of a decimal that is a whole number of
    billionths: quotient and remainder, toward zero. *)
Lemma decimal_parts (v : Decimal.t) (k : Z) :
  v == k # 1000000000 ->
  Decimal.to_int v = Z.quot k 1000000000
  /\ Decimal.to_int
       (Decimal.mul (Decimal.sub v (Decimal.of_int (Decimal.to_int v)))
                    (Decimal.of_int int_1e9))
     = Z.rem k 1000000000.
Proof.
  intros Hk. set (U := Z.quot k 1000000000). set (N := Z.rem k 1000000000).
  assert (HU : Decimal.to_int v = U).
  { unfold Decimal.to_int. rewrite (trunc_Qeq _ _ Hk). reflexivity. }
  split; [exact HU|]. rewrite HU.
  pose proof (Z.quot_rem' k 1000000000) as Hqr. fold U N in Hqr.
  assert (HN : (Z.abs N < 1000000000)%Z)
    by (unfold N; pose proof (Z.rem_bound_abs k 1000000000); lia).
  assert (Hfrac : v - inject_Z U == N # 1000000000).
  { rewrite Hk. unfold Qeq. simpl. lia. }
  assert (H1 : Decimal.sub v (Decimal.of_int U) == N # 1000000000).
  { unfold Decimal.sub, Decimal.of_int. rewrite <- Hfrac.
    apply (ctx_exact _ N (- 9) (- 1)); [| |lia].
    - rewrite Hfrac. change (Rounding.pow 10 (- 1 + 1)) with 1.
      apply Qabs_Qlt_condition. unfold Qlt. simpl. lia.
    - rewrite Hfrac, pow10_m9. unfold Qeq. simpl. lia. }
  assert (H2 : Decimal.mul (Decimal.sub v (Decimal.of_int U))
                           (Decimal.of_int int_1e9) == inject_Z N).
  { unfold Decimal.mul.
    assert (Hprod : Decimal.sub v (Decimal.of_int U) * Decimal.of_int int_1e9
                    == inject_Z N).
    { rewrite H1. unfold Decimal.of_int, int_1e9, Qeq. simpl. lia. }
    rewrite <- Hprod.
    apply (ctx_exact _ N 0 8); [| |lia].
    - rewrite Hprod, pow_nonneg by lia.
      now apply (Qabs_inject_Z_lt _ N).
    - rewrite Hprod, pow_0. ring. }
  unfold Decimal.to_int. rewrite (trunc_Qeq _ _ H2). apply trunc_Z.
Qed.

(** Back from units and nano: exact below 10^19. *)
Lemma quotation_to_decimal_parts (v : Decimal.t) (k : Z) :
  v == k # 1000000000 -> Qabs v < 10000000000000000000 ->
  exists d : Decimal.t,
    quotation_to_decimal {| Quotation.units := Z.quot k 1000000000;
                            Quotation.nano := Z.rem k 1000000000 |} = Ok d
    /\ d == v.
Proof.
  intros Hk Hv. rewrite quotation_to_decimal_Ok. eexists. split; [reflexivity|].
  cbn [Quotation.units Quotation.nano].
  set (U := Z.quot k 1000000000). set (N := Z.rem k 1000000000).
  pose proof (Z.quot_rem' k 1000000000) as Hqr. fold U N in Hqr.
  assert (HN : (Z.abs N < 1000000000)%Z)
    by (unfold N; pose proof (Z.rem_bound_abs k 1000000000); lia).
  assert (Hdiv : Decimal.of_int N / Decimal.of_int int_1e9 == N # 1000000000).
  { unfold Decimal.of_int, int_1e9, Qdiv, Qeq. simpl. lia. }
  assert (H1 : Decimal.ctx (Decimal.of_int N / Decimal.of_int int_1e9)
               == N # 1000000000).
  { rewrite <- Hdiv.
    apply (ctx_exact _ N (- 9) (- 1)); [| |lia].
    - rewrite Hdiv. change (Rounding.pow 10 (- 1 + 1)) with 1.
      apply Qabs_Qlt_condition. unfold Qlt. simpl. lia.
    - rewrite Hdiv, pow10_m9. unfold Qeq. simpl. lia. }
  assert (Hsum : Decimal.of_int U
                 + Decimal.ctx (Decimal.of_int N / Decimal.of_int int_1e9)
                 == v).
  { rewrite H1, Hk. unfold Decimal.of_int, Qeq. simpl. lia. }
  unfold Decimal.add. rewrite <- Hsum.
  apply (ctx_exact _ k (- 9) 18); [| |lia].
  - rewrite Hsum, pow_nonneg by lia. exact Hv.
  - rewrite Hsum, Hk, pow10_m9. unfold Qeq. simpl. lia.
Qed.

Lemma float_of_int_exact (z : Z) :
  (Z.abs z < 2 ^ 53)%Z ->
  exists r : Q, Float.of_int z = Ok (Float.Finite r) /\ r == inject_Z z.
Proof.
  intros Hz. destruct (float_round_exact (inject_Z z) z (Qeq_refl _) Hz)
    as (r & Hr & Hq).
  exists r. unfold Float.of_int. now rewrite Hr.
Qed.

(** The float the assertion of [decimal_to_quotation] compares with: within
    2^-34 + 2^-54 of the value, below 2^19. *)
Lemma quotation_to_float_close (v : Decimal.t) (k : Z) :
  v == k # 1000000000 -> Qabs v < 524288 ->
  exists rs : Q,
    quotation_to_float {| Quotation.units := Z.quot k 1000000000;
                          Quotation.nano := Z.rem k 1000000000 |}
    = Ok (Float.Finite rs)
    /\ Qabs (rs - v) <= Rounding.pow 2 (- 34) + Rounding.pow 2 (- 54).
Proof.
  intros Hk Hv.
  set (U := Z.quot k 1000000000). set (N := Z.rem k 1000000000).
  pose proof (Z.quot_rem' k 1000000000) as Hqr. fold U N in Hqr.
  assert (HN : (Z.abs N < 1000000000)%Z)
    by (unfold N; pose proof (Z.rem_bound_abs k 1000000000); lia).
  assert (Hkb : (Z.abs k < 524288 * 1000000000)%Z).
  { rewrite Hk in Hv. apply Qabs_Qlt_condition in Hv.
    unfold Qlt in Hv. simpl in Hv. lia. }
  assert (HUb : (Z.abs U < 524288)%Z).
  { unfold U. apply Z.abs_lt. split.
    - apply Z.lt_le_trans with (Z.quot (- (524288 * 1000000000 - 1)) 1000000000);
        [reflexivity|]. apply Z.quot_le_mono; lia.
    - apply Z.le_lt_trans with (Z.quot (524288 * 1000000000 - 1) 1000000000);
        [|reflexivity]. apply Z.quot_le_mono; lia. }
  assert (Hvq : v == inject_Z U + (N # 1000000000)).
  { rewrite Hk. unfold Qeq. simpl. lia. }
  destruct (float_of_int_exact N ltac:(lia)) as (rn & Hrn & Hrnq).
  destruct (float_round_exact (inject_Z int_1e9) int_1e9 (Qeq_refl _)
              ltac:(unfold int_1e9; lia)) as (rc & Hrc & Hrcq).
  destruct (float_of_int_exact U ltac:(lia)) as (ru & Hru & Hruq).
  assert (Hfrac : rn / rc == N # 1000000000).
  { rewrite Hrnq, Hrcq. unfold int_1e9, Qdiv, Qeq. simpl. lia. }
  assert (Hfb : Qabs (rn / rc) < Rounding.pow 2 (- 1 + 1)).
  { rewrite Hfrac. change (Rounding.pow 2 (- 1 + 1)) with 1.
    apply Qabs_Qlt_condition. unfold Qlt. simpl. lia. }
  destruct (float_round_error (rn / rc) (- 1) Hfb ltac:(lia))
    as (rf & Hrf & Hrfe).
  change (- 1 - 53)%Z with (- 54)%Z in Hrfe.
  assert (H54 : Rounding.pow 2 (- 54) == 1 # 18014398509481984) by reflexivity.
  assert (H20 : Rounding.pow 2 (19 + 1) == 1048576) by reflexivity.
  assert (Hsb : Qabs (ru + rf) < Rounding.pow 2 (19 + 1)).
  { rewrite H20. rewrite H54 in Hrfe. rewrite Hfrac in Hrfe.
    apply Qabs_Qle_condition in Hrfe. apply Qabs_Qlt_condition.
    rewrite Hruq.
    assert (- (524288) < inject_Z U < 524288)
      by (split; [change (- (524288)) with (inject_Z (- 524288))
                 | change 524288 with (inject_Z 524288)];
          rewrite <- Zlt_Qlt; lia).
    assert (- (1) < N # 1000000000 < 1) by (unfold Qlt; simpl; lia).
    lra. }
  destruct (float_round_error (ru + rf) 19 Hsb ltac:(lia))
    as (rs & Hrs & Hrse).
  change (19 - 53)%Z with (- 34)%Z in Hrse.
  exists rs. split.
  - unfold quotation_to_float. cbn [Quotation.units Quotation.nano]. fold U N.
    rewrite Hrn. cbn [rbind]. unfold Float.literal. rewrite Hrc.
    unfold Float.div.
    assert (Hnz : Qeq_bool rc 0 = false).
    { destruct (Qeq_bool rc 0) eqn:E; [|reflexivity].
      apply Qeq_bool_eq in E. rewrite Hrcq in E. discriminate E. }
    rewrite Hnz, Hrf. cbn [rbind]. rewrite Hru. cbn [rbind].
    unfold Float.add. now rewrite Hrs.
  - rewrite H54 in *.
    assert (H34 : Rounding.pow 2 (- 34) == 1 # 17179869184) by reflexivity.
    rewrite H34 in *. rewrite Hfrac in Hrfe.
    apply Qabs_Qle_condition in Hrfe, Hrse. apply Qabs_Qle_condition.
    rewrite Hvq. rewrite Hruq in Hrse. lra.
Qed.

(** ** Rounding, exactly *)

Lemma ilog_search_upper (b : Z) (q : Q) (fuel : nat) (t : Z) :
  q < Rounding.pow b (t + 1) ->
  q < Rounding.pow b (Rounding.ilog_search b q fuel t + 1).
Proof.
  revert t. induction fuel as [|fuel IH]; intros t H; simpl; [exact H|].
  destruct (Qle_bool (Rounding.pow b t) q) eqn:E; [exact H|].
  apply IH. replace (t - 1 + 1)%Z with t by lia.
  apply Qnot_le_lt. intros Hle. apply Qle_bool_iff in Hle. congruence.
Qed.

Lemma pow_above (b : Z) (q : Q) :
  (1 < b)%Z -> 0 < q -> q < Rounding.pow b (Z.log2 (Qnum q) + 1 + 1).
Proof.
  intros Hb Hq. set (L := (Z.log2 (Qnum q) + 1)%Z).
  assert (HL : (0 <= L)%Z) by (pose proof (Z.log2_nonneg (Qnum q)); lia).
  apply Qlt_le_trans with (Rounding.pow b L); [|apply pow_le; lia].
  rewrite pow_nonneg by exact HL.
  assert (Hn : (Qnum q < b ^ L)%Z).
  { apply Z.lt_le_trans with (2 ^ L)%Z.
    - unfold L. apply Z.log2_spec. destruct q as [n d]. unfold Qlt in Hq.
      simpl in *. lia.
    - apply Z.pow_le_mono_l. lia. }
  destruct q as [n d]. unfold Qlt in *. simpl in *. nia.
Qed.

Lemma ilog_upper (b : Z) (q : Q) :
  (1 < b)%Z -> 0 < q -> q < Rounding.pow b (Rounding.ilog b q + 1).
Proof.
  intros Hb Hq. unfold Rounding.ilog. apply ilog_search_upper.
  now apply pow_above.
Qed.

Lemma ilog_unique (b : Z) (q : Q) (t : Z) :
  (1 < b)%Z -> Rounding.pow b t <= q -> q < Rounding.pow b (t + 1) ->
  Rounding.ilog b q = t.
Proof.
  intros Hb Hlo Hhi.
  assert (Hq : 0 < q) by (pose proof (pow_pos b t Hb); lra).
  pose proof (ilog_lower b q Hb Hq) as Hl.
  pose proof (ilog_upper b q Hb Hq) as Hu.
  assert (Rounding.ilog b q < t + 1)%Z
    by (apply (pow_lt_inv b); [exact Hb | lra]).
  assert (t < Rounding.ilog b q + 1)%Z
    by (apply (pow_lt_inv b); [exact Hb | lra]).
  lia.
Qed.

Lemma Qfloor_unique (y : Q) (z : Z) :
  inject_Z z <= y -> y < inject_Z z + 1 -> Qfloor y = z.
Proof.
  intros Hlo Hhi.
  pose proof (Qfloor_le y) as Fl. pose proof (Qlt_floor y) as Fh.
  rewrite inject_Z_plus in Fh. change (inject_Z 1) with 1 in Fh.
  assert (H1 : inject_Z (Qfloor y) < inject_Z (z + 1)).
  { rewrite inject_Z_plus. change (inject_Z 1) with 1. lra. }
  assert (H2 : inject_Z z < inject_Z (Qfloor y + 1)).
  { rewrite inject_Z_plus. change (inject_Z 1) with 1. lra. }
  rewrite <- Zlt_Qlt in H1, H2. lia.
Qed.

Lemma inject_Z_pred (g : Z) : inject_Z (g - 1) == inject_Z g - 1.
Proof. unfold Qeq. simpl. lia. Qed.

(** The integer [g] is what [y] rounds to when [y] is within a half of it
    and, on a tie, [g] is even. *)
Lemma round_half_even_unique (y : Q) (g : Z) :
  inject_Z g - (1 # 2) <= y -> y <= inject_Z g + (1 # 2) ->
  (y == inject_Z g + (1 # 2) \/ y == inject_Z g - (1 # 2) -> Z.even g = true) ->
  Rounding.round_half_even y = g.
Proof.
  intros Hlo Hhi Htie. unfold Rounding.round_half_even.
  destruct (Qlt_le_dec y (inject_Z g)) as [Hlt|Hge].
  - pose proof (inject_Z_pred g) as Hp.
    assert (Hf : Qfloor y = (g - 1)%Z) by (apply Qfloor_unique; lra).
    rewrite Hf.
    destruct (Qcompare_spec (y - inject_Z (g - 1)) (1 # 2)) as [He|Hl|Hg].
    + assert (Hev : Z.even g = true) by (apply Htie; right; lra).
      replace (g - 1)%Z with (Z.pred g) by lia.
      rewrite Z.even_pred. rewrite <- Z.negb_even, Hev. simpl. lia.
    + exfalso. lra.
    + lia.
  - assert (Hf : Qfloor y = g) by (apply Qfloor_unique; lra).
    rewrite Hf.
    destruct (Qcompare_spec (y - inject_Z g) (1 # 2)) as [He|Hl|Hg].
    + assert (Hev : Z.even g = true) by (apply Htie; left; lra).
      now rewrite Hev.
    + reflexivity.
    + exfalso. lra.
Qed.

Lemma round_half_even_Qeq (x y : Q) :
  x == y -> Rounding.round_half_even x = Rounding.round_half_even y.
Proof.
  intros H. unfold Rounding.round_half_even. rewrite (Qfloor_comp _ _ H).
  assert (Hc : (x - inject_Z (Qfloor y) ?= 1 # 2)
               = (y - inject_Z (Qfloor y) ?= 1 # 2)) by now rewrite H.
  now rewrite Hc.
Qed.

Lemma float_round_value (x : Q) (E : Z) :
  Qabs x < Rounding.pow 2 (E + 1) -> (- 1022 <= E <= 1000)%Z ->
  Float.round x
  = Float.Finite (Rounding.round_sig 2 53 (Some (- 1074)%Z) x).
Proof.
  intros Hlt HE. destruct (float_round_error x E Hlt HE) as (r & Hr & _).
  unfold Float.round in *.
  destruct (Qle_bool Float.max_finite_bound _); [discriminate Hr | reflexivity].
Qed.

Lemma Qabs_pos_neq (x : Q) : 0 < Qabs x -> ~ x == 0.
Proof. intros H Hx. rewrite Hx in H. discriminate H. Qed.

(** In the binade of exponent [t] the last digit has exponent [t - 52]. *)
Lemma round_sig_at (x : Q) (t : Z) :
  Rounding.pow 2 t <= Qabs x -> Qabs x < Rounding.pow 2 (t + 1) ->
  (- 1022 <= t)%Z ->
  Rounding.round_sig 2 53 (Some (- 1074)%Z) x
  = inject_Z (Rounding.round_half_even (x / Rounding.pow 2 (t - 52)))
    * Rounding.pow 2 (t - 52).
Proof.
  intros Hlo Hhi Ht. unfold Rounding.round_sig.
  pose proof (pow_pos 2 t ltac:(lia)) as Hp.
  assert (Hx : ~ x == 0) by (apply Qabs_pos_neq; lra).
  destruct (Qeq_bool x 0) eqn:E0; [apply Qeq_bool_eq in E0; contradiction|].
  cbn zeta. unfold Rounding.last_digit_exp.
  rewrite (ilog_unique 2 (Qabs x) t) by (lia || assumption).
  replace (Z.max (t - (53 - 1)) (- 1074)) with (t - 52)%Z by lia.
  reflexivity.
Qed.

Lemma round_half_even_nonneg (x : Q) :
  0 <= x -> (0 <= Rounding.round_half_even x)%Z.
Proof.
  intros Hx. pose proof (round_half_even_error x) as He.
  apply Qabs_Qle_condition in He.
  assert (H : inject_Z (- 1) < inject_Z (Rounding.round_half_even x)).
  { change (inject_Z (- 1)) with (- (1)). lra. }
  rewrite <- Zlt_Qlt in H. lia.
Qed.

Lemma round_half_even_nonpos (x : Q) :
  x <= 0 -> (Rounding.round_half_even x <= 0)%Z.
Proof.
  intros Hx. pose proof (round_half_even_error x) as He.
  apply Qabs_Qle_condition in He.
  assert (H : inject_Z (Rounding.round_half_even x) < inject_Z 1).
  { change (inject_Z 1) with 1. lra. }
  rewrite <- Zlt_Qlt in H. lia.
Qed.

Lemma round_sig_nonneg (b p : Z) (emin : option Z) (x : Q) :
  (1 < b)%Z -> 0 <= x -> 0 <= Rounding.round_sig b p emin x.
Proof.
  intros Hb Hx. unfold Rounding.round_sig.
  destruct (Qeq_bool x 0); [lra|]. cbn zeta.
  set (e := Rounding.last_digit_exp b p emin x).
  pose proof (pow_pos b e Hb) as Hp.
  apply Qmult_le_0_compat; [|lra].
  change 0 with (inject_Z 0). rewrite <- Zle_Qle.
  apply round_half_even_nonneg. apply Qle_shift_div_l; lra.
Qed.

Lemma round_sig_nonpos (b p : Z) (emin : option Z) (x : Q) :
  (1 < b)%Z -> x <= 0 -> Rounding.round_sig b p emin x <= 0.
Proof.
  intros Hb Hx. unfold Rounding.round_sig.
  destruct (Qeq_bool x 0); [lra|]. cbn zeta.
  set (e := Rounding.last_digit_exp b p emin x).
  pose proof (pow_pos b e Hb) as Hp.
  assert (Hr : (Rounding.round_half_even (x / Rounding.pow b e) <= 0)%Z).
  { apply round_half_even_nonpos. apply Qle_shift_div_r; lra. }
  rewrite Zle_Qle in Hr. change (inject_Z 0) with 0 in Hr.
  set (r := inject_Z _) in *. nra.
Qed.

(** ** The last binary digit of a price and of its fixed-point image *)

(** A value within [c] of the integer [g], moved by at most [e], still
    rounds to [g] when [c + e] stays below a half. *)
Lemma round_half_even_margin (x y c e : Q) (g : Z) :
  Qabs (x - inject_Z g) <= c -> Qabs (y - x) <= e -> c + e < 1 # 2 ->
  Rounding.round_half_even y = g.
Proof.
  intros Hx Hy Hce.
  apply Qabs_Qle_condition in Hx, Hy.
  apply round_half_even_unique; [lra | lra |].
  intros [H|H]; rewrite H in Hy; lra.
Qed.

(** The distance of [n / 10^9] to the integer it rounds to, as a multiple
    of 10^-9. *)
Lemma billionths_rounded (n : Z) :
  let g := Rounding.round_half_even (n # 1000000000) in
  (n # 1000000000) - inject_Z g == (n - g * 1000000000) # 1000000000
  /\ (2 * Z.abs (n - g * 1000000000) <= 1000000000)%Z.
Proof.
  intros g.
  assert (H : (n # 1000000000) - inject_Z g
              == (n - g * 1000000000) # 1000000000)
    by (unfold Qeq; simpl; lia).
  split; [exact H|].
  pose proof (round_half_even_error (n # 1000000000)) as He. fold g in He.
  assert (He' : Qabs ((n # 1000000000) - inject_Z g) <= 1 # 2).
  { rewrite <- Qabs_opp.
    setoid_replace (- ((n # 1000000000) - inject_Z g))
      with (inject_Z g - (n # 1000000000)) using relation Qeq by ring.
    exact He. }
  rewrite H in He'. unfold Qabs, Qle in He'. simpl in He'. lia.
Qed.

Lemma Qabs_billionths_le (a b : Z) :
  (Z.abs a <= b)%Z -> Qabs (a # 1000000000) <= b # 1000000000.
Proof. intros H. unfold Qabs, Qle. simpl. lia. Qed.

(** Scaled by 2^9 or more, a whole number of billionths is a multiple of
    512 * 10^-9: it stays 256 * 10^-9 away from every rounding tie. *)
Lemma same_digit_mid (k S' : Z) (y e : Q) :
  Qabs (y - (k * (512 * S') # 1000000000)) <= e -> e <= 1 # 4194304 ->
  Rounding.round_half_even y
  = Rounding.round_half_even (k * (512 * S') # 1000000000).
Proof.
  intros Hy He.
  destruct (billionths_rounded (k * (512 * S'))) as [Ha Hb].
  set (g := Rounding.round_half_even _) in *.
  apply (round_half_even_margin (k * (512 * S') # 1000000000) y
           (499999744 # 1000000000) e g); [| exact Hy | lra].
  rewrite Ha. apply Qabs_billionths_le.
  set (w := (k * S')%Z) in *.
  replace (k * (512 * S'))%Z with (512 * w)%Z in * by (unfold w; ring).
  lia.
Qed.

(** Scaled by 2^s with s <= 8: either on a tie, or 2^s * 10^-9 away from
    it. *)
Lemma same_digit_low (k s : Z) (y : Q) :
  (0 <= s <= 8)%Z ->
  Qabs (y - (k * 2 ^ s # 1000000000)) <= Rounding.pow 2 (s - 54) ->
  (forall M : Z, (2 * (k * 2 ^ s) = M * 1000000000)%Z ->
                 y == k * 2 ^ s # 1000000000) ->
  Rounding.round_half_even y
  = Rounding.round_half_even (k * 2 ^ s # 1000000000).
Proof.
  intros Hs Hy Htie.
  destruct (billionths_rounded (k * 2 ^ s)) as [Ha Hb].
  set (g := Rounding.round_half_even _) in *.
  destruct (Z.eq_dec (2 * Z.abs (k * 2 ^ s - g * 1000000000))%Z 1000000000%Z)
    as [Heq|Hne].
  - unfold g. apply round_half_even_Qeq.
    destruct (Z.abs_spec (k * 2 ^ s - g * 1000000000)) as [[_ E]|[_ E]];
      rewrite E in Heq.
    + apply (Htie (2 * g + 1)%Z). lia.
    + apply (Htie (2 * g - 1)%Z). lia.
  - assert (Hc : (s = 0 \/ s = 1 \/ s = 2 \/ s = 3 \/ s = 4 \/ s = 5
                  \/ s = 6 \/ s = 7 \/ s = 8)%Z) by lia.
    apply (round_half_even_margin (k * 2 ^ s # 1000000000) y
             ((500000000 - 2 ^ s) # 1000000000)
             (Rounding.pow 2 (s - 54)) g); [| exact Hy |].
    + rewrite Ha. apply Qabs_billionths_le.
      repeat (destruct Hc as [->|Hc]; [simpl in *; lia|]).
      subst s. simpl in *. lia.
    + repeat (destruct Hc as [->|Hc]; [reflexivity|]).
      subst s. reflexivity.
Qed.

(** Scaled by 2^33, with the computed value on the grid of 2^-20: at the
    nearest approach to a tie the digit is even and the grid keeps the
    computed value on the same side. *)
Lemma same_digit_top (k Y : Z) (y : Q) :
  y == Y # 1048576 ->
  Qabs (y - (k * 2 ^ 33 # 1000000000)) <= 1 # 2097152 ->
  Rounding.round_half_even y
  = Rounding.round_half_even (k * 2 ^ 33 # 1000000000).
Proof.
  intros HY Hy.
  destruct (billionths_rounded (k * 2 ^ 33)) as [Ha Hb].
  set (g := Rounding.round_half_even _) in *.
  set (a := (k * 2 ^ 33 - g * 1000000000)%Z) in *.
  assert (Ha' : (a = 512 * (k * 16777216 - g * 1953125))%Z)
    by (unfold a; change (2 ^ 33)%Z with 8589934592%Z; lia).
  destruct (Z_le_gt_dec (Z.abs a) 499999232%Z) as [Hle|Hgt].
  - apply (round_half_even_margin (k * 2 ^ 33 # 1000000000) y
             (499999232 # 1000000000)
             (1 # 2097152) g); [| exact Hy | reflexivity].
    rewrite Ha. now apply Qabs_billionths_le.
  - assert (Hev : Z.even g = true).
    { apply Z.even_spec.
      assert (Hc : (k * 16777216 - g * 1953125 = 976562
                    \/ k * 16777216 - g * 1953125 = - 976562)%Z) by lia.
      destruct Hc as [Hc|Hc];
        [exists (8388608 * k - 488281 - 976562 * g)%Z
        |exists (8388608 * k + 488281 - 976562 * g)%Z]; lia. }
    assert (Hx : (k * 2 ^ 33 # 1000000000) == inject_Z g + (a # 1000000000))
      by (rewrite <- Ha; ring).
    rewrite Hx in Hy. rewrite HY in Hy. apply Qabs_Qle_condition in Hy.
    apply round_half_even_unique; [| | intros _; exact Hev]; rewrite HY.
    + destruct Hy as [Hy _]. unfold Qle in *. simpl in *. lia.
    + destruct Hy as [_ Hy]. unfold Qle in *. simpl in *. lia.
Qed.

Lemma div_pow2 (x : Q) (t : Z) :
  (t <= 52)%Z ->
  x / Rounding.pow 2 (t - 52) == x * inject_Z (2 ^ (52 - t)).
Proof.
  intros Ht. pose proof (pow_cancel 2 (52 - t) ltac:(lia)) as Hc.
  replace (- (52 - t))%Z with (t - 52)%Z in Hc by lia.
  rewrite (pow_nonneg 2 (52 - t)) in Hc by lia.
  pose proof (pow_pos 2 (t - 52) ltac:(lia)) as Hp.
  set (p := Rounding.pow 2 (t - 52)) in *.
  set (p' := inject_Z (2 ^ (52 - t))) in *.
  setoid_replace (x * p') with (x * (p * p') / p) using relation Qeq
    by (field; lra).
  rewrite Hc. field. lra.
Qed.

(** The float of a fraction of billionths: near the fraction, nearer below
    a half, on the grid of 2^-53 from a half on, exact for a dyadic
    fraction with at most 9 binary digits, and of the sign of the
    fraction. *)
Lemma fraction_rounded (f : Q) (N : Z) :
  f == N # 1000000000 -> (Z.abs N < 1000000000)%Z ->
  let d := Rounding.round_sig 2 53 (Some (- 1074)%Z) f in
  Float.round f = Float.Finite d
  /\ Qabs (d - (N # 1000000000)) <= Rounding.pow 2 (- 54)
  /\ ((2 * Z.abs N < 1000000000)%Z ->
      Qabs (d - (N # 1000000000)) <= Rounding.pow 2 (- 55))
  /\ ((1000000000 <= 2 * Z.abs N)%Z ->
      exists D : Z, d == D # 9007199254740992)
  /\ (forall s M : Z, (0 <= s <= 8)%Z ->
        (N * 2 ^ (s + 1) = M * 1000000000)%Z -> d == N # 1000000000)
  /\ ((0 <= N)%Z -> 0 <= d)
  /\ ((N <= 0)%Z -> d <= 0).
Proof.
  intros Hf HN d.
  assert (Hfb : Qabs f < Rounding.pow 2 (- 1 + 1)).
  { rewrite Hf. change (Rounding.pow 2 (- 1 + 1)) with 1.
    apply Qabs_Qlt_condition. unfold Qlt. simpl. lia. }
  split; [apply (float_round_value f (- 1) Hfb); lia|].
  split; [|split; [|split; [|split; [|split]]]].
  - rewrite <- Hf. rewrite <- (half_pow2 (- 1)).
    apply (round_sig_error 2 53 (Some (- 1074)%Z) f (- 1)); [lia | exact Hfb |].
    intros m [= <-]. lia.
  - intros Hlt. rewrite <- Hf.
    change (Rounding.pow 2 (- 55)) with (Rounding.pow 2 (- 2 - 53)).
    rewrite <- (half_pow2 (- 2)).
    apply (round_sig_error 2 53 (Some (- 1074)%Z) f (- 2)); [lia | |].
    + rewrite Hf. change (Rounding.pow 2 (- 2 + 1)) with (1 # 2).
      unfold Qabs, Qlt. simpl. lia.
    + intros m [= <-]. lia.
  - intros Hge.
    exists (Rounding.round_half_even (f / Rounding.pow 2 (- 1 - 52))).
    unfold d. rewrite (round_sig_at f (- 1)); [| | exact Hfb | lia].
    + change (Rounding.pow 2 (- 1 - 52)) with (1 # 9007199254740992).
      set (D := Rounding.round_half_even _).
      unfold Qeq. simpl. lia.
    + rewrite Hf. change (Rounding.pow 2 (- 1)) with (1 # 2).
      unfold Qabs, Qle. simpl. lia.
  - intros s M Hs HM. rewrite <- Hf.
    apply (round_sig_exact 2 53 (Some (- 1074)%Z) f (- 1) (- (s + 1)) M);
      [lia | exact Hfb | | lia | intros m [= <-]; lia].
    rewrite Hf.
    apply (Qmult_inj_r _ _ (Rounding.pow 2 (s + 1))).
    { pose proof (pow_pos 2 (s + 1) ltac:(lia)). lra. }
    rewrite <- Qmult_assoc, pow_cancel by lia.
    rewrite pow_nonneg by lia. 
    unfold Qeq. simpl. lia.
  - intros H0. apply round_sig_nonneg; [lia|]. rewrite Hf.
    unfold Qle. simpl. lia.
  - intros H0. apply round_sig_nonpos; [lia|]. rewrite Hf.
    unfold Qle. simpl. lia.
Qed.

Lemma float_sub_self (r : Q) :
  Float.sub (Float.Finite r) (Float.Finite r) = Float.Finite 0.
Proof.
  unfold Float.sub, Float.neg, Float.add, Float.round, Rounding.round_sig.
  assert (H : Qeq_bool (r + - r) 0 = true) by (apply Qeq_eq_bool; ring).
  rewrite H. reflexivity.
Qed.

(** From 2^19 up to 2^53 the float of units + nano / 1e9 is the float of
    the value itself: both round to the same last binary digit. *)
Lemma quotation_to_float_same (v : Decimal.t) (k t : Z) :
  v == k # 1000000000 -> (19 <= t <= 52)%Z ->
  Rounding.pow 2 t <= Qabs v -> Qabs v < Rounding.pow 2 (t + 1) ->
  exists r : Q,
    Float.of_decimal v = Float.Finite r
    /\ quotation_to_float {| Quotation.units := Z.quot k 1000000000;
                             Quotation.nano := Z.rem k 1000000000 |}
       = Ok (Float.Finite r).
Proof.
  intros Hk Ht Hlo Hhi.
  set (U := Z.quot k 1000000000). set (N := Z.rem k 1000000000).
  pose proof (Z.quot_rem' k 1000000000) as Hqr. fold U N in Hqr.
  assert (HN : (Z.abs N < 1000000000)%Z)
    by (unfold N; pose proof (Z.rem_bound_abs k 1000000000); lia).
  assert (HNs : (0 <= k -> 0 <= N)%Z /\ (k <= 0 -> N <= 0)%Z).
  { unfold N. split; intros H.
    - apply Z.rem_nonneg; lia.
    - apply Z.rem_nonpos; lia. }
  set (T := (2 ^ t)%Z).
  assert (HT : (0 < T)%Z) by (unfold T; apply Z.pow_pos_nonneg; lia).
  assert (HT53 : (2 * T <= 2 ^ 53)%Z).
  { unfold T. rewrite <- (Z.pow_succ_r 2 t) by lia.
    apply Z.pow_le_mono_r; lia. }
  assert (HpT : Rounding.pow 2 t == inject_Z T)
    by (unfold T; apply pow_nonneg; lia).
  assert (HpT1 : Rounding.pow 2 (t + 1) == inject_Z (2 * T)).
  { rewrite pow_nonneg by lia. unfold T.
    rewrite Z.add_1_r, Z.pow_succ_r by lia. reflexivity. }
  assert (Hkb : (T * 1000000000 <= Z.abs k < 2 * T * 1000000000)%Z).
  { rewrite HpT in Hlo. rewrite HpT1 in Hhi. rewrite Hk in Hlo, Hhi.
    unfold Qabs, Qle, Qlt in Hlo, Hhi. simpl in Hlo, Hhi. lia. }
  assert (HUb : (T <= Z.abs U < 2 * T)%Z) by lia.
  assert (Hvq : v == inject_Z U + (N # 1000000000)).
  { rewrite Hk. unfold Qeq. simpl. lia. }
  destruct (float_of_int_exact N ltac:(lia)) as (rn & Hrn & Hrnq).
  destruct (float_round_exact (inject_Z int_1e9) int_1e9 (Qeq_refl _)
              ltac:(unfold int_1e9; lia)) as (rc & Hrc & Hrcq).
  destruct (float_of_int_exact U ltac:(lia)) as (ru & Hru & Hruq).
  assert (Hfrac : rn / rc == N # 1000000000).
  { rewrite Hrnq, Hrcq. unfold int_1e9, Qdiv, Qeq. simpl. lia. }
  destruct (fraction_rounded (rn / rc) N Hfrac HN)
    as (Hrf & He54 & He55 & Hgrid & Hexact & Hpos & Hneg).
  set (d := Rounding.round_sig 2 53 (Some (- 1074)%Z) (rn / rc)) in *.
  assert (H54 : Rounding.pow 2 (- 54) == 1 # 18014398509481984) by reflexivity.
  (* the sum lies in the binade of the value *)
  assert (Hbin : Rounding.pow 2 t <= Qabs (ru + d)
                 /\ Qabs (ru + d) < Rounding.pow 2 (t + 1)).
  { rewrite HpT, HpT1, Hruq.
    assert (Hd1 : - (1) < d < 1).
    { rewrite H54 in He54. apply Qabs_Qle_condition in He54.
      assert (- (999999999 # 1000000000) <= N # 1000000000
              <= 999999999 # 1000000000)
        by (unfold Qle; simpl; lia).
      lra. }
    destruct (Z_le_gt_dec 0 k) as [Hk0|Hk0].
    - assert (HU0 : (T <= U /\ U + 1 <= 2 * T)%Z) by lia.
      assert (Hd0 : 0 <= d) by (apply Hpos; lia).
      destruct HU0 as [HU1 HU2]. rewrite Zle_Qle in HU1, HU2.
      rewrite inject_Z_plus, inject_Z_mult in HU2.
      change (inject_Z 1) with 1 in HU2. change (inject_Z 2) with 2 in HU2.
      rewrite inject_Z_mult. change (inject_Z 2) with 2.
      rewrite Qabs_pos by lra. lra.
    - assert (HU0 : (- U + 1 <= 2 * T /\ U <= - T)%Z) by lia.
      assert (Hd0 : d <= 0) by (apply Hneg; lia).
      destruct HU0 as [HU1 HU2]. rewrite Zle_Qle in HU1, HU2.
      rewrite inject_Z_opp in HU2.
      rewrite inject_Z_plus, inject_Z_opp, inject_Z_mult in HU1.
      change (inject_Z 1) with 1 in HU1. change (inject_Z 2) with 2 in HU1.
      rewrite inject_Z_mult. change (inject_Z 2) with 2.
      rewrite Qabs_neg by lra. lra. }
  destruct Hbin as [Hslo Hshi].
  (* the last digit of the sum is that of the value *)
  set (s := (52 - t)%Z).
  assert (Hx : v / Rounding.pow 2 (t - 52) == k * 2 ^ s # 1000000000).
  { rewrite div_pow2 by lia. fold s. rewrite Hk.
    unfold Qeq. simpl. lia. }
  assert (Hy : (ru + d) / Rounding.pow 2 (t - 52)
               == (ru + d) * inject_Z (2 ^ s)) by (apply div_pow2; lia).
  assert (Hdiff : forall e : Z,
             Qabs (d - (N # 1000000000)) <= Rounding.pow 2 e ->
             Qabs ((ru + d) * inject_Z (2 ^ s) - (k * 2 ^ s # 1000000000))
             <= Rounding.pow 2 (s + e)).
  { intros e He.
    setoid_replace ((ru + d) * inject_Z (2 ^ s) - (k * 2 ^ s # 1000000000))
      with ((d - (N # 1000000000)) * inject_Z (2 ^ s)) using relation Qeq.
    - rewrite Qabs_Qmult, pow_add by lia.
      rewrite <- (pow_nonneg 2 s) by lia.
      pose proof (pow_pos 2 s ltac:(lia)) as Hp.
      rewrite (Qabs_pos (Rounding.pow 2 s)) by lra.
      rewrite (Qmult_comm (Rounding.pow 2 s)).
      apply Qmult_le_compat_r; [exact He | lra].
    - rewrite Hruq.
      setoid_replace (k * 2 ^ s # 1000000000)
        with ((inject_Z U + (N # 1000000000)) * inject_Z (2 ^ s))
        using relation Qeq; [ring|].
      rewrite <- Hvq, Hk. unfold Qeq. simpl. lia. }
  assert (Hdigit : Rounding.round_half_even ((ru + d) / Rounding.pow 2 (t - 52))
                   = Rounding.round_half_even (v / Rounding.pow 2 (t - 52))).
  { rewrite (round_half_even_Qeq _ _ Hx), (round_half_even_Qeq _ _ Hy).
    destruct (Z_le_gt_dec s 8) as [Hs8|Hs8].
    - apply same_digit_low; [lia | |].
      + replace (s - 54)%Z with (s + - 54)%Z by lia. now apply Hdiff.
      + intros M HM.
        assert (Hd : d == N # 1000000000).
        { apply (Hexact s (M - 2 * 2 ^ s * U)%Z); [lia|].
          rewrite Z.add_1_r, Z.pow_succ_r by lia. 
          set (S := (2 ^ s)%Z) in *. nia. }
        rewrite Hd, Hruq, <- Hvq, Hk. unfold Qeq. simpl. lia.
    - destruct (Z_le_gt_dec s 32) as [Hs32|Hs32].
      + replace (2 ^ s)%Z with (512 * 2 ^ (s - 9))%Z.
        2:{ change 512%Z with (2 ^ 9)%Z. rewrite <- Z.pow_add_r by lia.
            f_equal. lia. }
        apply (same_digit_mid k (2 ^ (s - 9)) _ (Rounding.pow 2 (s + - 54))).
        * replace (512 * 2 ^ (s - 9))%Z with (2 ^ s)%Z.
          2:{ change 512%Z with (2 ^ 9)%Z. rewrite <- Z.pow_add_r by lia.
              f_equal. lia. }
          now apply Hdiff.
        * change (1 # 4194304) with (Rounding.pow 2 (- 22)).
          apply pow_le; lia.
      + assert (Hs : s = 33%Z) by lia.
        destruct (Z_lt_ge_dec (2 * Z.abs N) 1000000000) as [Hsmall|Hbig].
        * replace (2 ^ s)%Z with (512 * 2 ^ (s - 9))%Z.
          2:{ change 512%Z with (2 ^ 9)%Z. rewrite <- Z.pow_add_r by lia.
              f_equal. lia. }
          apply (same_digit_mid k (2 ^ (s - 9)) _ (Rounding.pow 2 (s + - 55))).
          -- replace (512 * 2 ^ (s - 9))%Z with (2 ^ s)%Z.
             2:{ change 512%Z with (2 ^ 9)%Z. rewrite <- Z.pow_add_r by lia.
                 f_equal. lia. }
             apply Hdiff. now apply He55.
          -- rewrite Hs. apply Qle_refl.
        * destruct (Hgrid ltac:(lia)) as (D & HD).
          specialize (Hdiff (- 54)%Z He54). rewrite Hs in *.
          apply (same_digit_top k (U * 9007199254740992 + D)).
          -- rewrite HD, Hruq. unfold Qeq. simpl. lia.
          -- exact Hdiff. }
  assert (Hvr : Float.round v
                = Float.Finite (Rounding.round_sig 2 53 (Some (- 1074)%Z) v))
    by (apply (float_round_value v t Hhi); lia).
  assert (Hsr : Float.round (ru + d)
                = Float.Finite
                    (Rounding.round_sig 2 53 (Some (- 1074)%Z) (ru + d)))
    by (apply (float_round_value (ru + d) t Hshi); lia).
  rewrite (round_sig_at v t Hlo Hhi ltac:(lia)) in Hvr.
  rewrite (round_sig_at (ru + d) t Hslo Hshi ltac:(lia)), Hdigit in Hsr.
  eexists. split; [exact Hvr|].
  unfold quotation_to_float. cbn [Quotation.units Quotation.nano]. fold U N.
  rewrite Hrn. cbn [rbind]. unfold Float.literal. rewrite Hrc.
  unfold Float.div.
  assert (Hnz : Qeq_bool rc 0 = false).
  { destruct (Qeq_bool rc 0) eqn:E; [|reflexivity].
    apply Qeq_bool_eq in E. rewrite Hrcq in E. discriminate E. }
  rewrite Hnz, Hrf. cbn [rbind]. rewrite Hru. cbn [rbind].
  unfold Float.add. now rewrite Hsr.
Qed.

Lemma decimal_to_quotation_parts (v : Decimal.t) (k : Z) (q : Quotation.t) :
  v == k # 1000000000 ->
  decimal_to_quotation v = Ok q ->
  q = {| Quotation.units := Z.quot k 1000000000;
         Quotation.nano := Z.rem k 1000000000 |}.
Proof.
  intros Hk. destruct (decimal_parts v k Hk) as [HU HN].
  unfold decimal_to_quotation. cbn zeta. rewrite HN, HU.
  destruct (quotation_to_float _) as [f|e]; cbn [rbind]; [|discriminate].
  destruct (Float.ltb _ _); [|discriminate].
  now intros [= <-].
Qed.

(** Below 2^19 the two floats are within 2^-33 of each other, well under
    EPS. *)
Lemma decimal_to_quotation_small (v : Decimal.t) (k : Z) :
  v == k # 1000000000 -> Qabs v < 524288 ->
  decimal_to_quotation v
  = Ok {| Quotation.units := Z.quot k 1000000000;
          Quotation.nano := Z.rem k 1000000000 |}.
Proof.
  intros Hk Hv. destruct (decimal_parts v k Hk) as [HU HN].
  unfold decimal_to_quotation. cbn zeta. rewrite HN, HU.
  destruct (quotation_to_float_close v k Hk Hv) as (rs & Hrs & Hrse).
  rewrite Hrs. cbn [rbind].
  assert (H19 : Rounding.pow 2 (18 + 1) == 524288) by reflexivity.
  assert (Hvb : Qabs v < Rounding.pow 2 (18 + 1)) by (now rewrite H19).
  destruct (float_round_error v 18 Hvb ltac:(lia)) as (ra & Hra & Hrae).
  change (18 - 53)%Z with (- 35)%Z in Hrae.
  unfold Float.of_decimal. rewrite Hra.
  assert (H35 : Rounding.pow 2 (- 35) == 1 # 34359738368) by reflexivity.
  assert (H34 : Rounding.pow 2 (- 34) == 1 # 17179869184) by reflexivity.
  assert (H54 : Rounding.pow 2 (- 54) == 1 # 18014398509481984) by reflexivity.
  assert (H33 : Rounding.pow 2 (- 34 + 1) == 1 # 8589934592) by reflexivity.
  assert (H87 : Rounding.pow 2 (- 34 - 53)
                == 1 # 154742504910672534362390528) by reflexivity.
  rewrite H35 in Hrae. rewrite H34, H54 in Hrse.
  apply Qabs_Qle_condition in Hrae, Hrse.
  assert (Hdb : Qabs (ra + - rs) < Rounding.pow 2 (- 34 + 1)).
  { rewrite H33. apply Qabs_Qlt_condition. lra. }
  destruct (float_round_error (ra + - rs) (- 34) Hdb ltac:(lia))
    as (rd & Hrd & Hrde).
  unfold Float.sub, Float.neg, Float.add. rewrite Hrd. cbn [Float.abs].
  assert (Heb : Qabs (1 # 10000000000) < Rounding.pow 2 (- 34 + 1)).
  { rewrite H33. apply Qabs_Qlt_condition. unfold Qlt. simpl. lia. }
  destruct (float_round_error (1 # 10000000000) (- 34) Heb ltac:(lia))
    as (reps & Hreps & Hrepse).
  unfold EPS, Float.literal. rewrite Hreps. cbn [Float.ltb].
  rewrite H87 in Hrde, Hrepse.
  apply Qabs_Qle_condition in Hrde, Hrepse.
  rewrite Qle_bool_false; [reflexivity|].
  apply Qabs_Qlt_condition. lra.
Qed.

Lemma EPS_positive :
  exists e : Q, EPS = Float.Finite e /\ 0 < e.
Proof.
  assert (Heb : Qabs (1 # 10000000000) < Rounding.pow 2 (- 34 + 1)).
  { change (Rounding.pow 2 (- 34 + 1)) with (1 # 8589934592).
    apply Qabs_Qlt_condition. unfold Qlt. simpl. lia. }
  destruct (float_round_error (1 # 10000000000) (- 34) Heb ltac:(lia))
    as (e & He & Herr).
  exists e. split; [exact He|].
  change (Rounding.pow 2 (- 34 - 53))
    with (1 # 154742504910672534362390528) in Herr.
  apply Qabs_Qle_condition in Herr. lra.
Qed.

Lemma decimal_to_quotation_succeeds (v : Decimal.t) (k : Z) :
  v == k # 1000000000 -> Qabs v < 9007199254740992 ->
  decimal_to_quotation v
  = Ok {| Quotation.units := Z.quot k 1000000000;
          Quotation.nano := Z.rem k 1000000000 |}.
Proof.
  intros Hk Hv.
  destruct (Qlt_le_dec (Qabs v) 524288) as [Hsmall|Hbig];
    [now apply decimal_to_quotation_small|].
  set (t := Rounding.ilog 2 (Qabs v)).
  assert (Hlo : Rounding.pow 2 t <= Qabs v) by (apply ilog_lower; [lia|lra]).
  assert (Hhi : Qabs v < Rounding.pow 2 (t + 1))
    by (apply ilog_upper; [lia|lra]).
  assert (Ht : (19 <= t <= 52)%Z).
  { split.
    - assert (H : Rounding.pow 2 19 < Rounding.pow 2 (t + 1)).
      { change (Rounding.pow 2 19) with 524288. lra. }
      apply pow_lt_inv in H; lia.
    - assert (H : Rounding.pow 2 t < Rounding.pow 2 53).
      { change (Rounding.pow 2 53) with 9007199254740992. lra. }
      apply pow_lt_inv in H; lia. }
  destruct (decimal_parts v k Hk) as [HU HN].
  unfold decimal_to_quotation. cbn zeta. rewrite HN, HU.
  destruct (quotation_to_float_same v k t Hk Ht Hlo Hhi) as (r & Hr & Hq).
  rewrite Hq, Hr. cbn [rbind]. rewrite float_sub_self.
  destruct EPS_positive as (e & -> & He). cbn [Float.abs Float.ltb].
  rewrite Qle_bool_false; [reflexivity|]. exact He.
Qed.

(** 2^53 + 1.5 has one fractional digit and fits the 64-bit units of the
    broker's representation, but [decimal_to_quotation] raises on it: the
    float of the value is 2^53 + 2 and the float of units + nano / 1e9 is
    2^53, so its assertion fails. *)
Lemma round_trip_claim_counterexample :
  at_most_9_fractional_digits ex_price_large
  /\ ~ round_trip_claim ex_price_large.
Proof.
  split.
  - exists 9007199254740993500000000%Z. reflexivity.
  - intros (q & d & Hq & _).
    assert (H : decimal_to_quotation ex_price_large = Raise AssertionError)
      by (vm_compute; reflexivity).
    rewrite H in Hq. discriminate Hq.
Qed.

(** 10^30 + 0.5: the conversion returns, and the way back rounds to 28
    significant digits, half a unit away. *)
Example round_trip_huge :
  exists d : Decimal.t,
    rbind (decimal_to_quotation ex_price_huge) quotation_to_decimal = Ok d
    /\ d == 1000000000000000000000000000000.
Proof. eexists. split; [vm_compute; reflexivity | reflexivity]. Qed.

(** C8, amended -- For every decimal value with at most 9 fractional digits
    and absolute value below 2^53 = 9007199254740992, converting it to the
    broker's fixed-point {integer units, nano-fraction} representation
    succeeds and converting back to decimal recovers the original value
    exactly (so within an error below 1e-10); and for every such value below
    10^19, whenever the conversion returns (its float assertion passes),
    converting back recovers the original value exactly. *)
Theorem price_round_trip (v : Decimal.t) :
  at_most_9_fractional_digits v ->
  (Qabs v < 9007199254740992 ->
   exists (q : Quotation.t) (d : Decimal.t),
     decimal_to_quotation v = Ok q
     /\ quotation_to_decimal q = Ok d
     /\ d == v)
  /\ (Qabs v < 10000000000000000000 ->
      forall q : Quotation.t,
        decimal_to_quotation v = Ok q ->
        exists d : Decimal.t, quotation_to_decimal q = Ok d /\ d == v).
Proof.
  intros (k & Hk). split.
  - intros Hv.
    assert (Hv' : Qabs v < 10000000000000000000) by lra.
    destruct (quotation_to_decimal_parts v k Hk Hv') as (d & Hd & Hdv).
    eexists. exists d. split; [now apply (decimal_to_quotation_succeeds v k)|].
    split; [exact Hd | exact Hdv].
  - intros Hv q Hq.
    rewrite (decimal_to_quotation_parts v k q Hk Hq).
    now apply quotation_to_decimal_parts.
Qed.

Lemma price_round_trip_witness :
  exists (q : Quotation.t) (d : Decimal.t),
    decimal_to_quotation (10025 # 100) = Ok q
    /\ quotation_to_decimal q = Ok d
    /\ d == 10025 # 100.
Proof.
  apply (proj1 (price_round_trip (10025 # 100)
                  (ex_intro _ 100250000000%Z eq_refl))).
  reflexivity.
Defined.

Example decimal_to_quotation_examples :
  decimal_to_quotation (10025 # 100)
  = Ok {| Quotation.units := 100; Quotation.nano := 250000000 |}
  /\ decimal_to_quotation (- (3 # 2))
     = Ok {| Quotation.units := - 1; Quotation.nano := - 500000000 |}
  /\ decimal_to_quotation (9007199254740991 # 2)
     = Ok {| Quotation.units := 4503599627370495;
             Quotation.nano := 500000000 |}.
Proof. repeat split; vm_compute; reflexivity. Qed.

(** ** More of the codec *)

Lemma quotation_value_billionths (q : Quotation.t) :
  quotation_value q
  == (Quotation.units q * 1000000000 + Quotation.nano q) # 1000000000.
Proof. unfold quotation_value, Qeq. simpl. lia. Qed.

(** The units and the nano of a normalised quotation are the quotient and
    the remainder, toward zero, of its value in billionths. *)
Lemma normalised_quot_rem (q : Quotation.t) :
  normalised q ->
  let k := (Quotation.units q * 1000000000 + Quotation.nano q)%Z in
  Z.quot k 1000000000 = Quotation.units q
  /\ Z.rem k 1000000000 = Quotation.nano q.
Proof.
  destruct q as [U N]. unfold normalised. cbn [Quotation.units Quotation.nano].
  intros [HN Hs]. cbv zeta. set (k := (U * 1000000000 + N)%Z).
  assert (Hq : Z.quot k 1000000000 = U).
  { destruct (Z_le_gt_dec 0 N) as [H0|H0].
    - assert (0 <= U \/ N = 0)%Z as [HU|HU] by nia.
      + symmetry. apply (Z.quot_unique k 1000000000 U N); unfold k; lia.
      + subst N. unfold k. rewrite Z.add_0_r. apply Z.quot_mul. lia.
    - assert (HU : (U <= 0)%Z) by nia.
      assert (E : (k = - (- U * 1000000000 + - N))%Z) by (unfold k; lia).
      rewrite E, Z.quot_opp_l by lia.
      rewrite <- (Z.quot_unique (- U * 1000000000 + - N) 1000000000 (- U) (- N));
        lia. }
  split; [exact Hq|].
  pose proof (Z.quot_rem' k 1000000000) as Hqr. rewrite Hq in Hqr.
  unfold k in *. lia.
Qed.

Lemma quot_rem_normalised (k : Z) :
  normalised {| Quotation.units := Z.quot k 1000000000;
                Quotation.nano := Z.rem k 1000000000 |}.
Proof.
  unfold normalised. cbn [Quotation.units Quotation.nano].
  pose proof (Z.rem_bound_abs k 1000000000 ltac:(lia)) as Hb.
  pose proof (Z.quot_rem' k 1000000000) as Hqr.
  pose proof (Z.rem_sign_mul k 1000000000 ltac:(lia)) as Hs.
  split; [lia|].
  set (qt := Z.quot k 1000000000) in *. set (r := Z.rem k 1000000000) in *.
  destruct (Z.lt_trichotomy r 0) as [Hr|[Hr|Hr]].
  - assert (k <= 0)%Z by nia. assert (qt <= 0)%Z by lia. nia.
  - rewrite Hr. lia.
  - assert (0 <= k)%Z by nia. assert (0 <= qt)%Z by lia. nia.
Qed.

(** [quotation_to_decimal] is exact while the sum fits the 28 digits of the
    context. *)
Lemma quotation_to_decimal_value (q : Quotation.t) :
  (Z.abs (Quotation.units q) < 10000000000000000000)%Z ->
  (Z.abs (Quotation.nano q) < 1000000000)%Z ->
  exists v : Decimal.t,
    quotation_to_decimal q = Ok v /\ v == quotation_value q.
Proof.
  intros HU HN. rewrite quotation_to_decimal_Ok. eexists. split; [reflexivity|].
  destruct q as [U N]. cbn [Quotation.units Quotation.nano] in *.
  unfold quotation_value. cbn [Quotation.units Quotation.nano].
  assert (Hdiv : Decimal.of_int N / Decimal.of_int int_1e9 == N # 1000000000).
  { unfold Decimal.of_int, int_1e9, Qdiv, Qeq. simpl. lia. }
  assert (H1 : Decimal.ctx (Decimal.of_int N / Decimal.of_int int_1e9)
               == N # 1000000000).
  { rewrite <- Hdiv.
    apply (ctx_exact _ N (- 9) (- 1)); [| |lia].
    - rewrite Hdiv. change (Rounding.pow 10 (- 1 + 1)) with 1.
      apply Qabs_Qlt_condition. unfold Qlt. simpl. lia.
    - rewrite Hdiv, pow10_m9. unfold Qeq. simpl. lia. }
  assert (Hsum : Decimal.of_int U
                 + Decimal.ctx (Decimal.of_int N / Decimal.of_int int_1e9)
                 == (U * 1000000000 + N) # 1000000000).
  { rewrite H1. unfold Decimal.of_int, Qeq. simpl. lia. }
  unfold Decimal.add.
  setoid_replace (inject_Z U + (N # 1000000000))
    with ((U * 1000000000 + N) # 1000000000) using relation Qeq
    by (unfold Qeq; simpl; lia).
  rewrite <- Hsum.
  apply (ctx_exact _ (U * 1000000000 + N) (- 9) 18); [| |lia].
  - rewrite Hsum, pow_nonneg by lia.
    unfold Qabs, Qlt. simpl. lia.
  - rewrite Hsum, pow10_m9. unfold Qeq. simpl. lia.
Qed.

(** X1 -- A normalised quotation (nano below a unit and of the sign of the
    units) with units below 2^53 survives the round trip: it converts to the
    decimal of exactly its value, and that decimal converts back to the very
    same units and nano. *)
Theorem quotation_round_trip (q : Quotation.t) :
  normalised q -> (Z.abs (Quotation.units q) < 9007199254740992)%Z ->
  exists v : Decimal.t,
    quotation_to_decimal q = Ok v
    /\ v == quotation_value q
    /\ decimal_to_quotation v = Ok q.
Proof.
  intros Hn HU. pose proof Hn as [HN Hs].
  destruct (quotation_to_decimal_value q ltac:(lia) HN) as (v & Hv & Hval).
  exists v. split; [exact Hv|]. split; [exact Hval|].
  pose proof (quotation_value_billionths q) as Hk. rewrite <- Hval in Hk.
  destruct (normalised_quot_rem q Hn) as [Hq Hr].
  rewrite (decimal_to_quotation_succeeds v _ Hk).
  - rewrite Hq, Hr. now destruct q.
  - rewrite Hval. unfold quotation_value.
    assert (H1 : - (1) < Quotation.nano q # 1000000000 < 1)
      by (unfold Qlt; simpl; lia).
    assert (H2 : - (9007199254740991) <= inject_Z (Quotation.units q)
                 <= 9007199254740991).
    { split; [change (- (9007199254740991)) with (inject_Z (- 9007199254740991))
             |change 9007199254740991 with (inject_Z 9007199254740991)];
        rewrite <- Zle_Qle; lia. }
    apply Qabs_Qlt_condition. lra.
Qed.

Lemma quotation_round_trip_witness :
  exists v : Decimal.t,
    quotation_to_decimal {| Quotation.units := - 100; Quotation.nano := - 250000000 |}
    = Ok v
    /\ v == quotation_value
              {| Quotation.units := - 100; Quotation.nano := - 250000000 |}
    /\ decimal_to_quotation v
       = Ok {| Quotation.units := - 100; Quotation.nano := - 250000000 |}.
Proof.
  apply (quotation_round_trip
           {| Quotation.units := - 100; Quotation.nano := - 250000000 |}).
  - split; simpl; lia.
  - simpl. lia.
Defined.

(** X2 -- [quotation_to_decimal] never raises; its result is exactly
    units + nano / 10^9 when the units have at most 19 digits and the nano
    is below a unit, whatever their signs; with longer units the context
    rounds the sum (10^28 units and 1 nano give 10^28). *)
Theorem quotation_to_decimal_exact :
  (forall q : Quotation.t, exists v : Decimal.t, quotation_to_decimal q = Ok v)
  /\ (forall q : Quotation.t,
        (Z.abs (Quotation.units q) < 10000000000000000000)%Z ->
        (Z.abs (Quotation.nano q) < 1000000000)%Z ->
        exists v : Decimal.t,
          quotation_to_decimal q = Ok v /\ v == quotation_value q)
  /\ (exists (q : Quotation.t) (v : Decimal.t),
        quotation_to_decimal q = Ok v /\ ~ v == quotation_value q).
Proof.
  split; [|split].
  - intros q. rewrite quotation_to_decimal_Ok. eexists. reflexivity.
  - intros q HU HN. now apply quotation_to_decimal_value.
  - exists {| Quotation.units := 10000000000000000000000000000;
              Quotation.nano := 1 |}.
    eexists. split; [vm_compute; reflexivity|].
    intros H. vm_compute in H. discriminate H.
Qed.

Lemma quotation_to_decimal_exact_witness :
  exists v : Decimal.t,
    quotation_to_decimal {| Quotation.units := 1; Quotation.nano := - 500000000 |}
    = Ok v
    /\ v == quotation_value
              {| Quotation.units := 1; Quotation.nano := - 500000000 |}.
Proof.
  apply (proj1 (proj2 quotation_to_decimal_exact)
           {| Quotation.units := 1; Quotation.nano := - 500000000 |});
    simpl; lia.
Defined.

(** X3 -- Whenever [decimal_to_quotation] returns on a decimal with at most
    9 fractional digits, of any size, the quotation is normalised, its units
    are the value truncated toward zero, and it denotes exactly the value. *)
Theorem decimal_to_quotation_normalised (v : Decimal.t) (q : Quotation.t) :
  at_most_9_fractional_digits v ->
  decimal_to_quotation v = Ok q ->
  normalised q
  /\ Quotation.units q = Decimal.to_int v
  /\ quotation_value q == v.
Proof.
  intros (k & Hk) Hq.
  rewrite (decimal_to_quotation_parts v k q Hk Hq).
  split; [apply quot_rem_normalised|]. split.
  - cbn [Quotation.units]. symmetry. apply (decimal_parts v k Hk).
  - rewrite Hk. unfold quotation_value. cbn [Quotation.units Quotation.nano].
    pose proof (Z.quot_rem' k 1000000000) as Hqr.
    unfold Qeq. simpl. lia.
Qed.

Lemma decimal_to_quotation_normalised_witness :
  normalised {| Quotation.units := - 1; Quotation.nano := - 500000000 |}
  /\ Quotation.units {| Quotation.units := - 1; Quotation.nano := - 500000000 |}
     = Decimal.to_int (- (3 # 2))
  /\ quotation_value {| Quotation.units := - 1; Quotation.nano := - 500000000 |}
     == - (3 # 2).
Proof.
  apply (decimal_to_quotation_normalised (- (3 # 2))).
  - exists (- 1500000000)%Z. reflexivity.
  - vm_compute. reflexivity.
Defined.

(** X4 -- For a normalised quotation whose value is at least 2^19 and below
    2^53 in absolute value, [quotation_to_float] returns the float nearest
    to the exact value units + nano / 10^9: the two roundings of its
    computation (of the quotient, then of the sum) lose nothing against a
    single one. *)
Theorem quotation_to_float_correctly_rounded (q : Quotation.t) :
  normalised q ->
  524288 <= Qabs (quotation_value q) ->
  Qabs (quotation_value q) < 9007199254740992 ->
  quotation_to_float q = Ok (Float.of_decimal (quotation_value q)).
Proof.
  intros Hn Hlow Hhigh.
  set (v := quotation_value q) in *.
  pose proof (quotation_value_billionths q) as Hk. fold v in Hk.
  set (t := Rounding.ilog 2 (Qabs v)).
  assert (Hlo : Rounding.pow 2 t <= Qabs v) by (apply ilog_lower; [lia|lra]).
  assert (Hhi : Qabs v < Rounding.pow 2 (t + 1))
    by (apply ilog_upper; [lia|lra]).
  assert (Ht : (19 <= t <= 52)%Z).
  { split.
    - assert (H : Rounding.pow 2 19 < Rounding.pow 2 (t + 1)).
      { change (Rounding.pow 2 19) with 524288. lra. }
      apply pow_lt_inv in H; lia.
    - assert (H : Rounding.pow 2 t < Rounding.pow 2 53).
      { change (Rounding.pow 2 53) with 9007199254740992. lra. }
      apply pow_lt_inv in H; lia. }
  destruct (quotation_to_float_same v _ t Hk Ht Hlo Hhi) as (r & Hr & Hq).
  destruct (normalised_quot_rem q Hn) as [Hqt Hrm].
  rewrite Hqt, Hrm in Hq. rewrite Hr. destruct q. exact Hq.
Qed.

Lemma quotation_to_float_correctly_rounded_witness :
  quotation_to_float {| Quotation.units := 1000000; Quotation.nano := 100000001 |}
  = Ok (Float.of_decimal
          (quotation_value
             {| Quotation.units := 1000000; Quotation.nano := 100000001 |})).
Proof.
  apply (quotation_to_float_correctly_rounded
           {| Quotation.units := 1000000; Quotation.nano := 100000001 |}).
  - split; simpl; lia.
  - vm_compute. discriminate.
  - vm_compute. reflexivity.
Defined.

(** X27 -- For a normalised quotation whose value is below 2^19 in absolute
    value, [quotation_to_float] returns a finite float within
    2^-34 + 2^-54 of the exact value units + nano / 10^9, so within
    6 * 10^-11 of it. *)
Theorem quotation_to_float_accuracy (q : Quotation.t) :
  normalised q ->
  Qabs (quotation_value q) < 524288 ->
  exists r : Q,
    quotation_to_float q = Ok (Float.Finite r)
    /\ Qabs (r - quotation_value q)
       <= Rounding.pow 2 (- 34) + Rounding.pow 2 (- 54)
    /\ Qabs (r - quotation_value q) < 6 # 100000000000.
Proof.
  intros Hn Hb.
  pose proof (quotation_value_billionths q) as Hk.
  destruct (quotation_to_float_close (quotation_value q) _ Hk Hb)
    as (r & Hr & He).
  destruct (normalised_quot_rem q Hn) as [Hqt Hrm].
  rewrite Hqt, Hrm in Hr.
  exists r. split; [now destruct q|]. split; [exact He|].
  eapply Qle_lt_trans; [exact He|]. reflexivity.
Qed.

Lemma quotation_to_float_accuracy_witness :
  exists r : Q,
    quotation_to_float {| Quotation.units := 100; Quotation.nano := 250000001 |}
    = Ok (Float.Finite r)
    /\ Qabs (r - quotation_value
                   {| Quotation.units := 100; Quotation.nano := 250000001 |})
       <= Rounding.pow 2 (- 34) + Rounding.pow 2 (- 54)
    /\ Qabs (r - quotation_value
                   {| Quotation.units := 100; Quotation.nano := 250000001 |})
       < 6 # 100000000000.
Proof.
  apply (quotation_to_float_accuracy
           {| Quotation.units := 100; Quotation.nano := 250000001 |}).
  - split; simpl; lia.
  - reflexivity.
Defined.

End Codec.

(** ** The position at startup *)

Lemma get_initial_position_loop_app (l1 l2 : list PositionsSecurities.t)
    (instrument : Share.t) (position : Z) :
  get_initial_position_loop (l1 ++ l2) instrument position
  = rbind (get_initial_position_loop l1 instrument position)
          (get_initial_position_loop l2 instrument).
Proof.
  revert position. induction l1 as [|s l1 IH]; intros position; simpl;
    [reflexivity|].
  case_bool_decide; [|apply IH].
  destruct (floordiv _ _) as [p|e]; simpl; [apply IH | reflexivity].
Qed.

Lemma get_initial_position_loop_no_match (l : list PositionsSecurities.t)
    (instrument : Share.t) (position : Z) :
  Forall (fun s => PositionsSecurities.figi s <> Share.figi instrument) l ->
  get_initial_position_loop l instrument position = Ok position.
Proof.
  induction 1 as [|s l Hs _ IH]; simpl; [reflexivity|].
  now rewrite bool_decide_eq_false_2.
Qed.

Lemma get_initial_position_loop_Ok (l : list PositionsSecurities.t)
    (instrument : Share.t) (position : Z) :
  Share.lot instrument <> 0 ->
  exists p : Z, get_initial_position_loop l instrument position = Ok p.
Proof.
  intros Hlot. revert position.
  induction l as [|s l IH]; intros position; simpl; [now eexists|].
  case_bool_decide; [|apply IH].
  unfold floordiv. rewrite (proj2 (Z.eqb_neq _ _) Hlot). simpl. apply IH.
Qed.

Lemma get_initial_position_loop_lot_0 (l : list PositionsSecurities.t)
    (instrument : Share.t) (position : Z) :
  Share.lot instrument = 0 ->
  Exists (fun s => PositionsSecurities.figi s = Share.figi instrument) l ->
  get_initial_position_loop l instrument position = Raise ZeroDivisionError.
Proof.
  intros Hlot. induction 1 as [s l Hs|s l _ IH]; simpl.
  - rewrite bool_decide_eq_true_2 by exact Hs.
    unfold floordiv. now rewrite Hlot.
  - case_bool_decide; [|exact IH].
    unfold floordiv. now rewrite Hlot.
Qed.

(** X5 -- [get_initial_position] gives 0 when no security of the response
    has the instrument's figi (whatever the lot); otherwise the balance of
    the last such security floor-divided by the lot, so the p with
    lot * p <= balance < lot * (p + 1) for a positive lot; and it raises
    ZeroDivisionError when the lot is 0 and some security has the figi. *)
Theorem get_initial_position_last_match (instrument : Share.t) :
  (forall securities : list PositionsSecurities.t,
     Forall (fun s => PositionsSecurities.figi s <> Share.figi instrument)
            securities ->
     get_initial_position securities instrument = Ok 0)
  /\ (forall (l1 l2 : list PositionsSecurities.t) (s : PositionsSecurities.t),
        PositionsSecurities.figi s = Share.figi instrument ->
        Forall (fun s' => PositionsSecurities.figi s' <> Share.figi instrument)
               l2 ->
        Share.lot instrument <> 0 ->
        exists p : Z,
          get_initial_position (l1 ++ s :: l2) instrument = Ok p
          /\ p = PositionsSecurities.balance s / Share.lot instrument
          /\ (0 < Share.lot instrument ->
              Share.lot instrument * p <= PositionsSecurities.balance s
              < Share.lot instrument * (p + 1)))
  /\ (forall securities : list PositionsSecurities.t,
        Exists (fun s => PositionsSecurities.figi s = Share.figi instrument)
               securities ->
        Share.lot instrument = 0 ->
        get_initial_position securities instrument = Raise ZeroDivisionError).
Proof.
  split; [|split].
  - intros securities H. now apply get_initial_position_loop_no_match.
  - intros l1 l2 s Hs Hl2 Hlot.
    exists (PositionsSecurities.balance s / Share.lot instrument).
    split; [|split; [reflexivity|]].
    + unfold get_initial_position. rewrite get_initial_position_loop_app.
      destruct (get_initial_position_loop_Ok l1 instrument 0 Hlot) as (p1 & ->).
      simpl. rewrite bool_decide_eq_true_2 by exact Hs.
      unfold floordiv. rewrite (proj2 (Z.eqb_neq _ _) Hlot). simpl.
      now apply get_initial_position_loop_no_match.
    + intros Hpos.
      pose proof (Z.div_mod (PositionsSecurities.balance s)
                    (Share.lot instrument) Hlot).
      pose proof (Z.mod_pos_bound (PositionsSecurities.balance s)
                    (Share.lot instrument) Hpos).
      lia.
  - intros securities Hex Hlot.
    now apply get_initial_position_loop_lot_0.
Qed.

Lemma get_initial_position_last_match_witness :
  exists p : Z,
    get_initial_position
      ([{| PositionsSecurities.figi := "A"; PositionsSecurities.balance := 70 |}]
       ++ {| PositionsSecurities.figi := "A"; PositionsSecurities.balance := 15 |}
       :: [{| PositionsSecurities.figi := "B"; PositionsSecurities.balance := 40 |}])
      {| Share.figi := "A"; Share.lot := 10;
         Share.min_price_increment :=
           {| Quotation.units := 0; Quotation.nano := 10000000 |} |}
    = Ok p
    /\ p = 15 / 10
    /\ (0 < 10 -> 10 * p <= 15 < 10 * (p + 1)).
Proof.
  apply (proj1 (proj2 (get_initial_position_last_match
           {| Share.figi := "A"; Share.lot := 10;
              Share.min_price_increment :=
                {| Quotation.units := 0; Quotation.nano := 10000000 |} |}))).
  - reflexivity.
  - constructor; [discriminate | constructor].
  - simpl. lia.
Defined.

(** X6 -- Startup with the position the broker reports: with a positive lot
    and [s] the last security of the instrument, the construction of the
    strategy on the position [get_initial_position] computed passes its
    assertion exactly when 0 <= balance < 2 * lot, and then starts in BUY
    below one lot and in SELL from one lot on. *)
Theorem startup_position_accepted
    (l1 l2 : list PositionsSecurities.t) (s : PositionsSecurities.t)
    (instrument : Share.t) (p : Z) (w : World) :
  PositionsSecurities.figi s = Share.figi instrument ->
  Forall (fun s' => PositionsSecurities.figi s' <> Share.figi instrument) l2 ->
  0 < Share.lot instrument ->
  get_initial_position (l1 ++ s :: l2) instrument = Ok p ->
  Position.qty (position w) = p ->
  let start := Strategy__init__ (Share.min_price_increment instrument) w in
  let balance := PositionsSecurities.balance s in
  (0 <= balance < Share.lot instrument ->
   snd start = Ok tt /\ action (fst start) = Action.BUY)
  /\ (Share.lot instrument <= balance < 2 * Share.lot instrument ->
      snd start = Ok tt /\ action (fst start) = Action.SELL)
  /\ (balance < 0 \/ 2 * Share.lot instrument <= balance ->
      snd start = Raise AssertionError).
Proof.
  intros Hs Hl2 Hlot Hp Hw start balance.
  destruct (get_initial_position_loop_Ok l1 instrument 0 ltac:(lia))
    as (p1 & Hp1).
  assert (Hdiv : p = balance / Share.lot instrument).
  { unfold get_initial_position in Hp.
    rewrite get_initial_position_loop_app, Hp1 in Hp. simpl in Hp.
    rewrite bool_decide_eq_true_2 in Hp by exact Hs.
    unfold floordiv in Hp.
    assert (Hne : Share.lot instrument <> 0) by lia.
    rewrite (proj2 (Z.eqb_neq _ _) Hne) in Hp.
    simpl in Hp.
    rewrite get_initial_position_loop_no_match in Hp by exact Hl2.
    now injection Hp as <-. }
  pose proof (Z.div_mod balance (Share.lot instrument) ltac:(lia)) as Hdm.
  pose proof (Z.mod_pos_bound balance (Share.lot instrument) Hlot) as Hmb.
  rewrite <- Hdiv in Hdm.
  unfold start. rewrite Strategy__init___run. cbv zeta. rewrite Hw.
  split; [|split]; intros Hb.
  - assert (p = 0) as -> by nia.
    rewrite bool_decide_eq_true_2 by (rewrite !elem_of_cons; auto). now split.
  - assert (p = 1) as -> by nia.
    rewrite bool_decide_eq_true_2 by (rewrite !elem_of_cons; auto). now split.
  - assert (p <> 0 /\ p <> 1) as [H0 H1] by nia.
    rewrite bool_decide_eq_false_2; [reflexivity|].
    rewrite !elem_of_cons, elem_of_nil. tauto.
Qed.

Lemma startup_position_accepted_witness :
  let start :=
    Strategy__init__ {| Quotation.units := 0; Quotation.nano := 10000000 |}
      (set_position {| Position.qty := 1 |} ex_world_start) in
  (0 <= 15 < 10 -> snd start = Ok tt /\ action (fst start) = Action.BUY)
  /\ (10 <= 15 < 2 * 10 -> snd start = Ok tt /\ action (fst start) = Action.SELL)
  /\ (15 < 0 \/ 2 * 10 <= 15 -> snd start = Raise AssertionError).
Proof.
  apply (startup_position_accepted
           [{| PositionsSecurities.figi := "A"; PositionsSecurities.balance := 70 |}]
           [{| PositionsSecurities.figi := "B"; PositionsSecurities.balance := 40 |}]
           {| PositionsSecurities.figi := "A"; PositionsSecurities.balance := 15 |}
           {| Share.figi := "A"; Share.lot := 10;
              Share.min_price_increment :=
                {| Quotation.units := 0; Quotation.nano := 10000000 |} |}
           1 (set_position {| Position.qty := 1 |} ex_world_start)).
  - reflexivity.
  - constructor; [discriminate | constructor].
  - simpl. lia.
  - reflexivity.
  - reflexivity.
Defined.

(** ** More of the ledger *)

Lemma ltb_ge_false (a b : Decimal.t) : (b <= a)%Q -> Decimal.ltb a b = false.
Proof.
  intros H. unfold Decimal.ltb. apply negb_false_iff. now apply Qle_bool_iff.
Qed.

Lemma insert_reverse_front (x : addr * Order.t) (l : list (addr * Order.t)) :
  (forall y, head l = Some y -> (sort_key (snd y) <= sort_key (snd x))%Q) ->
  insert_reverse x l = x :: l.
Proof.
  destruct l as [|y l]; intros H; simpl; [reflexivity|].
  now rewrite ltb_ge_false by (apply H; reflexivity).
Qed.

(** A sorted sequence with [x] appended, sorted again: [x] goes behind the
    items whose key is at least its own and ahead of the others, and nothing
    else moves. *)
Lemma sort_reverse_snoc (x : addr * Order.t) (l : list (addr * Order.t)) :
  StronglySorted key_ge l ->
  exists l1 l2 : list (addr * Order.t),
    l = l1 ++ l2
    /\ sort_reverse (l ++ [x]) = l1 ++ x :: l2
    /\ Forall (fun p => (sort_key (snd x) <= sort_key (snd p))%Q) l1
    /\ Forall (fun p => (sort_key (snd p) < sort_key (snd x))%Q) l2.
Proof.
  unfold sort_reverse. rewrite foldr_app. simpl.
  induction 1 as [|y l Hs IH Hy].
  - exists [], []. simpl. repeat split; constructor.
  - destruct IH as (l1 & l2 & -> & IH & H1 & H2). simpl. rewrite IH.
    destruct (Decimal.ltb (sort_key (snd y)) (sort_key (snd x))) eqn:E.
    + pose proof (ltb_true_lt _ _ E) as E'.
      assert (Hl1 : l1 = []).
      { destruct l1 as [|p l1]; [reflexivity|]. exfalso.
        apply Forall_cons in H1 as [Hp _]. apply Forall_cons in Hy as [Hyp _].
        unfold key_ge in Hyp. simpl in *. lra. }
      subst l1. simpl in *. exists [], (y :: l2). simpl. rewrite E.
      split; [reflexivity|]. split.
      * f_equal. apply insert_reverse_front. intros p Hp.
        destruct l2 as [|p' l2]; [discriminate|]. injection Hp as <-.
        apply Forall_cons in Hy as [Hyp _]. exact Hyp.
      * split; [constructor|]. constructor; [exact E' | exact H2].
    + apply ltb_false_ge in E. exists (y :: l1), l2. simpl.
      split; [reflexivity|]. split.
      * apply insert_reverse_front. intros p Hp.
        destruct l1 as [|p' l1]; simpl in Hp; injection Hp as <-; [exact E|].
        apply Forall_cons in Hy as [Hyp _]. exact Hyp.
      * split; [constructor; [exact E | exact H1] | exact H2].
Qed.

Lemma objects_elem_of (h : list Order.t) (l : list addr)
    (ps : list (addr * Order.t)) (a : addr) (o : Order.t) :
  ps ⊆ objects h l -> a ∈ ps.*1 -> h !! a = Some o -> (a, o) ∈ ps.
Proof.
  intros Hsub Ha Ho. apply list_elem_of_fmap in Ha as ([a' o'] & -> & Hp).
  pose proof (objects_lookup h l) as Hl.
  rewrite Forall_forall in Hl. specialize (Hl _ (Hsub _ Hp)). simpl in *.
  now replace o with o' by congruence.
Qed.

(** Where [create_pending_order] places the new order, by the keys of the
    sort. *)
Lemma create_pending_order_placement (request : NewOrder.t) (w : World) :
  heap_wf w -> ledger_sorted w ->
  let side := NewOrder.side request in
  let new := length (heap w) in
  let w' := fst (create_pending_order request w) in
  exists l1 l2 : list addr,
    by_side w side = l1 ++ l2
    /\ by_side w' side = l1 ++ new :: l2
    /\ (forall (a : addr) (o : Order.t),
          a ∈ l1 -> heap w !! a = Some o ->
          (sort_key (pending_order_of request) <= sort_key o)%Q)
    /\ (forall (a : addr) (o : Order.t),
          a ∈ l2 -> heap w !! a = Some o ->
          (sort_key o < sort_key (pending_order_of request))%Q)
    /\ (forall s : Side.t, s <> side -> by_side w' s = by_side w s)
    /\ (forall (a : addr) (o : Order.t),
          heap w !! a = Some o -> heap w' !! a = Some o)
    /\ heap w' !! new = Some (pending_order_of request).
Proof.
  intros Hwf Hsorted side new w'.
  unfold w'. rewrite create_pending_order_run by exact Hwf. cbn [fst].
  destruct (sort_reverse_snoc (new, pending_order_of request)
              (objects (heap w) (by_side w side)) (Hsorted side))
    as (p1 & p2 & Hsplit & Hsort & H1 & H2).
  exists p1.*1, p2.*1.
  assert (Hby : by_side w side = p1.*1 ++ p2.*1).
  { rewrite <- fmap_app, <- Hsplit. symmetry. apply objects_fst, (Hwf side). }
  split; [exact Hby|]. split.
  { unfold side. rewrite with_pending_side. fold side new. rewrite Hsort.
    now rewrite fmap_app. }
  split; [|split; [|split; [|split]]].
  - intros a o Ha Ho.
    assert (Hin : (a, o) ∈ p1).
    { apply (objects_elem_of (heap w) (by_side w side)); [|exact Ha|exact Ho].
      rewrite Hsplit. intros p Hp. apply elem_of_app. now left. }
    rewrite Forall_forall in H1. exact (H1 _ Hin).
  - intros a o Ha Ho.
    assert (Hin : (a, o) ∈ p2).
    { apply (objects_elem_of (heap w) (by_side w side)); [|exact Ha|exact Ho].
      rewrite Hsplit. intros p Hp. apply elem_of_app. now right. }
    rewrite Forall_forall in H2. exact (H2 _ Hin).
  - intros s Hs. now apply with_pending_other_side.
  - intros a o Ho. unfold with_pending. cbn.
    rewrite lookup_app_l; [exact Ho|]. eapply lookup_lt_Some; eauto.
  - unfold with_pending. cbn. now apply list_lookup_middle.
Qed.

Lemma ex_world_two_buys_sorted : ledger_sorted ex_world_two_buys.
Proof.
  intros []; unfold side_sorted; cbn; sorted_by_computation.
Qed.

Example create_pending_order_same_price :
  by_side (fst (create_pending_order ex_buy_100 ex_world_two_buys)) Side.BUY
  = [0%nat; 1%nat; 2%nat].
Proof. vm_compute. reflexivity. Qed.

(** ** What the strategy leaves as it is *)

#[local] Instance orders_kept_refl : Reflexive orders_kept.
Proof. intros w. now split. Qed.

#[local] Instance orders_kept_trans : Transitive orders_kept.
Proof. intros w1 w2 w3 [H1 H2] [H3 H4]. split; congruence. Qed.

#[local] Instance books_kept_refl : Reflexive books_kept.
Proof. intros w. repeat split. Qed.

#[local] Instance books_kept_trans : Transitive books_kept.
Proof.
  intros w1 w2 w3 (H1 & H2 & H3) (H4 & H5 & H6).
  split; [etransitivity; eassumption | split; congruence].
Qed.

#[local] Instance log_grows_refl : Reflexive log_grows.
Proof. intros w. exists []. now rewrite app_nil_r. Qed.

#[local] Instance log_grows_trans : Transitive log_grows.
Proof.
  intros w1 w2 w3 [r1 H1] [r2 H2]. exists (r1 ++ r2).
  now rewrite H2, H1, app_assoc.
Qed.

#[local] Instance queue_grows_0_refl : Reflexive (queue_grows 0).
Proof. intros w. exists []. now rewrite app_nil_r. Qed.

#[local] Instance queue_grows_0_trans : Transitive (queue_grows 0).
Proof.
  intros w1 w2 w3 (r1 & H1 & L1) (r2 & H2 & L2).
  destruct r1; [|simpl in L1; lia]. destruct r2; [|simpl in L2; lia].
  exists []. rewrite H2, H1. now rewrite !app_nil_r.
Qed.

Lemma frame_weaken {A} (R R' : World -> World -> Prop) (m : M A) :
  (forall w w', R w w' -> R' w w') -> frame R m -> frame R' m.
Proof. intros H Hm w. apply H, Hm. Qed.

Lemma books_kept_orders (w w' : World) : books_kept w w' -> orders_kept w w'.
Proof. now intros [H _]. Qed.

(** A setter that leaves the heap, the ledger, the position and the market
    side, and the relations it keeps. *)
Ltac footprint_modify :=
  apply frame_modify; intros ?;
  first [ solve [repeat split]
        | solve [exists []; cbn; now rewrite app_nil_r]
        | solve [exists []; split; [cbn; now rewrite app_nil_r | simpl; lia]]
        | solve [eexists; reflexivity] ].

Ltac footprint_step :=
  match goal with
  | |- frame _ (modify _) => footprint_modify
  | |- frame _ (logging _ _ _) => unfold logging; footprint_modify
  | |- _ => frame_step
  end.

Ltac footprint := repeat footprint_step.

Section Footprint.

Context (R : World -> World -> Prop) `{!Reflexive R} `{!Transitive R}.
Hypothesis R_logging : forall name level message,
  frame R (logging name level message).
Hypothesis R_set_action : forall x, frame R (modify (set_action x)).

Lemma footprint_best_px side : frame R (best_px side).
Proof. unfold best_px. footprint. Qed.

Lemma footprint_get_all_orders : frame R get_all_orders.
Proof. unfold get_all_orders. footprint. Qed.

Lemma footprint_is_any_pending : frame R is_any_pending.
Proof.
  pose proof footprint_get_all_orders. unfold is_any_pending. footprint.
Qed.

Lemma footprint_buy_or_sell_action :
  (forall order, frame R (post_order order)) -> frame R buy_or_sell_action.
Proof.
  intros Hpost. pose proof footprint_best_px.
  unfold buy_or_sell_action. footprint.
Qed.

Lemma footprint_possible_cancel_action :
  (forall order, frame R (cancel_order order)) ->
  frame R possible_cancel_action.
Proof.
  intros Hcancel. pose proof footprint_best_px.
  pose proof footprint_get_all_orders.
  unfold possible_cancel_action. footprint.
Qed.

Lemma footprint_on_orderbook_update :
  (forall order, frame R (post_order order)) ->
  (forall order, frame R (cancel_order order)) ->
  frame R on_orderbook_update.
Proof.
  intros Hpost Hcancel.
  pose proof (footprint_buy_or_sell_action Hpost).
  pose proof (footprint_possible_cancel_action Hcancel).
  pose proof footprint_is_any_pending.
  unfold on_orderbook_update. footprint.
Qed.

Lemma footprint_on_order_event order_event :
  (forall order, frame R (post_order order)) ->
  frame R (on_order_event order_event).
Proof.
  intros Hpost. pose proof (footprint_buy_or_sell_action Hpost).
  unfold on_order_event. footprint.
Qed.

End Footprint.

Lemma books_kept_logging name level message :
  frame books_kept (logging name level message).
Proof. footprint. Qed.

Lemma books_kept_set_action x : frame books_kept (modify (set_action x)).
Proof. footprint. Qed.

Lemma books_kept_post_order order : frame books_kept (post_order order).
Proof. unfold post_order. footprint. Qed.

Lemma books_kept_cancel_order order : frame books_kept (cancel_order order).
Proof. unfold cancel_order. footprint. Qed.

Lemma log_grows_logging name level message :
  frame log_grows (logging name level message).
Proof. footprint. Qed.

Lemma log_grows_set_action x : frame log_grows (modify (set_action x)).
Proof. footprint. Qed.

Lemma log_grows_post_order order : frame log_grows (post_order order).
Proof. pose proof log_grows_logging. unfold post_order. footprint. Qed.

Lemma log_grows_cancel_order order : frame log_grows (cancel_order order).
Proof. pose proof log_grows_logging. unfold cancel_order. footprint. Qed.

Lemma queue_kept_logging name level message :
  frame (queue_grows 0) (logging name level message).
Proof. footprint. Qed.

Lemma queue_kept_set_action x : frame (queue_grows 0) (modify (set_action x)).
Proof. footprint. Qed.

(** Sequencing a computation that adds up to [n] requests with ones that
    add none. *)
Lemma queue_bind_l {A B} (n : nat) (m : M A) (k : A -> M B) :
  frame (queue_grows 0) m -> (forall a, frame (queue_grows n) (k a)) ->
  frame (queue_grows n) (bind m k).
Proof.
  intros Hm Hk w. unfold bind. specialize (Hm w).
  destruct (m w) as [w1 [a|e]]; simpl in *.
  - destruct Hm as (r1 & H1 & L1). destruct r1; [|simpl in L1; lia].
    rewrite app_nil_r in H1. destruct (Hk a w1) as (r2 & H2 & L2).
    exists r2. now rewrite H2, H1.
  - destruct Hm as (r1 & H1 & L1). exists r1. split; [exact H1 | lia].
Qed.

Lemma queue_bind_r {A B} (n : nat) (m : M A) (k : A -> M B) :
  frame (queue_grows n) m -> (forall a, frame (queue_grows 0) (k a)) ->
  frame (queue_grows n) (bind m k).
Proof.
  intros Hm Hk w. unfold bind. specialize (Hm w).
  destruct (m w) as [w1 [a|e]]; simpl in *; [|exact Hm].
  destruct Hm as (r1 & H1 & L1). destruct (Hk a w1) as (r2 & H2 & L2).
  destruct r2; [|simpl in L2; lia]. rewrite app_nil_r in H2.
  exists r1. now rewrite H2.
Qed.

Lemma queue_weaken {A} (n : nat) (m : M A) :
  frame (queue_grows 0) m -> frame (queue_grows n) m.
Proof.
  apply frame_weaken. intros w w' (rs & H & L). exists rs. split; [exact H|lia].
Qed.

Lemma queue_grows_post_order order : frame (queue_grows 1) (post_order order).
Proof.
  unfold post_order. apply queue_bind_l; [apply queue_kept_logging|].
  intros _ w. eexists. split; [reflexivity | simpl; lia].
Qed.

Lemma queue_grows_cancel_order order : frame (queue_grows 1) (cancel_order order).
Proof.
  unfold cancel_order. apply queue_bind_l; [apply queue_kept_logging|].
  intros _ w. eexists. split; [reflexivity | simpl; lia].
Qed.

#[local] Hint Resolve queue_kept_logging queue_kept_set_action : frame.

Ltac queue_step :=
  match goal with
  | H : frame ?R ?m |- frame ?R ?m => exact H
  | |- frame (queue_grows 1) (post_order _) => apply queue_grows_post_order
  | |- frame (queue_grows 1) (cancel_order _) => apply queue_grows_cancel_order
  | |- frame (queue_grows 1) (bind (post_order _) _) =>
      apply queue_bind_r; [apply queue_grows_post_order | intros ?]
  | |- frame (queue_grows 1) (bind _ _) => apply queue_bind_l; [|intros ?]
  | |- frame (queue_grows 1) (if ?b then _ else _) => destruct b
  | |- frame (queue_grows 1) (match ?x with _ => _ end) => destruct x
  | |- frame (queue_grows 1) _ => apply queue_weaken
  | |- frame (queue_grows 0) (best_px _) =>
      apply footprint_best_px; auto with frame typeclass_instances
  | |- frame (queue_grows 0) get_all_orders =>
      apply footprint_get_all_orders; auto with frame typeclass_instances
  | |- frame (queue_grows 0) is_any_pending =>
      apply footprint_is_any_pending; auto with frame typeclass_instances
  | |- _ => footprint_step
  end.

Lemma queue_grows_buy_or_sell_action : frame (queue_grows 1) buy_or_sell_action.
Proof. unfold buy_or_sell_action. repeat queue_step. Qed.

Lemma queue_grows_possible_cancel_action :
  frame (queue_grows 1) possible_cancel_action.
Proof. unfold possible_cancel_action. repeat queue_step. Qed.

(** X8 -- What the strategy's callbacks touch: neither [on_orderbook_update]
    nor [on_order_event], returning or raising, changes an order object,
    the ledger, the position or the book; each one appends at most one
    request to the submission queue, behind those waiting, and only adds
    lines to the log. *)
Theorem strategy_callbacks_footprint (w : World) :
  (let w' := fst (on_orderbook_update w) in
   books_kept w w' /\ queue_grows 1 w w' /\ log_grows w w')
  /\ (forall order_event : OrderEvent.t,
        let w' := fst (on_order_event order_event w) in
        books_kept w w' /\ queue_grows 1 w w' /\ log_grows w w').
Proof.
  pose proof queue_grows_buy_or_sell_action as Hbuy.
  pose proof queue_grows_possible_cancel_action as Hcancel.
  assert (Hb1 : frame books_kept on_orderbook_update)
    by (apply footprint_on_orderbook_update; try typeclasses eauto;
        auto using books_kept_logging, books_kept_set_action,
          books_kept_post_order, books_kept_cancel_order).
  assert (Hq1 : frame (queue_grows 1) on_orderbook_update)
    by (unfold on_orderbook_update; repeat queue_step).
  assert (Hl1 : frame log_grows on_orderbook_update)
    by (apply footprint_on_orderbook_update; try typeclasses eauto;
        auto using log_grows_logging, log_grows_set_action,
          log_grows_post_order, log_grows_cancel_order).
  split; [repeat split; [apply Hb1 | apply Hb1 | apply Hb1 | apply Hb1
                        | apply Hq1 | apply Hl1]|].
  intros order_event.
  assert (Hb2 : frame books_kept (on_order_event order_event))
    by (apply footprint_on_order_event; try typeclasses eauto;
        auto using books_kept_logging, books_kept_set_action,
          books_kept_post_order).
  assert (Hq2 : frame (queue_grows 1) (on_order_event order_event))
    by (unfold on_order_event; repeat queue_step).
  assert (Hl2 : frame log_grows (on_order_event order_event))
    by (apply footprint_on_order_event; try typeclasses eauto;
        auto using log_grows_logging, log_grows_set_action,
          log_grows_post_order).
  cbv zeta. split; [apply Hb2 | split; [apply Hq2 | apply Hl2]].
Qed.

(** ** Notifications *)

Lemma best_px_error (side : Side.t) (w : World) :
  best_quote w side = None ->
  best_px side w
  = (w, Raise match ob w with Some _ => IndexError | None => AttributeError end).
Proof.
  unfold best_quote, best_px, bind, get. cbn [fst snd].
  destruct (ob w) as [book|]; [|reflexivity].
  destruct (if bool_decide (side = Side.BUY) then _ else _) as [|q l];
    [reflexivity | discriminate].
Qed.

Lemma buy_or_sell_action_error (w : World) :
  best_quote w (side_from_position w) = None ->
  buy_or_sell_action w
  = (set_action (state_from_position w) w,
     Raise match ob w with Some _ => IndexError | None => AttributeError end).
Proof.
  intros Hq. unfold buy_or_sell_action.
  unfold bind at 1, get. cbn [fst snd].
  unfold bind at 1, modify. fold (state_from_position w).
  unfold bind at 1. cbn [fst snd].
  change (action (set_action (state_from_position w) w))
    with (state_from_position w).
  rewrite get_side_state_from_position.
  unfold bind at 1, lift. unfold bind at 1.
  now rewrite (best_px_error (side_from_position w)
                 (set_action (state_from_position w) w) Hq).
Qed.

Lemma update_by_filled_order_run (order : addr) (o : Order.t) (w : World) :
  heap w !! order = Some o ->
  update_by_filled_order order w
  = (set_position
       {| Position.qty :=
            Position.qty (position w) + Order.qty o * Side.value (Order.side o) |}
       w, Ok tt).
Proof.
  intros Ho. unfold update_by_filled_order.
  now rewrite (bind_Ok _ _ w w o) by (now apply deref_Some).
Qed.

Lemma orders_kept_update_by_filled_order order :
  frame orders_kept (update_by_filled_order order).
Proof. unfold update_by_filled_order. footprint. Qed.

Lemma orders_kept_on_order_event order_event :
  frame orders_kept (on_order_event order_event).
Proof.
  apply (frame_weaken books_kept); [apply books_kept_orders|].
  apply footprint_on_order_event; try typeclasses eauto;
    auto using books_kept_logging, books_kept_set_action, books_kept_post_order.
Qed.

Lemma orders_kept_wf (w w' : World) : orders_kept w w' -> heap_wf w -> heap_wf w'.
Proof.
  intros [Hh Ho] Hwf s. unfold by_side, allocated. rewrite Ho, Hh. apply Hwf.
Qed.

Lemma purged_no_terminal (w : World) : ~ terminal_in_ledger (purged w).
Proof.
  intros (s & a & o & Ha & Ho & Hact).
  assert (Hin : a ∈ (active_objects (heap w) (by_side w s)).*1)
    by (destruct s; exact Ha).
  apply list_elem_of_fmap in Hin as ([a' o'] & -> & Hp).
  pose proof (active_objects_lookup (heap w) (by_side w s)) as Hl.
  rewrite Forall_forall in Hl. specialize (Hl _ Hp). simpl in *.
  change (heap (purged w)) with (heap w) in Ho.
  replace o' with o in Hp by congruence.
  unfold active_objects in Hp. apply list_elem_of_filter in Hp as [Hp _].
  simpl in Hp. congruence.
Qed.

Lemma purged_by_side (w : World) (s : Side.t) :
  by_side (purged w) s = (active_objects (heap w) (by_side w s)).*1.
Proof. now destruct s. Qed.




(** X10 -- A notification of a FILLED or CANCELLED event while the book has
    no quote on the side the strategy trades next fails in the strategy:
    IndexError when that side of the book is empty, AttributeError when no
    book has been received.  The position has then already been updated
    for a fill, the strategy is left in BUY or SELL rather than WAIT,
    nothing is queued, and the purge is skipped: the ledger still holds the
    terminal order. *)
Theorem notify_strategy_failure
    (order_event : OrderEvent.t) (o : Order.t) (w : World) :
  OrderEvent.event_type order_event
  ∈ [OrderEventType.FILLED; OrderEventType.CANCELLED] ->
  heap w !! OrderEvent.order order_event = Some o ->
  let qty' := Position.qty (position w) + fill_delta w (Some order_event) in
  best_quote w (if qty' =? 0 then Side.BUY else Side.SELL) = None ->
  let w' := fst (_notify_strategy (Some order_event) w) in
  snd (_notify_strategy (Some order_event) w)
  = Raise match ob w with Some _ => IndexError | None => AttributeError end
  /\ orders_kept w w'
  /\ Position.qty (position w') = qty'
  /\ order_queue w' = order_queue w
  /\ action w' = (if qty' =? 0 then Action.BUY else Action.SELL).
Proof.
  intros Hty Ho qty' Hq w'. unfold w', qty' in *. clear w' qty'.
  unfold _notify_strategy, fill_delta in *. rewrite Ho in *.
  destruct (bool_decide (OrderEvent.event_type order_event = OrderEventType.FILLED)).
  - rewrite (bind_Ok _ _ w _ tt (update_by_filled_order_run _ o w Ho)).
    set (w1 := set_position _ w) in *.
    assert (He : on_order_event order_event w1
                 = (set_action (state_from_position w1)
                      (event_logged order_event w1),
                    Raise match ob w with
                          | Some _ => IndexError | None => AttributeError end)).
    { rewrite on_order_event_run, bool_decide_eq_true_2 by exact Hty.
      now rewrite buy_or_sell_action_error by exact Hq. }
    rewrite (bind_Raise _ _ _ _ _ He). cbn [fst snd].
    repeat split.
  - rewrite Z.add_0_r in *.
    rewrite (bind_Ok _ _ w w tt) by reflexivity.
    assert (He : on_order_event order_event w
                 = (set_action (state_from_position w)
                      (event_logged order_event w),
                    Raise match ob w with
                          | Some _ => IndexError | None => AttributeError end)).
    { rewrite on_order_event_run, bool_decide_eq_true_2 by exact Hty.
      now rewrite buy_or_sell_action_error by exact Hq. }
    rewrite (bind_Raise _ _ _ _ _ He). cbn [fst snd].
    repeat split.
Qed.

Lemma notify_strategy_failure_witness :
  let w := set_orders {| Orders.by_side_BUY := [0%nat]; Orders.by_side_SELL := [] |}
             (set_heap [Order.set_status OrderStatus.CANCELLED ex_order_open]
                ex_world_no_bids) in
  let order_event :=
    {| OrderEvent.event_type := OrderEventType.CANCELLED;
       OrderEvent.order := 0%nat |} in
  let qty' := Position.qty (position w) + fill_delta w (Some order_event) in
  let w' := fst (_notify_strategy (Some order_event) w) in
  snd (_notify_strategy (Some order_event) w)
  = Raise match ob w with Some _ => IndexError | None => AttributeError end
  /\ orders_kept w w'
  /\ Position.qty (position w') = qty'
  /\ order_queue w' = order_queue w
  /\ action w' = (if qty' =? 0 then Action.BUY else Action.SELL).
Proof.
  intros w order_event.
  refine (notify_strategy_failure order_event
            (Order.set_status OrderStatus.CANCELLED ex_order_open) w _ _ _).
  - repeat constructor.
  - reflexivity.
  - reflexivity.
Defined.

Lemma heap_wf_insert (a : addr) (o : Order.t) (w : World) :
  heap_wf w -> heap_wf (set_heap (<[a := o]> (heap w)) w).
Proof.
  intros Hwf s. eapply Forall_impl; [apply (Hwf s)|].
  intros b [ob Hb]. unfold allocated. cbn.
  apply lookup_lt_is_Some. rewrite length_insert.
  eapply lookup_lt_Some; eauto.
Qed.

Lemma purged_not_in (w : World) (s : Side.t) (a : addr) (o : Order.t) :
  heap w !! a = Some o -> OrderStatus.is_active (Order.status o) = false ->
  a ∉ by_side (purged w) s.
Proof.
  intros Ho Hact Hin. apply (purged_no_terminal w). now exists s, a, o.
Qed.

(** A CANCELLED event notified while the book has a quote for the next
    order. *)
Lemma notify_cancelled_run (a : addr) (px : Decimal.t) (w : World) :
  heap_wf w ->
  best_quote w (side_from_position w) = Some px ->
  let order_event := {| OrderEvent.event_type := OrderEventType.CANCELLED;
                        OrderEvent.order := a |} in
  _notify_strategy (Some order_event) w
  = (purged (after_submission (single_lot (side_from_position w) px)
               (event_logged order_event w)), Ok tt).
Proof.
  intros Hwf Hq order_event. unfold _notify_strategy.
  rewrite bool_decide_eq_false_2 by discriminate.
  rewrite (bind_Ok _ _ w w tt) by reflexivity.
  assert (He : on_order_event order_event w
               = (after_submission (single_lot (side_from_position w) px)
                    (event_logged order_event w), Ok tt)).
  { rewrite on_order_event_run, bool_decide_eq_true_2 by repeat constructor.
    now rewrite (buy_or_sell_action_run px) by exact Hq. }
  rewrite (bind_Ok _ _ _ _ _ He).
  now rewrite clear_inactive_orders_run by exact Hwf.
Qed.

(** A FILLED event notified while the book has a quote for the next order:
    the position moves first, and decides the side of that order. *)
Lemma notify_filled_run (a : addr) (o : Order.t) (px : Decimal.t) (w : World) :
  heap_wf w ->
  heap w !! a = Some o ->
  let w1 :=
    set_position
      {| Position.qty :=
           Position.qty (position w) + Order.qty o * Side.value (Order.side o) |}
      w in
  best_quote w (side_from_position w1) = Some px ->
  let order_event := {| OrderEvent.event_type := OrderEventType.FILLED;
                        OrderEvent.order := a |} in
  _notify_strategy (Some order_event) w
  = (purged (after_submission (single_lot (side_from_position w1) px)
               (event_logged order_event w1)), Ok tt).
Proof.
  intros Hwf Ho w1 Hq order_event. unfold _notify_strategy.
  rewrite bool_decide_eq_true_2 by reflexivity.
  rewrite (bind_Ok _ _ w _ tt (update_by_filled_order_run _ o w Ho)).
  fold w1.
  assert (He : on_order_event order_event w1
               = (after_submission (single_lot (side_from_position w1) px)
                    (event_logged order_event w1), Ok tt)).
  { rewrite on_order_event_run, bool_decide_eq_true_2 by repeat constructor.
    now rewrite (buy_or_sell_action_run px) by exact Hq. }
  rewrite (bind_Ok _ _ _ _ _ He).
  now rewrite clear_inactive_orders_run by exact Hwf.
Qed.

(** X11 -- The cancel response, end to end: when the book has a quote on
    the side the position calls for, [_cancel_order_consumer] from the
    response on marks the order CANCELLED, leaves the position, queues one
    new single-lot order at that quote, puts the strategy in WAIT, and
    purges the cancelled order from the ledger together with every other
    terminal one. *)
Theorem cancel_response_cycle
    (a : addr) (o : Order.t) (px : Decimal.t)
    (response : CancelOrderResponse.t) (w : World) :
  heap_wf w ->
  heap w !! a = Some o ->
  best_quote w (side_from_position w) = Some px ->
  let run :=
    _cancel_order_consumer_receive {| CancelOrder.order := a |} response w in
  let cancelled := <[a := Order.set_status OrderStatus.CANCELLED o]> (heap w) in
  snd run = Ok tt
  /\ heap (fst run) = cancelled
  /\ (forall s : Side.t,
        by_side (fst run) s = (active_objects cancelled (by_side w s)).*1
        /\ a ∉ by_side (fst run) s)
  /\ position (fst run) = position w
  /\ order_queue (fst run)
     = order_queue w
       ++ [Request_NewOrder (single_lot (side_from_position w) px)]
  /\ action (fst run) = Action.WAIT.
Proof.
  intros Hwf Ho Hq run cancelled. unfold run, _cancel_order_consumer_receive.
  unfold process_cancel_order_response. cbn zeta. cbn [CancelOrder.order].
  rewrite bind_assoc.
  rewrite (bind_Ok _ _ w _ tt
             (setattr_run a (Order.set_status OrderStatus.CANCELLED) o w Ho)).
  fold cancelled. set (w1 := set_heap cancelled w).
  rewrite (bind_Ok _ _ w1 w1 _) by reflexivity.
  assert (Hwf1 : heap_wf w1) by (now apply heap_wf_insert).
  rewrite (notify_cancelled_run a px w1 Hwf1 Hq). cbn [fst snd].
  assert (Ha : heap w1 !! a = Some (Order.set_status OrderStatus.CANCELLED o)).
  { unfold w1, cancelled. cbn. apply list_lookup_insert_eq.
    eapply lookup_lt_Some; eauto. }
  repeat split.
  - now rewrite purged_by_side.
  - exact (purged_not_in _ s a _ Ha eq_refl).
Qed.

Lemma cancel_response_cycle_witness :
  let run :=
    _cancel_order_consumer_receive {| CancelOrder.order := 0%nat |}
      {| CancelOrderResponse.time := 0 |} ex_world_below_best in
  let cancelled :=
    <[0%nat := Order.set_status OrderStatus.CANCELLED
                 (Order.set_status OrderStatus.OPEN
                    {| Order.qty := 1; Order.px := 99%Q; Order.side := Side.BUY;
                       Order.status := OrderStatus.OPEN;
                       Order.id := Some "a"%string |})]>
      (heap ex_world_below_best) in
  snd run = Ok tt
  /\ heap (fst run) = cancelled
  /\ (forall s : Side.t,
        by_side (fst run) s
        = (active_objects cancelled (by_side ex_world_below_best s)).*1
        /\ 0%nat ∉ by_side (fst run) s)
  /\ position (fst run) = position ex_world_below_best
  /\ order_queue (fst run)
     = order_queue ex_world_below_best
       ++ [Request_NewOrder
             (single_lot (side_from_position ex_world_below_best) 100%Q)]
  /\ action (fst run) = Action.WAIT.
Proof.
  exact (cancel_response_cycle 0%nat _ 100%Q {| CancelOrderResponse.time := 0 |}
           ex_world_below_best ex_world_below_best_wf eq_refl eq_refl).
Defined.

(** X12 -- The post response of a complete fill, end to end: the first
    order of the response's side with its price and quantity gets the
    broker's id and becomes FILLED, the position moves by its signed
    quantity, the order is purged from the ledger, and when the book has a
    quote on the side the new position calls for, one new single-lot order
    at that quote is queued and the strategy is in WAIT. *)
Theorem post_response_fill_cycle
    (response : PostOrderResponse.t) (side : Side.t) (px best : Decimal.t)
    (l1 l2 : list addr) (a : addr) (o : Order.t) (w : World) :
  heap_wf w ->
  Side.from_direction (PostOrderResponse.direction response) = Ok side ->
  quotation_to_decimal (PostOrderResponse.initial_security_price response)
  = Ok px ->
  by_side w side = l1 ++ a :: l2 ->
  heap w !! a = Some o ->
  matches_px_qty px (PostOrderResponse.lots_requested response) o = true ->
  (forall (b : addr) (ob : Order.t),
     b ∈ l1 -> heap w !! b = Some ob ->
     matches_px_qty px (PostOrderResponse.lots_requested response) ob = false) ->
  Order.qty o = PostOrderResponse.lots_executed response ->
  let qty' :=
    Position.qty (position w) + Order.qty o * Side.value (Order.side o) in
  let next := if qty' =? 0 then Side.BUY else Side.SELL in
  best_quote w next = Some best ->
  let run := _post_order_consumer_receive response w in
  snd run = Ok tt
  /\ heap (fst run)
     = <[a := Order.set_status OrderStatus.FILLED
                (Order.set_id (Some (PostOrderResponse.order_id response)) o)]>
         (heap w)
  /\ (forall s : Side.t, a ∉ by_side (fst run) s)
  /\ Position.qty (position (fst run)) = qty'
  /\ order_queue (fst run)
     = order_queue w ++ [Request_NewOrder (single_lot next best)]
  /\ action (fst run) = Action.WAIT.
Proof.
  intros Hwf Hside Hpx Hby Ho Hm Hl1 Hfill qty' next Hq run.
  assert (Hfind : find (fun p => matches_px_qty px
                                   (PostOrderResponse.lots_requested response)
                                   (snd p))
                       (objects (heap w) (by_side w side)) = Some (a, o)).
  { rewrite Hby. apply find_objects_first; [exact Ho | exact Hm |].
    intros b ob Hb Hob Hmb. rewrite (Hl1 b ob Hb Hob) in Hmb. discriminate. }
  unfold run, _post_order_consumer_receive, coroutine.
  rewrite (bind_Ok _ _ _ _ _
             (process_post_order_response_found response side px a o w
                Hwf Hside Hpx Hfind)).
  assert (Hrec : reconciled response o
                 = Order.set_status OrderStatus.FILLED
                     (Order.set_id (Some (PostOrderResponse.order_id response)) o)).
  { unfold reconciled. rewrite Hfill. now rewrite Z.eqb_refl. }
  assert (Hev : reconciled_event response a o
                = {| OrderEvent.event_type := OrderEventType.FILLED;
                     OrderEvent.order := a |}).
  { unfold reconciled_event. rewrite Hfill. now rewrite Z.eqb_refl. }
  rewrite Hrec, Hev.
  set (filled := Order.set_status _ _).
  set (w1 := set_heap (<[a := filled]> (heap w)) w).
  assert (Hwf1 : heap_wf w1) by (now apply heap_wf_insert).
  assert (Ha : heap w1 !! a = Some filled).
  { unfold w1. cbn. apply list_lookup_insert_eq.
    eapply lookup_lt_Some; eauto. }
  rewrite (notify_filled_run a filled best w1 Hwf1 Ha) by exact Hq.
  cbn [fst snd]. repeat split.
  intros s. exact (purged_not_in _ s a _ Ha eq_refl).
Qed.

Lemma post_response_fill_cycle_witness :
  let run := _post_order_consumer_receive (ex_post_response 1 "b")
               ex_world_one_buy in
  snd run = Ok tt
  /\ heap (fst run)
     = <[0%nat := Order.set_status OrderStatus.FILLED
                    (Order.set_id (Some "b"%string) ex_order_pending)]>
         (heap ex_world_one_buy)
  /\ (forall s : Side.t, 0%nat ∉ by_side (fst run) s)
  /\ Position.qty (position (fst run)) = 1
  /\ order_queue (fst run)
     = order_queue ex_world_one_buy
       ++ [Request_NewOrder (single_lot Side.SELL 101%Q)]
  /\ action (fst run) = Action.WAIT.
Proof.
  destruct (ex_post_response_px 1 "b") as (px & Hpx & Hm & _).
  refine (post_response_fill_cycle (ex_post_response 1 "b") Side.BUY px 101%Q
            [] [] 0%nat ex_order_pending ex_world_one_buy
            ex_world_one_buy_wf eq_refl Hpx eq_refl eq_refl Hm _ eq_refl eq_refl).
  intros b ob Hb. inversion Hb.
Defined.

(** ** Requests in flight *)

Lemma objects_elem (h : list Order.t) (l : list addr) (a : addr) (o : Order.t) :
  a ∈ l -> h !! a = Some o -> (a, o) ∈ objects h l.
Proof.
  intros Ha Ho. unfold objects. apply list_elem_of_omap.
  exists a. split; [exact Ha|]. now rewrite Ho.
Qed.

Lemma any_pending_intro (w : World) (s : Side.t) (a : addr) (o : Order.t) :
  a ∈ by_side w s -> heap w !! a = Some o ->
  Order.status o = OrderStatus.PENDING -> any_pending w = true.
Proof.
  intros Ha Ho Hst. unfold any_pending. apply existsb_exists.
  exists (a, o). split.
  - apply list_elem_of_In, objects_elem; [|exact Ho].
    apply elem_of_app. destruct s; auto.
  - simpl. now rewrite Hst.
Qed.

Lemma purged_elem (w : World) (s : Side.t) (a : addr) (o : Order.t) :
  a ∈ by_side w s -> heap w !! a = Some o ->
  OrderStatus.is_active (Order.status o) = true ->
  a ∈ by_side (purged w) s.
Proof.
  intros Ha Ho Hact. rewrite purged_by_side.
  apply list_elem_of_fmap. exists (a, o). split; [reflexivity|].
  apply list_elem_of_filter. split; [exact Hact|]. now apply objects_elem.
Qed.

(** A PENDING or OPEN event notified: a log line, then the purge. *)
Lemma notify_quiet_run (order_event : OrderEvent.t) (w : World) :
  heap_wf w ->
  OrderEvent.event_type order_event
  ∈ [OrderEventType.PENDING; OrderEventType.OPEN] ->
  _notify_strategy (Some order_event) w
  = (purged (event_logged order_event w), Ok tt).
Proof.
  intros Hwf Hty. unfold _notify_strategy.
  assert (H1 : bool_decide (OrderEvent.event_type order_event
                            = OrderEventType.FILLED) = false).
  { apply bool_decide_eq_false_2. intros E. rewrite E in Hty.
    apply list_elem_of_In in Hty. simpl in Hty. intuition discriminate. }
  assert (H2 : bool_decide (OrderEvent.event_type order_event
                            ∈ [OrderEventType.FILLED; OrderEventType.CANCELLED])
               = false).
  { apply bool_decide_eq_false_2. intros Hin.
    destruct (OrderEvent.event_type order_event);
      apply list_elem_of_In in Hty, Hin; simpl in Hty, Hin;
      intuition discriminate. }
  rewrite H1. rewrite (bind_Ok _ _ w w tt) by reflexivity.
  assert (He : on_order_event order_event w
               = (event_logged order_event w, Ok tt))
    by (now rewrite on_order_event_run, H2).
  rewrite (bind_Ok _ _ _ _ _ He).
  now rewrite clear_inactive_orders_run by exact Hwf.
Qed.

Lemma with_pending_wf (request : NewOrder.t) (w : World) :
  heap_wf w -> heap_wf (with_pending request w).
Proof.
  intros Hwf s. destruct (decide (s = NewOrder.side request)) as [->|Hne].
  - rewrite with_pending_side. unfold with_pending, allocated. cbn.
    apply Forall_fmap.
    eapply Forall_impl; [eapply Forall_lookup_perm; [apply sort_reverse_perm|]|].
    2: { intros p Hp. cbn. rewrite Hp. eauto. }
    apply Forall_app; split.
    + eapply Forall_impl; [apply objects_lookup|].
      intros p Hp. cbn in *. rewrite lookup_app_l; [exact Hp|].
      eapply lookup_lt_Some; eauto.
    + constructor; [|constructor]. cbn. now apply list_lookup_middle.
  - rewrite with_pending_other_side by exact Hne.
    eapply Forall_impl; [apply (Hwf s)|]. intros a Ha.
    unfold allocated, with_pending. cbn.
    eapply allocated_extends; [apply heap_extends_app | exact Ha].
Qed.

Lemma with_pending_new_elem (request : NewOrder.t) (w : World) :
  length (heap w) ∈ by_side (with_pending request w) (NewOrder.side request)
  /\ heap (with_pending request w) !! length (heap w)
     = Some (pending_order_of request).
Proof.
  split.
  - rewrite with_pending_side. apply list_elem_of_fmap.
    exists (length (heap w), pending_order_of request). split; [reflexivity|].
    rewrite sort_reverse_perm. apply elem_of_app. right. constructor.
  - unfold with_pending. cbn. now apply list_lookup_middle.
Qed.

(** ** The priority order, as a number *)

Local Open Scope Q_scope.

Lemma fits_context_ctx (d : Decimal.t) :
  fits_context d -> Decimal.ctx d == d.
Proof.
  intros (m & e & Hm & Hd).
  apply (ctx_exact d m e (27 + e)); [|exact Hd|lia].
  pose proof (pow_pos 10 e ltac:(lia)) as Hp.
  assert (Ha : Qabs (inject_Z m) < inject_Z (10 ^ 28))
    by (apply (Qabs_inject_Z_lt _ m); [reflexivity | exact Hm]).
  rewrite Hd, Qabs_Qmult, (Qabs_pos (Rounding.pow 10 e)) by lra.
  replace (27 + e + 1)%Z with (28 + e)%Z by lia.
  rewrite pow_add, (pow_nonneg 10 28) by lia.
  apply Qmult_lt_compat_r; assumption.
Qed.

Lemma fits_context_scale (d : Decimal.t) (s : Side.t) :
  fits_context d -> fits_context (d * inject_Z (Side.value s)).
Proof.
  intros (m & e & Hm & Hd). exists (m * Side.value s)%Z, e. split.
  - destruct s; simpl; lia.
  - rewrite Hd, inject_Z_mult. ring.
Qed.

(** On a price of at most 28 digits the key of the sort is [side * price]
    itself: the product is not rounded. *)
Lemma sort_key_priority (o : Order.t) :
  fits_context (Order.px o) -> sort_key o == priority o.
Proof.
  intros Hf. unfold sort_key, Decimal.mul, Decimal.of_int, priority.
  rewrite fits_context_ctx by now apply fits_context_scale.
  ring.
Qed.

Lemma fits_context_Qeq (d d' : Decimal.t) :
  d == d' -> fits_context d -> fits_context d'.
Proof.
  intros He (m & e & Hm & Hd). exists m, e. split; [exact Hm|].
  now rewrite <- He.
Qed.

(** What the context returns has at most 28 significant digits. *)
Lemma ctx_fits (q : Q) : fits_context (Decimal.ctx q).
Proof.
  unfold Decimal.ctx, Rounding.round_sig.
  destruct (Qeq_bool q 0) eqn:E0.
  { exists 0%Z, 0%Z. split; [reflexivity|]. reflexivity. }
  apply Qeq_bool_neq in E0. cbn zeta.
  unfold Rounding.last_digit_exp, Decimal.prec.
  set (e := (Rounding.ilog 10 (Qabs q) - (28 - 1))%Z).
  set (x := q / Rounding.pow 10 e).
  set (n := Rounding.round_half_even x).
  assert (Hq : 0 < Qabs q).
  { pose proof (Qabs_nonneg q) as H0.
    destruct (Qlt_le_dec 0 (Qabs q)) as [H|H]; [exact H|].
    exfalso. apply E0. apply Qabs_Qle_condition in H. lra. }
  pose proof (pow_pos 10 e ltac:(lia)) as Hp.
  assert (Hx : Qabs x < inject_Z (10 ^ 28)).
  { unfold x. unfold Qdiv. rewrite Qabs_Qmult.
    rewrite (Qabs_pos (/ Rounding.pow 10 e))
      by (apply Qlt_le_weak, Qinv_lt_0_compat, Hp).
    apply Qlt_shift_div_r; [exact Hp|].
    rewrite <- (pow_nonneg 10 28), <- pow_add by lia.
    replace (28 + e)%Z with (Rounding.ilog 10 (Qabs q) + 1)%Z by (unfold e; lia).
    apply ilog_upper; [lia | exact Hq]. }
  pose proof (round_half_even_error x) as He. fold n in He.
  assert (Hn : (Z.abs n <= 10 ^ 28)%Z).
  { apply Qabs_Qle_condition in He. apply Qabs_Qlt_condition in Hx.
    assert (H1 : inject_Z n < inject_Z (10 ^ 28 + 1)).
    { rewrite inject_Z_plus. change (inject_Z 1) with 1. lra. }
    assert (H2 : inject_Z (- (10 ^ 28) - 1) < inject_Z n).
    { unfold Z.sub. rewrite inject_Z_plus, inject_Z_opp.
      change (inject_Z (- (1))) with (- (1)). lra. }
    rewrite <- Zlt_Qlt in H1, H2. lia. }
  destruct (Z.eq_dec (Z.abs n) (10 ^ 28)%Z) as [Heq|Hne].
  - exists (n / 10)%Z, (e + 1)%Z. split.
    + assert (Hc : n = (10 ^ 28)%Z \/ n = (- 10 ^ 28)%Z) by lia.
      destruct Hc as [-> | ->]; vm_compute; reflexivity.
    + rewrite pow_add by lia.
      assert (Hc : n = (10 ^ 28)%Z \/ n = (- 10 ^ 28)%Z) by lia.
      assert (H10 : inject_Z n == inject_Z (n / 10) * Rounding.pow 10 1).
      { destruct Hc as [-> | ->]; vm_compute; reflexivity. }
      rewrite H10. ring.
  - exists n, e. split; [unfold Decimal.prec; lia | reflexivity].
Qed.

(** Every price the codec decodes has at most 28 significant digits. *)
Lemma quotation_to_decimal_fits (q : Quotation.t) (d : Decimal.t) :
  quotation_to_decimal q = Ok d -> fits_context d.
Proof.
  unfold quotation_to_decimal, Decimal.div, Decimal.add.
  destruct (Qeq_bool _ 0); [discriminate|]. simpl.
  intros [= <-]. apply ctx_fits.
Qed.

Local Close Scope Q_scope.

Lemma StronglySorted_Forall_impl {A} (R R' : A -> A -> Prop) (P : A -> Prop)
    (l : list A) :
  Forall P l -> (forall x y, P x -> P y -> R x y -> R' x y) ->
  StronglySorted R l -> StronglySorted R' l.
Proof.
  intros HP Himp. induction 1 as [|x l Hs IH Hx]; [constructor|].
  apply Forall_cons in HP as [Px Pl].
  constructor; [now apply IH|].
  rewrite Forall_forall in *. intros y Hy. apply Himp; auto.
Qed.

Lemma ledger_objects_fit (w : World) (s : Side.t) :
  ledger_prices_fit w ->
  Forall (fun p => fits_context (Order.px (snd p)))
         (objects (heap w) (by_side w s)).
Proof.
  intros Hf. apply Forall_forall. intros p Hp.
  apply elem_of_objects in Hp as [Ha Ho]. exact (Hf s _ _ Ha Ho).
Qed.

(** On a ledger of such prices the order of the keys is the order of
    [side * price]. *)
Lemma priority_sorted_iff (w : World) :
  ledger_prices_fit w -> (priority_sorted w <-> ledger_sorted w).
Proof.
  intros Hf. split; intros Hs s; specialize (Hs s);
    (eapply StronglySorted_Forall_impl;
     [apply (ledger_objects_fit w s Hf) | | exact Hs]);
    intros p q Hp Hq; unfold key_ge, priority_ge;
    rewrite (sort_key_priority _ Hp), (sort_key_priority _ Hq); tauto.
Qed.

Lemma ledger_prices_fit_extends (w w' : World) :
  heap_wf w -> heap_extends (heap w) (heap w') -> orders w' = orders w ->
  ledger_prices_fit w -> ledger_prices_fit w'.
Proof.
  intros Hwf He Ho Hf s a o' Ha Ho'. unfold by_side in Ha. rewrite Ho in Ha.
  pose proof (Hwf s) as Hall. rewrite Forall_forall in Hall.
  destruct (Hall a Ha) as [o Hao].
  destruct (He a o Hao) as (o2 & Ho2 & Hpx & _).
  replace o' with o2 by congruence. rewrite Hpx. exact (Hf s a o Ha Hao).
Qed.

Lemma ledger_prices_fit_purged (w : World) :
  ledger_prices_fit w -> ledger_prices_fit (purged w).
Proof.
  intros Hf s a o Ha Ho. rewrite purged_by_side in Ha.
  apply list_elem_of_fmap in Ha as (p & -> & Hp).
  unfold active_objects in Hp. apply list_elem_of_filter in Hp as [_ Hp].
  apply elem_of_objects in Hp as [Ha _]. exact (Hf s _ o Ha Ho).
Qed.

Lemma with_pending_elem (request : NewOrder.t) (w : World) (s : Side.t)
    (a : addr) :
  heap_wf w -> a ∈ by_side (with_pending request w) s ->
  a ∈ by_side w s \/ a = length (heap w).
Proof.
  intros Hwf Ha. destruct (decide (s = NewOrder.side request)) as [->|Hne].
  - rewrite with_pending_side in Ha.
    apply list_elem_of_fmap in Ha as (p & -> & Hp).
    rewrite sort_reverse_perm in Hp. apply elem_of_app in Hp as [Hp|Hp].
    + left. now apply elem_of_objects in Hp as [Hp _].
    + right. apply list_elem_of_singleton in Hp. now subst p.
  - left. now rewrite with_pending_other_side in Ha by exact Hne.
Qed.

Lemma ledger_prices_fit_with_pending (request : NewOrder.t) (w : World) :
  heap_wf w -> fits_context (NewOrder.px request) ->
  ledger_prices_fit w -> ledger_prices_fit (with_pending request w).
Proof.
  intros Hwf Hr Hf s a o Ha Ho.
  assert (Hh : heap (with_pending request w)
               = heap w ++ [pending_order_of request]) by reflexivity.
  rewrite Hh in Ho.
  destruct (with_pending_elem request w s a Hwf Ha) as [Hin| ->].
  - pose proof (Hwf s) as Hall. rewrite Forall_forall in Hall.
    destruct (Hall a Hin) as [oa Hoa].
    rewrite lookup_app_l in Ho by (eapply lookup_lt_Some; eauto).
    exact (Hf s a o Hin Ho).
  - rewrite list_lookup_middle in Ho by reflexivity.
    injection Ho as <-. exact Hr.
Qed.

Lemma ledger_kept_fits {A} (m : M A) (w : World) :
  frame ledger_kept m -> heap_wf w ->
  ledger_prices_fit w -> ledger_prices_fit (fst (m w)).
Proof.
  intros Hk Hwf Hf. destruct (Hk w) as [He Ho].
  eapply ledger_prices_fit_extends; eassumption.
Qed.

Lemma run_ledger_op_fits (op : LedgerOp) (w : World) :
  heap_wf w -> ledger_op_fits op ->
  ledger_prices_fit w -> ledger_prices_fit (fst (run_ledger_op op w)).
Proof.
  intros Hwf Hop Hf. destruct op; simpl.
  - rewrite create_pending_order_run by exact Hwf.
    now apply ledger_prices_fit_with_pending.
  - now apply ledger_kept_fits; [apply ledger_kept_process_pending_cancel| |].
  - now apply ledger_kept_fits;
      [apply ledger_kept_process_post_order_response| |].
  - now apply ledger_kept_fits;
      [apply ledger_kept_process_cancel_order_response| |].
  - now apply ledger_kept_fits; [apply ledger_kept_process_get_order| |].
  - unfold bind. rewrite clear_inactive_orders_run by exact Hwf.
    now apply ledger_prices_fit_purged.
Qed.

(** ** C4: the priority order *)

Lemma ex_world_sell_long_wf : heap_wf ex_world_sell_long.
Proof. intros []; repeat constructor. eexists. reflexivity. Qed.

(** With an open sell order at 103.00000000000000000000000000049 in the
    ledger, a new sell order at 103 is placed behind it: the keys of the
    sort, computed in the 28-digit context, are both -103, and the sort
    keeps the order of arrival.  Yet [side * price] of the first,
    -103.00000000000000000000000000049, is below the one of the second. *)
Lemma priority_order_claim_counterexample :
  ~ priority_order_claim (create_pending ex_sell_103) ex_world_sell_long.
Proof.
  intros H. specialize (H ex_world_sell_long_wf).
  assert (Hs : priority_sorted ex_world_sell_long).
  { intros []; cbn; repeat constructor. }
  specialize (H Hs Side.SELL).
  assert (Hby : by_side (fst (run_ledger_op (create_pending ex_sell_103)
                                ex_world_sell_long)) Side.SELL
                = [0%nat; 1%nat]) by (vm_compute; reflexivity).
  rewrite Hby in H. cbn in H.
  inversion H as [|? ? _ Hall]; subst.
  apply Forall_cons in Hall as [Hge _].
  unfold priority_ge in Hge. vm_compute in Hge. now apply Hge.
Qed.

Example create_pending_long_price :
  by_side (fst (create_pending_order ex_sell_103 ex_world_sell_long)) Side.SELL
  = [0%nat; 1%nat]
  /\ sort_key ex_order_sell_long = sort_key (pending_order_of ex_sell_103)
  /\ (priority ex_order_sell_long < priority (pending_order_of ex_sell_103))%Q.
Proof. vm_compute. auto. Qed.

(** C4, amended -- On a ledger whose prices have at most 28 significant
    digits, every ledger operation (create_pending, mark_cancel_pending,
    reconcile_post_response, reconcile_cancel_response,
    reconcile_status_poll, purge_terminal), creating an order of such a
    price if it creates one, preserves the invariant that, within each
    side, the order sequence is sorted by non-increasing [side * price], and
    leaves a ledger of such prices; in particular the order [create_pending]
    allocates is on its side of the ledger afterwards, in this priority
    order. *)
Theorem ledger_operations_keep_priority_order (op : LedgerOp) (w : World) :
  heap_wf w -> ledger_prices_fit w -> ledger_op_fits op ->
  priority_sorted w ->
  let w' := fst (run_ledger_op op w) in
  heap_wf w' /\ ledger_prices_fit w' /\ priority_sorted w'
  /\ match op with
     | create_pending request =>
         snd (run_ledger_op op w)
         = Ok (Some {| OrderEvent.event_type := OrderEventType.PENDING;
                       OrderEvent.order := length (heap w) |})
         /\ heap w' !! length (heap w) = Some (pending_order_of request)
         /\ length (heap w) ∈ by_side w' (NewOrder.side request)
     | _ => True
     end.
Proof.
  intros Hwf Hf Hop Hp w'.
  assert (Hs : ledger_sorted w) by now apply priority_sorted_iff.
  destruct (run_ledger_op_inv op w (conj Hwf Hs)) as [Hwf' Hs'].
  pose proof (run_ledger_op_fits op w Hwf Hop Hf) as Hf'.
  split; [exact Hwf'|]. split; [exact Hf'|].
  split; [now apply priority_sorted_iff|].
  destruct op; try exact I.
  unfold w'. simpl. rewrite create_pending_order_run by exact Hwf.
  split; [reflexivity|]. cbn [fst].
  destruct (with_pending_new_elem request w) as [Hin Hnew]. now split.
Qed.

Lemma ledger_prices_fit_heap (w : World) :
  Forall (fun o => fits_context (Order.px o)) (heap w) -> ledger_prices_fit w.
Proof.
  intros Hall s a o _ Ho. rewrite Forall_forall in Hall.
  apply Hall. eapply list_elem_of_lookup_2. exact Ho.
Qed.

(** A concrete decimal written as [m * 10^e]. *)
Ltac fits_by m e :=
  exists m, e; split; [vm_compute; reflexivity | vm_compute; reflexivity].

Lemma ex_world_ledger_fits : ledger_prices_fit ex_world_ledger.
Proof.
  apply ledger_prices_fit_heap. repeat constructor; cbn.
  - fits_by 100 0.
  - fits_by 100 0.
  - fits_by 102 0.
Qed.

Lemma ex_new_order_fits : fits_context (NewOrder.px ex_new_order).
Proof. fits_by 1005 (-1). Qed.

Lemma ex_world_ledger_priority_sorted : priority_sorted ex_world_ledger.
Proof.
  apply priority_sorted_iff;
    [exact ex_world_ledger_fits | exact ex_world_ledger_sorted].
Qed.

Lemma ledger_operations_keep_priority_order_witness :
  heap_wf ex_world_ledger /\ ledger_prices_fit ex_world_ledger
  /\ ledger_op_fits (create_pending ex_new_order)
  /\ priority_sorted ex_world_ledger
  /\ let w' := fst (run_ledger_op (create_pending ex_new_order) ex_world_ledger) in
     heap_wf w' /\ ledger_prices_fit w' /\ priority_sorted w'
     /\ snd (run_ledger_op (create_pending ex_new_order) ex_world_ledger)
        = Ok (Some {| OrderEvent.event_type := OrderEventType.PENDING;
                      OrderEvent.order := 3%nat |})
     /\ heap w' !! 3%nat = Some (pending_order_of ex_new_order)
     /\ 3%nat ∈ by_side w' Side.BUY.
Proof.
  split; [exact ex_world_ledger_wf|]. split; [exact ex_world_ledger_fits|].
  split; [exact ex_new_order_fits|].
  split; [exact ex_world_ledger_priority_sorted|].
  exact (ledger_operations_keep_priority_order
           (create_pending ex_new_order) ex_world_ledger
           ex_world_ledger_wf ex_world_ledger_fits ex_new_order_fits
           ex_world_ledger_priority_sorted).
Defined.

(** X7 -- Price-time priority of [create_pending_order]: on a ledger of
    prices of at most 28 significant digits, sorted by non-increasing
    [side * price], the new order is placed on its side right behind the
    orders whose [side * price] is at least its own and ahead of those with a
    smaller one; the orders already there keep their relative order and
    their fields, and the other side is as it was. *)
Theorem create_pending_order_price_time_priority
    (request : NewOrder.t) (w : World) :
  heap_wf w -> ledger_prices_fit w -> fits_context (NewOrder.px request) ->
  priority_sorted w ->
  let side := NewOrder.side request in
  let new := length (heap w) in
  let w' := fst (create_pending_order request w) in
  exists l1 l2 : list addr,
    by_side w side = l1 ++ l2
    /\ by_side w' side = l1 ++ new :: l2
    /\ (forall (a : addr) (o : Order.t),
          a ∈ l1 -> heap w !! a = Some o ->
          (priority (pending_order_of request) <= priority o)%Q)
    /\ (forall (a : addr) (o : Order.t),
          a ∈ l2 -> heap w !! a = Some o ->
          (priority o < priority (pending_order_of request))%Q)
    /\ (forall s : Side.t, s <> side -> by_side w' s = by_side w s)
    /\ (forall (a : addr) (o : Order.t),
          heap w !! a = Some o -> heap w' !! a = Some o)
    /\ heap w' !! new = Some (pending_order_of request).
Proof.
  intros Hwf Hf Hr Hp side new w'.
  assert (Hs : ledger_sorted w) by now apply priority_sorted_iff.
  destruct (create_pending_order_placement request w Hwf Hs)
    as (l1 & l2 & Hby & Hby' & H1 & H2 & Hrest).
  exists l1, l2. split; [exact Hby|]. split; [exact Hby'|].
  assert (Hnew : (sort_key (pending_order_of request)
                  == priority (pending_order_of request))%Q)
    by now apply sort_key_priority.
  split; [|split; [|exact Hrest]].
  - intros a o Ha Ho.
    assert (Hfo : fits_context (Order.px o)).
    { apply (Hf side a o); [|exact Ho]. fold side in Hby. rewrite Hby.
      apply elem_of_app. now left. }
    rewrite <- Hnew, <- (sort_key_priority o Hfo). exact (H1 a o Ha Ho).
  - intros a o Ha Ho.
    assert (Hfo : fits_context (Order.px o)).
    { apply (Hf side a o); [|exact Ho]. fold side in Hby. rewrite Hby.
      apply elem_of_app. now right. }
    rewrite <- Hnew, <- (sort_key_priority o Hfo). exact (H2 a o Ha Ho).
Qed.

Lemma ex_world_two_buys_fits : ledger_prices_fit ex_world_two_buys.
Proof.
  apply ledger_prices_fit_heap. repeat constructor; cbn; fits_by 100 0.
Qed.

Lemma ex_buy_100_fits : fits_context (NewOrder.px ex_buy_100).
Proof. fits_by 100 0. Qed.

Lemma ex_world_two_buys_priority_sorted : priority_sorted ex_world_two_buys.
Proof.
  apply priority_sorted_iff;
    [exact ex_world_two_buys_fits | exact ex_world_two_buys_sorted].
Qed.

Lemma create_pending_order_price_time_priority_witness :
  let side := NewOrder.side ex_buy_100 in
  let new := length (heap ex_world_two_buys) in
  let w' := fst (create_pending_order ex_buy_100 ex_world_two_buys) in
  exists l1 l2 : list addr,
    by_side ex_world_two_buys side = l1 ++ l2
    /\ by_side w' side = l1 ++ new :: l2
    /\ (forall (a : addr) (o : Order.t),
          a ∈ l1 -> heap ex_world_two_buys !! a = Some o ->
          (priority (pending_order_of ex_buy_100) <= priority o)%Q)
    /\ (forall (a : addr) (o : Order.t),
          a ∈ l2 -> heap ex_world_two_buys !! a = Some o ->
          (priority o < priority (pending_order_of ex_buy_100))%Q)
    /\ (forall s : Side.t, s <> side -> by_side w' s = by_side ex_world_two_buys s)
    /\ (forall (a : addr) (o : Order.t),
          heap ex_world_two_buys !! a = Some o -> heap w' !! a = Some o)
    /\ heap w' !! new = Some (pending_order_of ex_buy_100).
Proof.
  exact (create_pending_order_price_time_priority ex_buy_100 ex_world_two_buys
           ex_world_two_buys_wf ex_world_two_buys_fits ex_buy_100_fits
           ex_world_two_buys_priority_sorted).
Defined.

(** The state [_post_order_consumer] is in when it calls the broker (or
    fails to encode the price). *)
Lemma post_order_consumer_send_run (request : NewOrder.t) (w : World) :
  heap_wf w ->
  let w0 := logged "OrderManager" INFO (Log_post_order_request request) w in
  let order_event := {| OrderEvent.event_type := OrderEventType.PENDING;
                        OrderEvent.order := length (heap w) |} in
  _post_order_consumer_send request w
  = (purged (event_logged order_event (with_pending request w0)),
     decimal_to_quotation (NewOrder.px request)).
Proof.
  intros Hwf w0 order_event. unfold _post_order_consumer_send.
  rewrite (bind_Ok _ _ w w0 tt) by reflexivity.
  rewrite (bind_Ok _ _ _ _ _ (create_pending_order_run request w0 Hwf)).
  change (length (heap w0)) with (length (heap w)). fold order_event.
  rewrite (bind_Ok _ _ _ _ tt
             (notify_quiet_run order_event (with_pending request w0)
                (with_pending_wf request w0 Hwf) ltac:(repeat constructor))).
  reflexivity.
Qed.

(** The state [_cancel_order_consumer] is in when it calls the broker. *)
Lemma cancel_order_consumer_send_run (a : addr) (o : Order.t) (w : World) :
  heap_wf w -> heap w !! a = Some o ->
  let request := {| CancelOrder.order := a |} in
  let w0 := logged "OrderManager" INFO (Log_cancel_order_request request) w in
  let order_event := {| OrderEvent.event_type := OrderEventType.PENDING;
                        OrderEvent.order := a |} in
  let w1 := set_heap (<[a := Order.set_status OrderStatus.PENDING o]> (heap w))
                     w0 in
  _cancel_order_consumer_send request w
  = (purged (event_logged order_event w1), Ok (Order.id o)).
Proof.
  intros Hwf Ho request w0 order_event w1.
  unfold _cancel_order_consumer_send.
  rewrite (bind_Ok _ _ w w0 tt) by reflexivity.
  unfold process_pending_cancel. rewrite bind_assoc.
  rewrite (bind_Ok _ _ w0 _ tt
             (setattr_run a (Order.set_status OrderStatus.PENDING) o w0 Ho)).
  fold w1. rewrite (bind_Ok _ _ w1 w1 _) by reflexivity.
  fold order_event.
  assert (Hwf1 : heap_wf w1) by (apply (heap_wf_insert a _ w0), Hwf).
  rewrite (bind_Ok _ _ _ _ tt
             (notify_quiet_run order_event w1 Hwf1 ltac:(repeat constructor))).
  assert (Ha : heap (purged (event_logged order_event w1)) !! a
               = Some (Order.set_status OrderStatus.PENDING o)).
  { cbn. apply list_lookup_insert_eq. eapply lookup_lt_Some; eauto. }
  now rewrite (bind_Ok _ _ _ _ _ (deref_Some a _ _ Ha)).
Qed.

Lemma any_pending_updates (k : nat) (w : World) :
  any_pending (Nat.iter k update_logged w) = any_pending w.
Proof. induction k as [|k IH]; [reflexivity|]. exact IH. Qed.

Lemma heap_wf_updates (k : nat) (w : World) :
  heap_wf w -> heap_wf (Nat.iter k update_logged w).
Proof. intros Hwf. induction k as [|k IH]; [exact Hwf|]. exact IH. Qed.

(** A book update while an order of the ledger is PENDING, and every book
    update that follows it with nothing in between. *)
Lemma on_orderbook_update_pending (k : nat) (w : World) :
  heap_wf w -> any_pending w = true ->
  on_orderbook_update (Nat.iter k update_logged w)
  = (Nat.iter (S k) update_logged w, Ok tt).
Proof.
  intros Hwf Hp. rewrite on_orderbook_update_run by now apply heap_wf_updates.
  now rewrite any_pending_updates, Hp.
Qed.

(** X13 -- A book update right after a worker has sent its request is
    ignored: in the state [_post_order_consumer] is in when it calls the
    broker (its new order PENDING, whether or not the price then encodes),
    and in the state [_cancel_order_consumer] is in when it calls the broker
    for an order of the ledger (the order marked PENDING),
    [on_orderbook_update] only writes its debug line, and so does every
    further book update that arrives before any other step of the engine:
    after [k] of them the next one returns with one more debug line and
    nothing else changed. *)
Theorem book_updates_after_send_ignored (w : World) (k : nat) :
  heap_wf w ->
  (forall request : NewOrder.t,
     let w1 := fst (_post_order_consumer_send request w) in
     on_orderbook_update (Nat.iter k update_logged w1)
     = (Nat.iter (S k) update_logged w1, Ok tt))
  /\ (forall (s : Side.t) (a : addr) (o : Order.t),
        a ∈ by_side w s -> heap w !! a = Some o ->
        let w1 := fst (_cancel_order_consumer_send {| CancelOrder.order := a |} w) in
        on_orderbook_update (Nat.iter k update_logged w1)
        = (Nat.iter (S k) update_logged w1, Ok tt)).
Proof.
  intros Hwf. split.
  - intros request. rewrite post_order_consumer_send_run by exact Hwf.
    cbn [fst]. apply on_orderbook_update_pending; [apply purged_wf|].
    set (w0 := logged _ _ _ w).
    destruct (with_pending_new_elem request w0) as [Hin Hnew].
    eapply any_pending_intro.
    + apply (purged_elem _ (NewOrder.side request) _ _ Hin Hnew). reflexivity.
    + exact Hnew.
    + reflexivity.
  - intros s a o Ha Ho.
    rewrite (cancel_order_consumer_send_run a o w Hwf Ho).
    cbn [fst]. apply on_orderbook_update_pending; [apply purged_wf|].
    match goal with |- context [purged ?x] => set (w1 := x) end.
    assert (Hnew : heap w1 !! a = Some (Order.set_status OrderStatus.PENDING o)).
    { cbn. apply list_lookup_insert_eq. eapply lookup_lt_Some; eauto. }
    eapply any_pending_intro.
    + apply (purged_elem w1 s a _ Ha Hnew). reflexivity.
    + exact Hnew.
    + reflexivity.
Qed.

Lemma book_updates_after_send_ignored_witness :
  (forall request : NewOrder.t,
     let w1 := fst (_post_order_consumer_send request ex_world_above_best) in
     on_orderbook_update (Nat.iter 2 update_logged w1)
     = (Nat.iter 3 update_logged w1, Ok tt))
  /\ (forall (s : Side.t) (a : addr) (o : Order.t),
        a ∈ by_side ex_world_above_best s ->
        heap ex_world_above_best !! a = Some o ->
        let w1 := fst (_cancel_order_consumer_send
                         {| CancelOrder.order := a |} ex_world_above_best) in
        on_orderbook_update (Nat.iter 2 update_logged w1)
        = (Nat.iter 3 update_logged w1, Ok tt)).
Proof.
  exact (book_updates_after_send_ignored ex_world_above_best 2
           ex_world_above_best_wf).
Defined.

(** ** The strategy waiting *)

Lemma possible_cancel_action_assert (w : World) :
  length (by_side w Side.BUY ++ by_side w Side.SELL) <> 1%nat ->
  possible_cancel_action w = (w, Raise AssertionError).
Proof.
  intros Hlen. unfold possible_cancel_action.
  unfold bind at 1, get_all_orders, bind at 1, get. cbn [fst snd ret].
  now rewrite bool_decide_eq_false_2 by exact Hlen.
Qed.

(** X14 -- In WAIT the strategy takes the ledger to hold exactly one order:
    with none pending and a ledger of no order or of several, a book
    update fails the assertion of [possible_cancel_action], and nothing but
    the log has changed.  So it is after the strategy has queued an order
    and before a worker has taken it: from an empty ledger, the book update
    that queues the order is followed by one that raises. *)
Theorem orderbook_update_wait_needs_one_order (w : World) :
  heap_wf w ->
  (any_pending w = false -> action w = Action.WAIT ->
   length (by_side w Side.BUY ++ by_side w Side.SELL) <> 1%nat ->
   on_orderbook_update w = (update_logged w, Raise AssertionError))
  /\ (forall px : Decimal.t,
        by_side w Side.BUY = [] -> by_side w Side.SELL = [] ->
        action w <> Action.WAIT ->
        best_quote w (side_from_position w) = Some px ->
        let w1 := fst (on_orderbook_update w) in
        snd (on_orderbook_update w) = Ok tt
        /\ order_queue w1
           = order_queue w
             ++ [Request_NewOrder (single_lot (side_from_position w) px)]
        /\ on_orderbook_update w1 = (update_logged w1, Raise AssertionError)).
Proof.
  intros Hwf. split.
  - intros Hp Ha Hlen. rewrite on_orderbook_update_run by exact Hwf.
    rewrite Hp, bool_decide_eq_true_2 by exact Ha.
    now apply possible_cancel_action_assert.
  - intros px HB HS Ha Hq.
    assert (Hp : any_pending w = false).
    { unfold any_pending. now rewrite HB, HS. }
    assert (Hrun : on_orderbook_update w
                   = (after_submission (single_lot (side_from_position w) px)
                        (update_logged w), Ok tt)).
    { rewrite on_orderbook_update_run by exact Hwf.
      rewrite Hp, bool_decide_eq_false_2 by exact Ha.
      exact (buy_or_sell_action_run px (update_logged w) Hq). }
    rewrite Hrun. cbn [fst snd]. split; [reflexivity|]. split; [reflexivity|].
    set (w1 := after_submission _ _).
    assert (Hwf1 : heap_wf w1) by exact Hwf.
    rewrite on_orderbook_update_run by exact Hwf1.
    change (any_pending w1) with (any_pending w). rewrite Hp.
    rewrite bool_decide_eq_true_2 by reflexivity.
    apply possible_cancel_action_assert.
    change (by_side (update_logged w1) Side.BUY) with (by_side w Side.BUY).
    change (by_side (update_logged w1) Side.SELL) with (by_side w Side.SELL).
    rewrite HB, HS. simpl. lia.
Qed.

Lemma ex_world_start_wf : heap_wf ex_world_start.
Proof. intros []; constructor. Qed.

Lemma orderbook_update_wait_needs_one_order_witness :
  let w1 := fst (on_orderbook_update ex_world_start) in
  snd (on_orderbook_update ex_world_start) = Ok tt
  /\ order_queue w1
     = order_queue ex_world_start
       ++ [Request_NewOrder
             (single_lot (side_from_position ex_world_start) 100%Q)]
  /\ on_orderbook_update w1 = (update_logged w1, Raise AssertionError).
Proof.
  refine (proj2 (orderbook_update_wait_needs_one_order ex_world_start
                   ex_world_start_wf) 100%Q eq_refl eq_refl _ eq_refl).
  discriminate.
Defined.

(** ** The book *)

Lemma Quotes_decodes (l : list RawOrder.t) :
  exists quotes : list Quote.t,
    Quotes l = Ok quotes /\ Forall2 decodes l quotes.
Proof.
  induction l as [|raw l (quotes & Hq & Hd)]; cbn [Quotes].
  - exists []. split; [reflexivity | constructor].
  - unfold Quote__init__. rewrite quotation_to_decimal_Ok. cbn [rbind].
    rewrite Hq. cbn [rbind]. eexists. split; [reflexivity|].
    constructor; [|exact Hd].
    split; [apply quotation_to_decimal_Ok | reflexivity].
Qed.

Lemma OrderBook__init___Ok (orderbook : RawOrderBook.t) :
  exists book : OrderBook.t, OrderBook__init__ orderbook = Ok book.
Proof.
  destruct (Quotes_decodes (RawOrderBook.bids orderbook)) as (bids & Hb & _).
  destruct (Quotes_decodes (RawOrderBook.asks orderbook)) as (asks & Ha & _).
  unfold OrderBook__init__. rewrite Hb, Ha. simpl. now eexists.
Qed.

Lemma OrderBook__init___decodes (orderbook : RawOrderBook.t) :
  exists book : OrderBook.t,
    OrderBook__init__ orderbook = Ok book
    /\ Forall2 decodes (RawOrderBook.bids orderbook) (OrderBook.bids book)
    /\ Forall2 decodes (RawOrderBook.asks orderbook) (OrderBook.asks book).
Proof.
  destruct (Quotes_decodes (RawOrderBook.bids orderbook)) as (bids & Hb & Hdb).
  destruct (Quotes_decodes (RawOrderBook.asks orderbook)) as (asks & Ha & Hda).
  exists {| OrderBook.bids := bids; OrderBook.asks := asks |}.
  unfold OrderBook__init__. rewrite Hb, Ha. now repeat split.
Qed.

(** X15 -- [OrderBook(raw)] never raises and keeps the snapshot as the
    broker sent it: as many bids and asks, in the same order (nothing is
    sorted or dropped), each with its quantity and with its price decoded
    by [quotation_to_decimal]. *)
Theorem OrderBook_keeps_snapshot (orderbook : RawOrderBook.t) :
  exists book : OrderBook.t,
    OrderBook__init__ orderbook = Ok book
    /\ Forall2 decodes (RawOrderBook.bids orderbook) (OrderBook.bids book)
    /\ Forall2 decodes (RawOrderBook.asks orderbook) (OrderBook.asks book)
    /\ length (OrderBook.bids book) = length (RawOrderBook.bids orderbook)
    /\ length (OrderBook.asks book) = length (RawOrderBook.asks orderbook).
Proof.
  destruct (OrderBook__init___decodes orderbook) as (book & Hb & H1 & H2).
  exists book. repeat split; try assumption; symmetry;
    eapply Forall2_length; eassumption.
Qed.

Lemma books_kept_on_orderbook_update : frame books_kept on_orderbook_update.
Proof.
  apply footprint_on_orderbook_update; try typeclasses eauto;
    auto using books_kept_logging, books_kept_set_action,
      books_kept_post_order, books_kept_cancel_order.
Qed.

(** X16 -- One turn of [MarketManager.run_loop]: an item of the stream
    without a book changes nothing; a snapshot replaces the stored book
    wholesale before the strategy is told, the strategy decides on that
    state, and whether it returns or raises the stored book is the new one
    and the subscription depth, the ledger, the orders and the position are
    as they were. *)
Theorem run_loop_replaces_book (w : World) :
  run_loop_orderbook None w = (w, Ok tt)
  /\ (forall raw : RawOrderBook.t,
        exists book : OrderBook.t,
          OrderBook__init__ raw = Ok book
          /\ run_loop_orderbook (Some raw) w
             = on_orderbook_update (set_ob (Some book) w)
          /\ let w' := fst (run_loop_orderbook (Some raw) w) in
             ob w' = Some book /\ depth w' = depth w
             /\ orders_kept w w' /\ position w' = position w).
Proof.
  split; [reflexivity|]. intros raw.
  destruct (OrderBook__init___Ok raw) as (book & Hbook).
  exists book. split; [exact Hbook|].
  assert (Hrun : run_loop_orderbook (Some raw) w
                 = on_orderbook_update (set_ob (Some book) w)).
  { unfold run_loop_orderbook.
    rewrite (bind_Ok _ _ w w book) by (unfold lift; now rewrite Hbook).
    now rewrite (bind_Ok _ _ w (set_ob (Some book) w) tt) by reflexivity. }
  split; [exact Hrun|]. rewrite Hrun. cbv zeta.
  destruct (books_kept_on_orderbook_update (set_ob (Some book) w))
    as ([Hh Ho] & Hp & Hm).
  unfold ob, depth. rewrite Hm. repeat split; assumption.
Qed.

(** ** The invariants of the ledger across the engine *)

#[local] Instance invariant_kept_refl : Reflexive invariant_kept.
Proof. intros w H. exact H. Qed.

#[local] Instance invariant_kept_trans : Transitive invariant_kept.
Proof. intros w1 w2 w3 H1 H2 H. apply H2, H1, H. Qed.

Lemma priority_inv_iff (w : World) :
  priority_inv w <-> ledger_inv w /\ ledger_prices_fit w.
Proof.
  unfold priority_inv, ledger_inv. split.
  - intros (Hwf & Hf & Hp). repeat split; try assumption.
    now apply priority_sorted_iff.
  - intros ((Hwf & Hs) & Hf). repeat split; try assumption.
    now apply priority_sorted_iff.
Qed.

Lemma orders_kept_invariant (w w' : World) :
  orders_kept w w' -> invariant_kept w w'.
Proof.
  intros [Hh Ho] (Hwf & Hf & Hp). split; [|split].
  - eapply orders_kept_wf; [split; eassumption | exact Hwf].
  - intros s. unfold by_side. rewrite Hh, Ho. apply Hf.
  - intros s. unfold by_side. rewrite Hh, Ho. apply Hp.
Qed.

Lemma invariant_kept_of_orders {A} (m : M A) :
  frame orders_kept m -> frame invariant_kept m.
Proof. apply frame_weaken, orders_kept_invariant. Qed.

Lemma invariant_kept_of_ledger {A} (m : M A) :
  frame ledger_kept m -> frame invariant_kept m.
Proof.
  intros Hm w Hinv. apply priority_inv_iff in Hinv as [Hinv Hf].
  apply priority_inv_iff. split.
  - now apply ledger_kept_inv.
  - apply ledger_kept_fits; [exact Hm | apply Hinv | exact Hf].
Qed.

Lemma priority_inv_purged (w : World) :
  priority_inv w -> priority_inv (fst (clear_inactive_orders w)).
Proof.
  intros Hinv. apply priority_inv_iff in Hinv as [Hinv Hf].
  apply priority_inv_iff. split.
  - now apply clear_inactive_orders_inv.
  - rewrite clear_inactive_orders_run by apply Hinv.
    now apply ledger_prices_fit_purged.
Qed.

Lemma frame_forget {A} (R : World -> World -> Prop) (m : M A) :
  frame R m -> frame R (forget m).
Proof.
  intros Hm w. specialize (Hm w). unfold forget, bind.
  now destruct (m w) as [w1 [a|e]].
Qed.

Lemma orders_kept_logging name level message :
  frame orders_kept (logging name level message).
Proof. footprint. Qed.

Lemma orders_kept_of_books {A} (m : M A) :
  frame books_kept m -> frame orders_kept m.
Proof. apply frame_weaken, books_kept_orders. Qed.

Lemma books_kept_buy_or_sell_action : frame books_kept buy_or_sell_action.
Proof.
  apply footprint_buy_or_sell_action; try typeclasses eauto;
    auto using books_kept_logging, books_kept_set_action, books_kept_post_order.
Qed.

Lemma books_kept_possible_cancel_action : frame books_kept possible_cancel_action.
Proof.
  apply footprint_possible_cancel_action; try typeclasses eauto;
    auto using books_kept_logging, books_kept_set_action,
      books_kept_cancel_order.
Qed.

Lemma orders_kept_MarketManager_subscribe orderbook_depth :
  frame orders_kept (MarketManager_subscribe orderbook_depth).
Proof. unfold MarketManager_subscribe. footprint. Qed.

Lemma orders_kept_run_loop_orderbook raw_orderbook :
  frame orders_kept (run_loop_orderbook raw_orderbook).
Proof.
  pose proof (orders_kept_of_books _ books_kept_on_orderbook_update).
  unfold run_loop_orderbook. footprint.
Qed.

Lemma orders_kept_Strategy__init__ min_price_increment :
  frame orders_kept (Strategy__init__ min_price_increment).
Proof.
  pose proof orders_kept_MarketManager_subscribe.
  unfold Strategy__init__. footprint.
Qed.

Lemma orders_kept_order_consumer_get : frame orders_kept _order_consumer_get.
Proof. unfold _order_consumer_get. footprint. Qed.

Lemma orders_kept_monitor_orders_query order :
  frame orders_kept (_monitor_orders_query order).
Proof. unfold _monitor_orders_query. footprint. Qed.

Lemma invariant_kept_run_ledger_op op :
  ledger_op_fits op -> frame invariant_kept (run_ledger_op op).
Proof.
  intros Hop w Hinv. apply priority_inv_iff in Hinv as [Hinv Hf].
  apply priority_inv_iff. split.
  - now apply run_ledger_op_inv.
  - apply run_ledger_op_fits; [apply Hinv | exact Hop | exact Hf].
Qed.

Lemma invariant_kept_notify_strategy order_event :
  frame invariant_kept (_notify_strategy order_event).
Proof.
  destruct order_event as [order_event|];
    [|apply frame_ret; typeclasses eauto].
  unfold _notify_strategy.
  apply frame_bind; [typeclasses eauto | |intros _].
  { apply invariant_kept_of_orders. destruct (bool_decide _);
      [apply orders_kept_update_by_filled_order
      |apply frame_ret; typeclasses eauto]. }
  apply frame_bind; [typeclasses eauto | |intros _].
  { apply invariant_kept_of_orders, orders_kept_on_order_event. }
  intros w Hinv. now apply priority_inv_purged.
Qed.

Lemma invariant_kept_logging name level message :
  frame invariant_kept (logging name level message).
Proof. apply invariant_kept_of_orders, orders_kept_logging. Qed.

Lemma invariant_kept_run_operation op :
  operation_fits op -> frame invariant_kept (run_operation op).
Proof.
  intros Hop.
  pose proof invariant_kept_notify_strategy as Hn.
  pose proof invariant_kept_logging as Hl.
  destruct op; cbn [run_operation].
  - apply frame_forget, invariant_kept_run_ledger_op, Hop.
  - apply invariant_kept_of_orders, orders_kept_update_by_filled_order.
  - apply invariant_kept_of_orders, orders_kept_of_books, books_kept_post_order.
  - apply invariant_kept_of_orders, orders_kept_of_books, books_kept_cancel_order.
  - apply Hn.
  - apply frame_forget, invariant_kept_of_orders, orders_kept_order_consumer_get.
  - apply frame_forget. unfold _post_order_consumer_send.
    pose proof (invariant_kept_run_ledger_op (create_pending request) Hop) as Hc.
    cbn [run_ledger_op] in Hc. repeat frame_step.
  - unfold _post_order_consumer_receive.
    pose proof (invariant_kept_run_ledger_op
                  (reconcile_post_response response) I) as Hc.
    cbn [run_ledger_op] in Hc. repeat frame_step.
  - apply frame_forget. unfold _cancel_order_consumer_send.
    pose proof (invariant_kept_run_ledger_op
                  (mark_cancel_pending request) I) as Hc.
    cbn [run_ledger_op] in Hc. repeat frame_step.
  - unfold _cancel_order_consumer_receive.
    pose proof (invariant_kept_run_ledger_op
                  (reconcile_cancel_response request response) I) as Hc.
    cbn [run_ledger_op] in Hc. repeat frame_step.
  - apply frame_forget, invariant_kept_of_orders,
      orders_kept_monitor_orders_query.
  - unfold _monitor_orders_receive.
    pose proof (invariant_kept_run_ledger_op
                  (reconcile_status_poll "OrderManager" order_state) I) as Hc.
    cbn [run_ledger_op] in Hc. repeat frame_step.
  - apply invariant_kept_of_orders, orders_kept_MarketManager_subscribe.
  - apply invariant_kept_of_orders, orders_kept_run_loop_orderbook.
  - apply invariant_kept_of_orders, orders_kept_Strategy__init__.
  - apply invariant_kept_of_orders, orders_kept_of_books,
      books_kept_on_orderbook_update.
  - apply invariant_kept_of_orders, orders_kept_on_order_event.
  - apply invariant_kept_of_orders, orders_kept_of_books,
      books_kept_buy_or_sell_action.
  - apply invariant_kept_of_orders, orders_kept_of_books,
      books_kept_possible_cancel_action.
Qed.

(** X17 -- The invariants of the ledger hold along every run of the
    engine: from a ledger of prices of at most 28 significant digits,
    whatever operations of the ledger, of the workers, of the poller, of the
    market loop and of the strategy follow one another, in any order and
    with any arguments, returning or raising, provided the orders they
    create have such prices, every reference of the ledger still denotes an
    order, each side is still sorted by non-increasing [side * price], and
    the prices of the ledger still have at most 28 digits. *)
Theorem engine_keeps_ledger_invariants (ops : list Operation) (w : World) :
  heap_wf w -> ledger_prices_fit w -> priority_sorted w ->
  Forall operation_fits ops ->
  let w' := run_operations ops w in
  heap_wf w' /\ ledger_prices_fit w' /\ priority_sorted w'.
Proof.
  intros Hwf Hf Hp Hops. cbv zeta.
  change (priority_inv (run_operations ops w)).
  assert (Hinv : priority_inv w) by (repeat split; assumption).
  clear Hwf Hf Hp.
  revert w Hinv. unfold run_operations.
  induction Hops as [|op ops Hop Hops IH]; intros w Hinv; [exact Hinv|].
  simpl. apply IH. now apply invariant_kept_run_operation.
Qed.

Lemma engine_keeps_ledger_invariants_witness :
  let w' :=
    run_operations
      [op_post_order_consumer_send ex_new_order; op_on_orderbook_update;
       op_cancel_order_consumer_receive {| CancelOrder.order := 0%nat |}
         {| CancelOrderResponse.time := 0 |}]
      ex_world_ledger in
  heap_wf w' /\ ledger_prices_fit w' /\ priority_sorted w'.
Proof.
  refine (engine_keeps_ledger_invariants _ ex_world_ledger
            ex_world_ledger_wf ex_world_ledger_fits
            ex_world_ledger_priority_sorted _).
  repeat constructor. exact ex_new_order_fits.
Defined.

(** ** The first order *)

Lemma Forall2_decodes_head (raws : list RawOrder.t) (quotes : list Quote.t)
    (raw : RawOrder.t) (rest : list RawOrder.t) (px : Decimal.t) :
  Forall2 decodes raws quotes -> raws = raw :: rest ->
  quotation_to_decimal (RawOrder.price raw) = Ok px ->
  exists q quotes', quotes = q :: quotes' /\ Quote.px q = px.
Proof.
  intros HF -> Hpx. inversion HF as [|r q l l' [Hd _] _]; subst.
  exists q, l'. split; [reflexivity|]. congruence.
Qed.

(** X18 -- From construction to the first order: the strategy constructed
    on a position of 0 or 1 lot, then told of the first snapshot while no
    order is pending, queues exactly one single-lot order, a BUY at the
    price of the first bid of the snapshot when flat and a SELL at the price
    of its first ask when holding one lot, and ends in WAIT with the depth
    of 10 it subscribed with. *)
Theorem first_snapshot_submits_first_order
    (min_price_increment : Quotation.t) (raw : RawOrderBook.t)
    (first : RawOrder.t) (rest : list RawOrder.t) (px : Decimal.t) (w : World) :
  heap_wf w -> any_pending w = false ->
  Position.qty (position w) ∈ [0; 1] ->
  (if Position.qty (position w) =? 0
   then RawOrderBook.bids raw else RawOrderBook.asks raw) = first :: rest ->
  quotation_to_decimal (RawOrder.price first) = Ok px ->
  let run := bind (Strategy__init__ min_price_increment)
               (fun _ => run_loop_orderbook (Some raw)) w in
  snd run = Ok tt
  /\ order_queue (fst run)
     = order_queue w
       ++ [Request_NewOrder (single_lot (side_from_position w) px)]
  /\ action (fst run) = Action.WAIT
  /\ depth (fst run) = Some 10.
Proof.
  intros Hwf Hp Hpos Hside Hpx run. unfold run.
  pose proof (Strategy__init___run min_price_increment w) as Hinit.
  cbv zeta in Hinit. rewrite bool_decide_eq_true_2 in Hinit by exact Hpos.
  rewrite (bind_Ok _ _ _ _ _ Hinit).
  match goal with |- context [run_loop_orderbook _ ?x] => set (w1 := x) end.
  destruct (OrderBook__init___decodes raw) as (book & Hbook & Hb & Ha).
  assert (Hrun : run_loop_orderbook (Some raw) w1
                 = on_orderbook_update (set_ob (Some book) w1)).
  { unfold run_loop_orderbook.
    rewrite (bind_Ok _ _ w1 w1 book) by (unfold lift; now rewrite Hbook).
    now rewrite (bind_Ok _ _ w1 (set_ob (Some book) w1) tt) by reflexivity. }
  rewrite Hrun. set (w2 := set_ob (Some book) w1).
  assert (Hwf2 : heap_wf w2) by exact Hwf.
  rewrite on_orderbook_update_run by exact Hwf2.
  change (any_pending w2) with (any_pending w). rewrite Hp.
  assert (Hact : action w2 <> Action.WAIT).
  { unfold w2, w1. cbn. now destruct (Position.qty (position w) =? 0). }
  rewrite bool_decide_eq_false_2 by exact Hact.
  assert (Hq : best_quote (update_logged w2) (side_from_position w) = Some px).
  { unfold best_quote, side_from_position. cbn.
    destruct (Position.qty (position w) =? 0); cbn.
    - destruct (Forall2_decodes_head _ _ _ _ _ Hb Hside Hpx)
        as (q & l & -> & <-). reflexivity.
    - destruct (Forall2_decodes_head _ _ _ _ _ Ha Hside Hpx)
        as (q & l & -> & <-). reflexivity. }
  rewrite (buy_or_sell_action_run px (update_logged w2) Hq).
  cbn [fst snd]. repeat split.
Qed.

Lemma first_snapshot_submits_first_order_witness :
  let raw := {| RawOrderBook.bids :=
                  [{| RawOrder.price := {| Quotation.units := 100;
                                           Quotation.nano := 250000000 |};
                      RawOrder.quantity := 5 |}];
                RawOrderBook.asks := [] |} in
  let run := bind (Strategy__init__ {| Quotation.units := 0;
                                       Quotation.nano := 10000000 |})
               (fun _ => run_loop_orderbook (Some raw)) ex_world_start in
  snd run = Ok tt
  /\ order_queue (fst run)
     = order_queue ex_world_start
       ++ [Request_NewOrder
             (single_lot (side_from_position ex_world_start)
                (Decimal.add (Decimal.of_int 100)
                   (Decimal.ctx (Decimal.of_int 250000000
                                 / Decimal.of_int int_1e9)%Q)))]
  /\ action (fst run) = Action.WAIT
  /\ depth (fst run) = Some 10.
Proof.
  intros raw.
  refine (first_snapshot_submits_first_order _ raw _ [] _ ex_world_start
            ex_world_start_wf eq_refl _ eq_refl
            (quotation_to_decimal_Ok _)).
  repeat constructor.
Defined.

(** ** The price key of a post response *)

Lemma eqb_Qeq_r (x d px : Decimal.t) :
  (d == px)%Q -> Decimal.eqb x d = Decimal.eqb x px.
Proof.
  intros H. unfold Decimal.eqb.
  destruct (Qeq_bool x d) eqn:E1, (Qeq_bool x px) eqn:E2; try reflexivity.
  - apply Qeq_bool_iff in E1. rewrite H in E1. apply Qeq_bool_iff in E1.
    congruence.
  - apply Qeq_bool_iff in E2. rewrite <- H in E2. apply Qeq_bool_iff in E2.
    congruence.
Qed.

Lemma matches_px_qty_Qeq (d px : Decimal.t) (qty : Z) (o : Order.t) :
  (d == px)%Q -> matches_px_qty d qty o = matches_px_qty px qty o.
Proof. intros H. unfold matches_px_qty. now rewrite (eqb_Qeq_r _ d px H). Qed.

Lemma find_unique {A} (P : A -> bool) (l : list A) (x : A) :
  x ∈ l -> P x = true -> (forall y, y ∈ l -> P y = true -> y = x) ->
  find P l = Some x.
Proof.
  induction l as [|y l IH]; intros Hin Hx Hu; [inversion Hin|].
  simpl. destruct (P y) eqn:E.
  - f_equal. apply Hu; [constructor | exact E].
  - apply IH; [|exact Hx|].
    + apply elem_of_cons in Hin as [->|Hin]; [congruence | exact Hin].
    + intros z Hz. apply Hu. now constructor.
Qed.

(** X19 -- The price key survives the trip to the broker: for a request
    whose price has at most 9 fractional digits and is below 2^53, on a
    ledger with no order of that side at that price and quantity,
    [_post_order_consumer] sends a quotation, and a response that echoes
    that quotation with the request's direction and quantity is matched by
    [process_post_order_response] with the order created for the request,
    and with no other. *)
Theorem post_response_echo_matches_new_order
    (request : NewOrder.t) (w : World) :
  heap_wf w ->
  at_most_9_fractional_digits (NewOrder.px request) ->
  (Qabs (NewOrder.px request) < 9007199254740992)%Q ->
  (forall (b : addr) (ob : Order.t),
     b ∈ by_side w (NewOrder.side request) -> heap w !! b = Some ob ->
     matches_px_qty (NewOrder.px request) (NewOrder.qty request) ob = false) ->
  let w1 := fst (_post_order_consumer_send request w) in
  let new := length (heap w) in
  exists quotation : Quotation.t,
    snd (_post_order_consumer_send request w) = Ok quotation
    /\ forall response : PostOrderResponse.t,
         Side.from_direction (PostOrderResponse.direction response)
         = Ok (NewOrder.side request) ->
         PostOrderResponse.initial_security_price response = quotation ->
         PostOrderResponse.lots_requested response = NewOrder.qty request ->
         process_post_order_response response w1
         = (set_heap (<[new := reconciled response (pending_order_of request)]>
                        (heap w1)) w1,
            Ok (Some (reconciled_event response new (pending_order_of request)))).
Proof.
  intros Hwf (k & Hk) Hb Hnone w1 new. unfold w1.
  rewrite post_order_consumer_send_run by exact Hwf. cbn [fst snd].
  rewrite (decimal_to_quotation_succeeds _ k Hk Hb).
  eexists. split; [reflexivity|].
  intros response Hside Hprice Hqty.
  assert (Hb' : (Qabs (NewOrder.px request) < 10000000000000000000)%Q)
    by (eapply Qlt_trans; [exact Hb | reflexivity]).
  destruct (quotation_to_decimal_parts _ k Hk Hb') as (d & Hd & Hdv).
  rewrite <- Hprice in Hd.
  set (w0 := logged "OrderManager" INFO (Log_post_order_request request) w).
  set (ev := {| OrderEvent.event_type := OrderEventType.PENDING;
                OrderEvent.order := length (heap w) |}).
  set (w2 := event_logged ev (with_pending request w0)).
  apply (process_post_order_response_found response (NewOrder.side request) d);
    [apply purged_wf | exact Hside | exact Hd |].
  rewrite purged_side_objects. rewrite Hqty.
  change (heap w2) with (heap (with_pending request w0)).
  change (by_side w2 (NewOrder.side request))
    with (by_side (with_pending request w0) (NewOrder.side request)).
  unfold active_objects.
  rewrite (with_pending_side_objects request w0 Hwf).
  change (heap w0) with (heap w).
  change (by_side w0 (NewOrder.side request))
    with (by_side w (NewOrder.side request)).
  apply find_unique.
  - apply list_elem_of_filter. split; [reflexivity|].
    rewrite sort_reverse_perm. apply elem_of_app. right. constructor.
  - cbn [snd]. rewrite (matches_px_qty_Qeq _ _ _ _ Hdv).
    unfold matches_px_qty, pending_order_of. cbn.
    rewrite Z.eqb_refl, andb_true_r. now apply Qeq_bool_iff.
  - intros [b ob] Hy Hm. cbn [snd] in Hm.
    rewrite (matches_px_qty_Qeq _ _ _ _ Hdv) in Hm.
    apply list_elem_of_filter in Hy as [_ Hy].
    rewrite sort_reverse_perm in Hy.
    apply elem_of_app in Hy as [Hy|Hy].
    + exfalso. apply list_elem_of_omap in Hy as (b' & Hb1 & Hb2).
      destruct (heap w !! b') as [ob'|] eqn:E; [|discriminate].
      injection Hb2 as <- <-.
      rewrite (Hnone b' ob' Hb1 E) in Hm. discriminate.
    + now apply list_elem_of_singleton in Hy.
Qed.

Lemma post_response_echo_matches_new_order_witness :
  let w1 := fst (_post_order_consumer_send ex_new_order ex_world_two_buys) in
  let new := length (heap ex_world_two_buys) in
  exists quotation : Quotation.t,
    snd (_post_order_consumer_send ex_new_order ex_world_two_buys) = Ok quotation
    /\ forall response : PostOrderResponse.t,
         Side.from_direction (PostOrderResponse.direction response)
         = Ok (NewOrder.side ex_new_order) ->
         PostOrderResponse.initial_security_price response = quotation ->
         PostOrderResponse.lots_requested response = NewOrder.qty ex_new_order ->
         process_post_order_response response w1
         = (set_heap (<[new := reconciled response (pending_order_of ex_new_order)]>
                        (heap w1)) w1,
            Ok (Some (reconciled_event response new
                        (pending_order_of ex_new_order)))).
Proof.
  refine (post_response_echo_matches_new_order ex_new_order ex_world_two_buys
            ex_world_two_buys_wf (ex_intro _ 100500000000 eq_refl) eq_refl _).
  intros b ob Hb Hob.
  apply list_elem_of_In in Hb. simpl in Hb.
  destruct Hb as [<-|[<-|[]]]; injection Hob as <-; reflexivity.
Defined.

(** ** The poller, and the way of an order *)

(** X20 -- The status poll of a complete fill, end to end: for the first
    order of the response's side with the response's id, when the executed
    quantity is the order's, [_monitor_orders] from the response on makes
    the order FILLED, moves the position by its signed quantity, purges it
    from the ledger and, the book having a quote on the side the new
    position calls for, queues one new single-lot order at that quote and
    leaves the strategy in WAIT. *)
Theorem status_poll_fill_cycle
    (order_state : OrderState.t) (side : Side.t) (best : Decimal.t)
    (l1 l2 : list addr) (a polled : addr) (o op : Order.t) (w : World) :
  heap_wf w ->
  heap w !! polled = Some op ->
  Side.from_direction (OrderState.direction order_state) = Ok side ->
  by_side w side = l1 ++ a :: l2 ->
  heap w !! a = Some o ->
  Order.id o = Some (OrderState.order_id order_state) ->
  (forall (b : addr) (ob : Order.t),
     b ∈ l1 -> heap w !! b = Some ob ->
     Order.id ob <> Some (OrderState.order_id order_state)) ->
  Order.qty o = OrderState.lots_executed order_state ->
  let qty' :=
    Position.qty (position w) + Order.qty o * Side.value (Order.side o) in
  let next := if qty' =? 0 then Side.BUY else Side.SELL in
  best_quote w next = Some best ->
  let run := _monitor_orders_receive polled order_state w in
  snd run = Ok tt
  /\ heap (fst run) = <[a := Order.set_status OrderStatus.FILLED o]> (heap w)
  /\ (forall s : Side.t, a ∉ by_side (fst run) s)
  /\ Position.qty (position (fst run)) = qty'
  /\ order_queue (fst run)
     = order_queue w ++ [Request_NewOrder (single_lot next best)]
  /\ action (fst run) = Action.WAIT.
Proof.
  intros Hwf Hpolled Hside Hby Ho Hid Hl1 Hfill qty' next Hq run.
  unfold run, _monitor_orders_receive.
  rewrite (bind_Ok _ _ w w op) by (now apply deref_Some).
  set (w0 := monitor_logged op order_state w).
  rewrite (bind_Ok _ _ w w0 tt) by reflexivity.
  assert (Hfind : find (fun p => has_id (OrderState.order_id order_state) (snd p))
                       (objects (heap w0) (by_side w0 side)) = Some (a, o)).
  { change (heap w0) with (heap w).
    change (by_side w0 side) with (by_side w side). rewrite Hby.
    apply find_objects_first; [exact Ho | |].
    - unfold has_id. now apply bool_decide_eq_true_2.
    - intros b ob Hb Hob Hmb. unfold has_id in Hmb.
      apply bool_decide_eq_true_1 in Hmb. now destruct (Hl1 b ob Hb Hob). }
  pose proof (process_get_order_found "OrderManager" order_state side a o w0
                Hwf Hside Hfind) as Hrun.
  rewrite Hfill, Z.eqb_refl in Hrun.
  rewrite (bind_Ok _ _ _ _ _ Hrun).
  set (filled := Order.set_status OrderStatus.FILLED o).
  set (w1 := set_heap (<[a := filled]> (heap w0)) w0).
  assert (Hwf1 : heap_wf w1) by (apply (heap_wf_insert a filled w0), Hwf).
  assert (Ha : heap w1 !! a = Some filled).
  { unfold w1. cbn. apply list_lookup_insert_eq.
    eapply lookup_lt_Some; eauto. }
  rewrite (notify_filled_run a filled best w1 Hwf1 Ha) by exact Hq.
  cbn [fst snd]. repeat split.
  intros s. exact (purged_not_in _ s a _ Ha eq_refl).
Qed.

Lemma status_poll_fill_cycle_witness :
  let run := _monitor_orders_receive 0%nat (ex_order_state "a" 1)
               ex_world_above_best in
  snd run = Ok tt
  /\ heap (fst run)
     = <[0%nat := Order.set_status OrderStatus.FILLED ex_order_open_101]>
         (heap ex_world_above_best)
  /\ (forall s : Side.t, 0%nat ∉ by_side (fst run) s)
  /\ Position.qty (position (fst run)) = 1
  /\ order_queue (fst run)
     = order_queue ex_world_above_best
       ++ [Request_NewOrder (single_lot Side.SELL 101%Q)]
  /\ action (fst run) = Action.WAIT.
Proof.
  refine (status_poll_fill_cycle (ex_order_state "a" 1) Side.BUY 101%Q
            [] [] 0%nat 0%nat ex_order_open_101 ex_order_open_101
            ex_world_above_best ex_world_above_best_wf
            eq_refl eq_refl eq_refl eq_refl eq_refl _ eq_refl eq_refl).
  intros b ob Hb. inversion Hb.
Defined.

(** X21 -- From the strategy to the ledger: with an empty ledger and an
    empty queue, the order the strategy decides on a book update is the
    request the next worker takes from the queue, and the worker's first
    step puts it in the ledger as the only order, PENDING, without id, for
    one lot at the best quote of its side. *)
Theorem order_reaches_ledger (px : Decimal.t) (w : World) :
  heap_wf w ->
  by_side w Side.BUY = [] -> by_side w Side.SELL = [] ->
  order_queue w = [] ->
  action w <> Action.WAIT ->
  best_quote w (side_from_position w) = Some px ->
  let side := side_from_position w in
  let new_order := single_lot side px in
  let w1 := fst (on_orderbook_update w) in
  let w2 := fst (_order_consumer_get w1) in
  let w3 := fst (_post_order_consumer_send new_order w2) in
  snd (_order_consumer_get w1) = Ok (Some (Request_NewOrder new_order))
  /\ order_queue w2 = []
  /\ by_side w3 side = [length (heap w)]
  /\ (forall s : Side.t, s <> side -> by_side w3 s = [])
  /\ heap w3 !! length (heap w)
     = Some {| Order.qty := 1; Order.px := px; Order.side := side;
               Order.status := OrderStatus.PENDING; Order.id := None |}.
Proof.
  intros Hwf HB HS Hqueue Ha Hq side new_order.
  assert (Hp : any_pending w = false).
  { unfold any_pending. now rewrite HB, HS. }
  assert (Hrun : on_orderbook_update w
                 = (after_submission new_order (update_logged w), Ok tt)).
  { rewrite on_orderbook_update_run by exact Hwf.
    rewrite Hp, bool_decide_eq_false_2 by exact Ha.
    exact (buy_or_sell_action_run px (update_logged w) Hq). }
  cbv zeta. rewrite Hrun. cbn [fst].
  set (w1 := after_submission new_order (update_logged w)).
  assert (Hget : _order_consumer_get w1
                 = (set_order_queue [] w1, Ok (Some (Request_NewOrder new_order)))).
  { unfold _order_consumer_get. unfold bind at 1, get. cbn [fst snd].
    change (order_queue w1) with (order_queue w ++ [Request_NewOrder new_order]).
    rewrite Hqueue. reflexivity. }
  rewrite Hget. cbn [fst snd].
  split; [reflexivity|]. split; [reflexivity|].
  set (w2 := set_order_queue [] w1).
  assert (Hwf2 : heap_wf w2) by exact Hwf.
  rewrite post_order_consumer_send_run by exact Hwf2. cbn [fst].
  change (length (heap w2)) with (length (heap w)).
  set (w0 := logged _ _ _ w2).
  set (ev := {| OrderEvent.event_type := OrderEventType.PENDING;
                OrderEvent.order := length (heap w) |}).
  set (w' := event_logged ev (with_pending new_order w0)).
  assert (Hby : forall s, by_side w0 s = []) by (intros []; assumption).
  assert (Hside : by_side w' side = [length (heap w)]).
  { change (by_side w' side) with (by_side (with_pending new_order w0) side).
    change side with (NewOrder.side new_order).
    rewrite with_pending_side. change (NewOrder.side new_order) with side.
    now rewrite (Hby side). }
  assert (Hnew : heap w' !! length (heap w) = Some (pending_order_of new_order))
    by apply (with_pending_new_elem new_order w0).
  split; [|split].
  - rewrite purged_by_side, Hside. unfold active_objects.
    rewrite objects_cons, Hnew. reflexivity.
  - intros s Hs. rewrite purged_by_side.
    assert (Hother : by_side w' s = by_side w0 s)
      by exact (with_pending_other_side new_order w0 s Hs).
    now rewrite Hother, (Hby s).
  - exact Hnew.
Qed.

Lemma order_reaches_ledger_witness :
  let side := side_from_position ex_world_start in
  let new_order := single_lot side 100%Q in
  let w1 := fst (on_orderbook_update ex_world_start) in
  let w2 := fst (_order_consumer_get w1) in
  let w3 := fst (_post_order_consumer_send new_order w2) in
  snd (_order_consumer_get w1) = Ok (Some (Request_NewOrder new_order))
  /\ order_queue w2 = []
  /\ by_side w3 side = [length (heap ex_world_start)]
  /\ (forall s : Side.t, s <> side -> by_side w3 s = [])
  /\ heap w3 !! length (heap ex_world_start)
     = Some {| Order.qty := 1; Order.px := 100%Q; Order.side := side;
               Order.status := OrderStatus.PENDING; Order.id := None |}.
Proof.
  refine (order_reaches_ledger 100%Q ex_world_start ex_world_start_wf
            eq_refl eq_refl eq_refl _ eq_refl).
  discriminate.
Defined.

(** ** What an order keeps *)

#[local] Instance identity_kept_refl : Reflexive identity_kept.
Proof. intros w a o H. exists o. auto. Qed.

#[local] Instance identity_kept_trans : Transitive identity_kept.
Proof.
  intros w1 w2 w3 H1 H2 a o Ho.
  destruct (H1 a o Ho) as (o1 & Ho1 & Hq1 & Hp1 & Hs1).
  destruct (H2 a o1 Ho1) as (o2 & Ho2 & Hq2 & Hp2 & Hs2).
  exists o2. repeat split; congruence.
Qed.

Lemma identity_kept_heap (w w' : World) : heap w' = heap w -> identity_kept w w'.
Proof. intros H a o Ho. exists o. rewrite H. auto. Qed.

Lemma identity_kept_of_orders {A} (m : M A) :
  frame orders_kept m -> frame identity_kept m.
Proof.
  apply frame_weaken. intros w w' [H _]. now apply identity_kept_heap.
Qed.

Lemma identity_kept_setattr (a : addr) (f : Order.t -> Order.t) :
  (forall o, Order.qty (f o) = Order.qty o /\ Order.px (f o) = Order.px o
             /\ Order.side (f o) = Order.side o) ->
  frame identity_kept (setattr a f).
Proof.
  intros Hf w. unfold setattr, bind, deref, modify.
  destruct (heap w !! a) as [o|] eqn:E; cbn; [|reflexivity].
  intros b ob Hb. cbn. destruct (decide (b = a)) as [->|Hne].
  - exists (f o). rewrite list_lookup_insert_eq by (eapply lookup_lt_Some; eauto).
    replace ob with o by congruence. split; [reflexivity | apply Hf].
  - exists ob. rewrite list_lookup_insert_ne by congruence. auto.
Qed.

Lemma identity_kept_set_status a st :
  frame identity_kept (setattr a (Order.set_status st)).
Proof. apply identity_kept_setattr. intros o. auto. Qed.

Lemma identity_kept_set_id a i :
  frame identity_kept (setattr a (Order.set_id i)).
Proof. apply identity_kept_setattr. intros o. auto. Qed.

Lemma identity_kept_new_Order o : frame identity_kept (new_Order o).
Proof.
  intros w a oa Ha. exists oa. cbn. rewrite lookup_app_l; [auto|].
  eapply lookup_lt_Some; eauto.
Qed.

#[local] Hint Resolve identity_kept_set_status identity_kept_set_id
  identity_kept_new_Order : frame.

Ltac identity_step :=
  match goal with
  | H : frame ?R ?m |- frame ?R ?m => exact H
  | |- frame identity_kept (modify _) =>
      apply frame_modify; intros ?; apply identity_kept_heap; reflexivity
  | |- frame identity_kept (logging _ _ _) =>
      apply identity_kept_of_orders, orders_kept_logging
  | |- _ => frame_step
  end.

Ltac identity_frame := repeat identity_step.

Lemma identity_kept_run_ledger_op op : frame identity_kept (run_ledger_op op).
Proof.
  destruct op; cbn [run_ledger_op].
  - unfold create_pending_order, _insert_order. identity_frame.
  - unfold process_pending_cancel. identity_frame.
  - unfold process_post_order_response, _find_order_by_side_px_qty.
    identity_frame.
  - unfold process_cancel_order_response. identity_frame.
  - unfold process_get_order, _find_order_by_id. identity_frame.
  - unfold clear_inactive_orders, clear_inactive_orders_side. identity_frame.
Qed.

Lemma identity_kept_notify_strategy order_event :
  frame identity_kept (_notify_strategy order_event).
Proof.
  pose proof (identity_kept_run_ledger_op purge_terminal) as Hp.
  destruct order_event as [order_event|];
    [|apply frame_ret; typeclasses eauto].
  unfold _notify_strategy.
  apply frame_bind; [typeclasses eauto | |intros _].
  { apply identity_kept_of_orders. destruct (bool_decide _);
      [apply orders_kept_update_by_filled_order
      |apply frame_ret; typeclasses eauto]. }
  apply frame_bind; [typeclasses eauto | |intros _].
  { apply identity_kept_of_orders, orders_kept_on_order_event. }
  unfold clear_inactive_orders, clear_inactive_orders_side. identity_frame.
Qed.

Lemma identity_kept_run_operation op : frame identity_kept (run_operation op).
Proof.
  pose proof identity_kept_notify_strategy as Hn.
  destruct op; cbn [run_operation].
  - apply frame_forget, identity_kept_run_ledger_op.
  - apply identity_kept_of_orders, orders_kept_update_by_filled_order.
  - apply identity_kept_of_orders, orders_kept_of_books, books_kept_post_order.
  - apply identity_kept_of_orders, orders_kept_of_books, books_kept_cancel_order.
  - apply Hn.
  - apply frame_forget, identity_kept_of_orders, orders_kept_order_consumer_get.
  - apply frame_forget. unfold _post_order_consumer_send.
    pose proof (identity_kept_run_ledger_op (create_pending request)) as Hc.
    cbn [run_ledger_op] in Hc. identity_frame.
  - unfold _post_order_consumer_receive.
    pose proof (identity_kept_run_ledger_op (reconcile_post_response response))
      as Hc.
    cbn [run_ledger_op] in Hc. identity_frame.
  - apply frame_forget. unfold _cancel_order_consumer_send.
    pose proof (identity_kept_run_ledger_op (mark_cancel_pending request)) as Hc.
    cbn [run_ledger_op] in Hc. identity_frame.
  - unfold _cancel_order_consumer_receive.
    pose proof (identity_kept_run_ledger_op
                  (reconcile_cancel_response request response)) as Hc.
    cbn [run_ledger_op] in Hc. identity_frame.
  - apply frame_forget, identity_kept_of_orders,
      orders_kept_monitor_orders_query.
  - unfold _monitor_orders_receive.
    pose proof (identity_kept_run_ledger_op
                  (reconcile_status_poll "OrderManager" order_state)) as Hc.
    cbn [run_ledger_op] in Hc. identity_frame.
  - apply identity_kept_of_orders, orders_kept_MarketManager_subscribe.
  - apply identity_kept_of_orders, orders_kept_run_loop_orderbook.
  - apply identity_kept_of_orders, orders_kept_Strategy__init__.
  - apply identity_kept_of_orders, orders_kept_of_books,
      books_kept_on_orderbook_update.
  - apply identity_kept_of_orders, orders_kept_on_order_event.
  - apply identity_kept_of_orders, orders_kept_of_books,
      books_kept_buy_or_sell_action.
  - apply identity_kept_of_orders, orders_kept_of_books,
      books_kept_possible_cancel_action.
Qed.

(** X26 -- An order is what it was made: along every run of the engine, an
    order object once created stays in memory with the quantity, the price
    and the side it was created with; the operations of the ledger, the
    workers, the poller, the market loop and the strategy rewrite nothing
    of an order but its status and its id. *)
Theorem order_identity_kept (ops : list Operation) (w : World) :
  forall (a : addr) (o : Order.t),
    heap w !! a = Some o ->
    exists o' : Order.t,
      heap (run_operations ops w) !! a = Some o'
      /\ Order.qty o' = Order.qty o /\ Order.px o' = Order.px o
      /\ Order.side o' = Order.side o.
Proof.
  change (identity_kept w (run_operations ops w)).
  revert w. unfold run_operations.
  induction ops as [|op ops IH]; intros w; [reflexivity|].
  simpl. etransitivity; [apply identity_kept_run_operation | apply IH].
Qed.

Lemma order_identity_kept_witness :
  exists o' : Order.t,
    heap (run_operations
            [op_cancel_order_consumer_send {| CancelOrder.order := 0%nat |};
             op_cancel_order_consumer_receive {| CancelOrder.order := 0%nat |}
               {| CancelOrderResponse.time := 0 |};
             op_post_order_consumer_send ex_new_order]
            ex_world_ledger) !! 0%nat = Some o'
    /\ Order.qty o' = Order.qty ex_order_open
    /\ Order.px o' = Order.px ex_order_open
    /\ Order.side o' = Order.side ex_order_open.
Proof.
  exact (order_identity_kept _ ex_world_ledger 0%nat ex_order_open eq_refl).
Defined.

(** ** log.py *)

Section LoggingRegistry.

Import Logging.

Lemma lbind_inl {A B} (m : L A) (k : A -> L B) (st st1 : State) (a : A) :
  m st = (st1, inl a) -> lbind m k st = k a st1.
Proof. intros H. unfold lbind. now rewrite H. Qed.

Lemma lbind_inr {A B} (m : L A) (k : A -> L B) (st st1 : State) (e : error) :
  m st = (st1, inr e) -> lbind m k st = (st1, inr e).
Proof. intros H. unfold lbind. now rewrite H. Qed.

Lemma alter_snoc {A} (f : A -> A) (l : list A) (x : A) :
  alter f (length l) (l ++ [x]) = l ++ [f x].
Proof.
  replace (length l) with (length l + 0)%nat by lia.
  now rewrite alter_app_r.
Qed.

Lemma construct_registered (os : Os) (name : string) (info : LoggerInfo)
    (st : State) :
  _loggers st !! name = Some info ->
  _construct_logger os name st = (st, inl info).
Proof.
  intros H. unfold _construct_logger, lbind, lget. now rewrite H.
Qed.

Lemma get_logger_registered (os : Os) (name : string) (info : LoggerInfo)
    (st : State) :
  _loggers st !! name = Some info ->
  get_logger os name st = (st, inl (logger info)).
Proof.
  intros H. unfold get_logger.
  now rewrite (lbind_inl _ _ _ _ _ (construct_registered os name info st H)).
Qed.

(** Symbolic evaluation of a call of the module on a state whose relevant
    attributes are known. *)
Ltac run_logging :=
  unfold get_logger, _construct_logger, _set_log_level, set_stdout_log_level,
    set_file_log_level, _set_log_level, check_correctness, FileHandler,
    StreamHandler, new_handler, setLevel, setFormatter, level_of, store_info,
    os_call, set_handlers, set_common_handler, set_loggers, lassert, lbind,
    lget, lret, lraise;
  cbn.

(** The handlers a new logger gets, on a state with no common handler. *)
Lemma get_logger_first (os : Os) (name dir : string) (st : State) :
  _loggers st !! name = None -> _log_directory st = Some dir ->
  _common_handler st = None ->
  mkdir_ok os = true -> open_ok os "All.log" = true ->
  open_ok os (name ++ ".log") = true ->
  let hc := length (handlers st) in
  let lg := {| logger_name := name; logger_level := DEBUG;
               logger_handlers := [S hc; S (S hc); hc] |} in
  get_logger os name st
  = ({| _log_directory := Some dir;
        _common_handler := Some hc;
        _loggers :=
          <[name := {| Logging.name := name; logger := Some lg;
                       stdout_log_level := Some DEBUG;
                       stdout_handler := Some (S hc);
                       file_log_level := Some DEBUG;
                       file_handler := Some (S (S hc)) |}]> (_loggers st);
        handlers :=
          handlers st
          ++ [{| handler_stream := LogFile dir "All.log";
                 handler_level := DEBUG; handler_formatted := true |};
              {| handler_stream := Stderr;
                 handler_level := DEBUG; handler_formatted := true |};
              {| handler_stream := LogFile dir (name ++ ".log");
                 handler_level := DEBUG; handler_formatted := true |}];
        os_calls :=
          os_calls st
          ++ [Mkdir dir; Open dir "All.log"; Open dir (name ++ ".log")] |},
     inl (Some lg)).
Proof.
  intros H1 H2 H3 H4 H5 H6 hc lg. run_logging.
  rewrite H1, H2, H3. cbn. rewrite H4. cbn. rewrite H5. cbn. rewrite H6. cbn.
  repeat rewrite alter_snoc. cbn.
  rewrite !list_lookup_middle by reflexivity. cbn.
  rewrite !insert_insert_eq.
  rewrite !length_app. cbn [length].
  replace (length (handlers st) + 1)%nat with (S hc) by (unfold hc; lia).
  replace (S hc + 1)%nat with (S (S hc)) by lia.
  fold hc. fold lg. rewrite <- !app_assoc, ?H2, ?H3. reflexivity.
Qed.

(** The handlers a new logger gets when the common handler is there. *)
Lemma get_logger_next (os : Os) (name dir : string) (hc : nat) (st : State) :
  _loggers st !! name = None -> _log_directory st = Some dir ->
  _common_handler st = Some hc ->
  mkdir_ok os = true -> open_ok os (name ++ ".log") = true ->
  let hs := length (handlers st) in
  let lg := {| logger_name := name; logger_level := DEBUG;
               logger_handlers := [hs; S hs; hc] |} in
  get_logger os name st
  = ({| _log_directory := Some dir;
        _common_handler := Some hc;
        _loggers :=
          <[name := {| Logging.name := name; logger := Some lg;
                       stdout_log_level := Some DEBUG;
                       stdout_handler := Some hs;
                       file_log_level := Some DEBUG;
                       file_handler := Some (S hs) |}]> (_loggers st);
        handlers :=
          handlers st
          ++ [{| handler_stream := Stderr;
                 handler_level := DEBUG; handler_formatted := true |};
              {| handler_stream := LogFile dir (name ++ ".log");
                 handler_level := DEBUG; handler_formatted := true |}];
        os_calls := os_calls st ++ [Mkdir dir; Open dir (name ++ ".log")] |},
     inl (Some lg)).
Proof.
  intros H1 H2 H3 H4 H6 hs lg. run_logging.
  rewrite H1, H2, H3. cbn. rewrite H4. cbn. rewrite H6. cbn.
  repeat rewrite alter_snoc. cbn.
  rewrite !list_lookup_middle by reflexivity. cbn.
  rewrite !insert_insert_eq.
  rewrite !length_app. cbn [length].
  replace (length (handlers st) + 1)%nat with (S hs) by (unfold hs; lia).
  fold hs. fold lg. rewrite <- !app_assoc, ?H2, ?H3. reflexivity.
Qed.

Lemma set_log_level_registered (name : string) (level : Z) (is_file : bool)
    (info : LoggerInfo) (st : State) :
  level ∈ levels -> _loggers st !! name = Some info ->
  _set_log_level name level is_file st
  = (let info' :=
       if is_file
       then {| Logging.name := Logging.name info; logger := logger info;
               stdout_log_level := stdout_log_level info;
               stdout_handler := stdout_handler info;
               file_log_level := Some level;
               file_handler := file_handler info |}
       else {| Logging.name := Logging.name info; logger := logger info;
               stdout_log_level := Some level;
               stdout_handler := stdout_handler info;
               file_log_level := file_log_level info;
               file_handler := file_handler info |} in
     let set_level x :=
       {| handler_stream := handler_stream x; handler_level := level;
          handler_formatted := handler_formatted x |} in
     {| _log_directory := _log_directory st;
        _common_handler := _common_handler st;
        _loggers := <[Logging.name info := info']> (_loggers st);
        handlers :=
          match (if is_file then file_handler info else stdout_handler info) with
          | Some h => alter set_level h (handlers st)
          | None => handlers st
          end;
        os_calls := os_calls st |}, inl tt).
Proof.
  intros Hl Hi. run_logging.
  rewrite bool_decide_eq_true_2 by exact Hl. cbn. rewrite Hi. cbn.
  rewrite Hi. cbn.
  destruct is_file; cbn.
  - destruct (file_handler info); reflexivity.
  - destruct (stdout_handler info); reflexivity.
Qed.

Lemma set_log_level_unregistered (name : string) (level : Z) (is_file : bool)
    (st : State) :
  level ∈ levels -> _loggers st !! name = None ->
  _set_log_level name level is_file st
  = ({| _log_directory := _log_directory st;
        _common_handler := _common_handler st;
        _loggers :=
          <[name := if is_file
                    then {| Logging.name := name; logger := None;
                            stdout_log_level := None; stdout_handler := None;
                            file_log_level := Some level;
                            file_handler := None |}
                    else {| Logging.name := name; logger := None;
                            stdout_log_level := Some level;
                            stdout_handler := None;
                            file_log_level := None;
                            file_handler := None |}]> (_loggers st);
        handlers := handlers st;
        os_calls := os_calls st |}, inl tt).
Proof.
  intros Hl Hi. run_logging.
  rewrite bool_decide_eq_true_2 by exact Hl. cbn. rewrite Hi. cbn.
  rewrite lookup_insert_eq. cbn.
  destruct is_file; cbn; now rewrite insert_insert_eq.
Qed.

(** ** The registry in the states the interface reaches *)

(** The state when the file of the new logger cannot be opened. *)
Lemma get_logger_file_fails (os : Os) (name dir : string) (st : State) :
  _loggers st !! name = None -> _log_directory st = Some dir ->
  mkdir_ok os = true ->
  (_common_handler st = None -> open_ok os "All.log" = true) ->
  open_ok os (name ++ ".log") = false ->
  exists (added : list Handler) (hc : nat) (calls : list OsCall),
    fst (get_logger os name st)
    = {| _log_directory := Some dir;
         _common_handler := Some hc;
         _loggers :=
           <[name := {| Logging.name := name; logger := None;
                        stdout_log_level := Some DEBUG;
                        stdout_handler :=
                          Some (length (handlers st ++ added));
                        file_log_level := None;
                        file_handler := None |}]> (_loggers st);
         handlers :=
           (handlers st ++ added)
           ++ [{| handler_stream := Stderr;
                  handler_level := DEBUG; handler_formatted := true |}];
         os_calls := calls |}
    /\ match _common_handler st with
       | Some h => hc = h /\ added = []
       | None =>
           hc = length (handlers st)
           /\ added = [{| handler_stream := LogFile dir "All.log";
                          handler_level := DEBUG; handler_formatted := true |}]
       end.
Proof.
  intros H1 H2 H4 H5 H6.
  destruct (_common_handler st) as [hc|] eqn:H3.
  - exists [], hc. eexists. split; [|now split].
    run_logging. rewrite H1, H2, H3. cbn. rewrite H4. cbn. rewrite H6. cbn.
    repeat rewrite alter_snoc. cbn.
    rewrite ?list_lookup_middle by reflexivity. cbn.
    rewrite ?insert_insert_eq, ?app_nil_r, ?H2, ?H3. reflexivity.
  - specialize (H5 eq_refl). eexists _, _, _. split; [|split; reflexivity].
    run_logging. rewrite H1, H2, H3. cbn. rewrite H4. cbn. rewrite H5. cbn.
    rewrite H6. cbn.
    repeat rewrite alter_snoc. cbn.
    rewrite ?list_lookup_middle by reflexivity. cbn.
    rewrite ?insert_insert_eq.
    rewrite ?length_app. cbn [length].
    rewrite ?H2, ?H3. reflexivity.
Qed.

(** A state that differs in neither handlers, nor entries, nor common
    handler. *)
Lemma registry_inv_same (st st' : State) :
  handlers st' = handlers st -> _loggers st' = _loggers st ->
  _common_handler st' = _common_handler st ->
  registry_inv st -> registry_inv st'.
Proof.
  intros Hh Hl Hc [I1 I2]. split.
  - intros hc. rewrite Hc, Hh. apply I1.
  - intros n info h. rewrite Hl, Hh, Hc. apply I2.
Qed.

(** A state with handlers added behind the ones there were, one entry
    written whose handlers are among the added ones, and the common handler
    as it was or made among the added ones. *)
Lemma registry_inv_grown (st st' : State) (name : string) (info : LoggerInfo)
    (added : list Handler) :
  registry_inv st ->
  handlers st' = handlers st ++ added ->
  _loggers st' = <[name := info]> (_loggers st) ->
  (forall h : nat,
     stdout_handler info = Some h \/ file_handler info = Some h ->
     (length (handlers st) <= h < length (handlers st'))%nat
     /\ _common_handler st' <> Some h) ->
  (_common_handler st' = _common_handler st
   \/ _common_handler st = None
      /\ _common_handler st' = Some (length (handlers st))
      /\ exists directory : string,
           handlers st' !! length (handlers st)
           = Some {| handler_stream := LogFile directory "All.log";
                     handler_level := DEBUG; handler_formatted := true |}) ->
  registry_inv st'.
Proof.
  intros [I1 I2] Hh Hl Hinfo Hc. split.
  - intros hc Hhc. destruct Hc as [Hc|(Hnone & Hc & d & Hd)].
    + rewrite Hc in Hhc. destruct (I1 hc Hhc) as [d Hd]. exists d.
      rewrite Hh. now apply lookup_app_l_Some.
    + rewrite Hc in Hhc. injection Hhc as <-. now exists d.
  - intros n i h Hn Hi. rewrite Hl in Hn.
    apply lookup_insert_Some in Hn as [[<- <-]|[Hne Hn]].
    + destruct (Hinfo h Hi) as [Hlt Hne]. split; [lia | exact Hne].
    + destruct (I2 n i h Hn Hi) as [Hlt Hne']. split.
      * rewrite Hh, length_app. lia.
      * destruct Hc as [Hc|(Hnone & Hc & _)]; rewrite Hc; [exact Hne'|].
        intros [= Heq]. lia.
Qed.

Lemma get_logger_inv (os : Os) (name : string) (st : State) :
  registry_inv st -> registry_inv (fst (get_logger os name st)).
Proof.
  intros Hinv.
  destruct (_loggers st !! name) as [info|] eqn:H1.
  { now rewrite (get_logger_registered os name info st H1). }
  destruct (_log_directory st) as [dir|] eqn:H2; cycle 1.
  { assert (Hst : fst (get_logger os name st) = st)
      by (run_logging; now rewrite H1, H2).
    now rewrite Hst. }
  destruct (mkdir_ok os) eqn:H4; cycle 1.
  { apply (registry_inv_same st); [| | |exact Hinv];
      run_logging; rewrite H1, H2; cbn; rewrite H4; reflexivity. }
  destruct (_common_handler st) as [hc|] eqn:H3.
  - destruct (open_ok os (name ++ ".log")) eqn:H6.
    + rewrite (get_logger_next os name dir hc st H1 H2 H3 H4 H6). cbn [fst].
      eapply (registry_inv_grown st _ name); [exact Hinv|reflexivity|reflexivity| |].
      * cbn. intros h [[= <-]|[= <-]]; rewrite length_app; cbn;
          (split; [lia|]); intros [= Heq];
          destruct Hinv as [I1 _]; destruct (I1 _ H3) as [d Hd];
          apply lookup_lt_Some in Hd; lia.
      * left. now rewrite H3.
    + destruct (get_logger_file_fails os name dir st H1 H2 H4
                  ltac:(rewrite H3; discriminate) H6)
        as (added & hc' & calls & Hst & Hc).
      rewrite H3 in Hc. destruct Hc as [-> ->]. rewrite Hst.
      rewrite app_nil_r.
      eapply (registry_inv_grown st _ name); [exact Hinv|reflexivity|reflexivity| |].
      * cbn.
        intros h [[= <-]|[=]]; rewrite length_app; cbn;
          (split; [lia|]); intros [= Heq];
          destruct Hinv as [I1 _]; destruct (I1 _ H3) as [d Hd];
          apply lookup_lt_Some in Hd; lia.
      * left. now rewrite H3.
  - destruct (open_ok os "All.log") eqn:H5; cycle 1.
    { apply (registry_inv_same st); [| | |exact Hinv];
        run_logging; rewrite H1, H2, H3; cbn; rewrite H4; cbn; rewrite H5;
        cbn; now rewrite ?H3. }
    destruct (open_ok os (name ++ ".log")) eqn:H6.
    + rewrite (get_logger_first os name dir st H1 H2 H3 H4 H5 H6). cbn [fst].
      eapply (registry_inv_grown st _ name); [exact Hinv|reflexivity|reflexivity| |].
      * cbn. intros h [[= <-]|[= <-]]; rewrite length_app; cbn;
          (split; [lia|]); intros [= Heq]; lia.
      * right. split; [exact H3|]. split; [reflexivity|]. exists dir.
        cbn. now apply list_lookup_middle.
    + destruct (get_logger_file_fails os name dir st H1 H2 H4
                  (fun _ => H5) H6)
        as (added & hc' & calls & Hst & Hc).
      rewrite H3 in Hc. destruct Hc as [-> ->]. rewrite Hst.
      eapply (registry_inv_grown st _ name); [exact Hinv| |reflexivity| |].
      * cbn. rewrite <- app_assoc. reflexivity.
      * cbn. intros h [[= <-]|[=]]; rewrite !length_app; cbn;
          (split; [lia|]); intros [= Heq]; lia.
      * right. split; [exact H3|]. split; [reflexivity|]. exists dir.
        cbn. rewrite <- app_assoc. now apply list_lookup_middle.
Qed.

Lemma set_log_level_inv (name : string) (level : Z) (is_file : bool)
    (st : State) :
  registry_inv st -> registry_inv (fst (_set_log_level name level is_file st)).
Proof.
  intros Hinv.
  destruct (decide (level ∈ levels)) as [Hl|Hl]; cycle 1.
  { assert (Hst : fst (_set_log_level name level is_file st) = st)
      by (run_logging; now rewrite bool_decide_eq_false_2 by exact Hl).
    now rewrite Hst. }
  destruct Hinv as [I1 I2].
  destruct (_loggers st !! name) as [info|] eqn:Hi.
  - rewrite (set_log_level_registered name level is_file info st Hl Hi).
    cbv zeta. cbn [fst].
    set (h := if is_file then file_handler info else stdout_handler info).
    assert (Hh : forall x, h = Some x -> _common_handler st <> Some x).
    { intros x Hx. apply (I2 name info x Hi).
      unfold h in Hx. destruct is_file; auto. }
    split.
    + intros hc Hhc. cbn in Hhc. destruct (I1 hc Hhc) as [d Hd]. exists d.
      cbn. fold h. destruct h as [x|]; [|exact Hd].
      rewrite list_lookup_alter_ne; [exact Hd|].
      intros ->. now apply (Hh hc).
    + intros n i x Hn Hx. cbn in Hn. cbn [_common_handler handlers].
      assert (Hold : (x < length (handlers st))%nat
                     /\ _common_handler st <> Some x).
      { apply lookup_insert_Some in Hn as [[_ <-]|[_ Hn]].
        - apply (I2 name info x Hi). destruct is_file; exact Hx.
        - exact (I2 n i x Hn Hx). }
      destruct Hold as [Hlt Hne]. split; [|exact Hne].
      fold h. destruct h; [now rewrite length_alter | exact Hlt].
  - rewrite (set_log_level_unregistered name level is_file st Hl Hi).
    cbn [fst]. split.
    + intros hc Hhc. exact (I1 hc Hhc).
    + intros n i x Hn Hx. cbn in Hn. cbn [_common_handler handlers].
      apply lookup_insert_Some in Hn as [[_ <-]|[_ Hn]].
      * destruct is_file; cbn in Hx; destruct Hx; discriminate.
      * exact (I2 n i x Hn Hx).
Qed.

Lemma run_call_inv (c : Call) (st : State) :
  registry_inv st -> registry_inv (run_call c st).
Proof.
  intros Hinv. destruct c; cbn [run_call].
  - now apply (registry_inv_same st).
  - now apply get_logger_inv.
  - now apply set_log_level_inv.
  - now apply set_log_level_inv.
Qed.

(** In every state the interface reaches, the common handler is as it was
    made and no entry holds it as its own. *)
Lemma reached_inv (calls : list Call) : registry_inv (reached calls).
Proof.
  unfold reached.
  assert (Hinit : registry_inv initial).
  { split; [intros hc [=] | intros n info h Hn; cbn in Hn;
                            now rewrite lookup_empty in Hn]. }
  revert Hinit. generalize initial.
  induction calls as [|c calls IH]; intros st Hinv; [exact Hinv|].
  simpl. apply IH. now apply run_call_inv.
Qed.

(** X22 -- [get_logger] on a name not yet registered, in any state the
    interface of the class has reached, with the log directory set and the
    operating system obliging: it makes the directory, opens [All.log] only
    if no logger was made before and [name.log], and returns a logger at
    level DEBUG with three handlers, for stderr, for [name.log] and for the
    common [All.log] (in the directory that was set when it was made), each
    at level DEBUG with the common formatter; the handlers and the entries
    of other names are as they were; and every later [get_logger] of that
    name returns the same logger without touching the state or the
    operating system. *)
Theorem get_logger_constructs (calls : list Call) (os : Os)
    (name dir : string) :
  let st := reached calls in
  _loggers st !! name = None -> _log_directory st = Some dir ->
  mkdir_ok os = true ->
  (_common_handler st = None -> open_ok os "All.log" = true) ->
  open_ok os (name ++ ".log") = true ->
  exists (st' : State) (hs hf hc : nat) (dc : string),
    let lg := {| logger_name := name; logger_level := DEBUG;
                 logger_handlers := [hs; hf; hc] |} in
    get_logger os name st = (st', inl (Some lg))
    /\ handlers st' !! hs
       = Some {| handler_stream := Stderr; handler_level := DEBUG;
                 handler_formatted := true |}
    /\ handlers st' !! hf
       = Some {| handler_stream := LogFile dir (name ++ ".log");
                 handler_level := DEBUG; handler_formatted := true |}
    /\ handlers st' !! hc
       = Some {| handler_stream := LogFile dc "All.log";
                 handler_level := DEBUG; handler_formatted := true |}
    /\ _common_handler st' = Some hc
    /\ (_common_handler st = None ->
        dc = dir
        /\ os_calls st'
           = os_calls st
             ++ [Mkdir dir; Open dir "All.log"; Open dir (name ++ ".log")])
    /\ (forall h : nat,
          _common_handler st = Some h ->
          hc = h
          /\ os_calls st'
             = os_calls st ++ [Mkdir dir; Open dir (name ++ ".log")])
    /\ (forall (h : nat) (x : Handler),
          handlers st !! h = Some x -> handlers st' !! h = Some x)
    /\ (forall other : string,
          other <> name -> _loggers st' !! other = _loggers st !! other)
    /\ (forall os' : Os, get_logger os' name st' = (st', inl (Some lg))).
Proof.
  intros st H1 H2 H4 H5 H6.
  assert (I1 : common_handler_made st) by apply reached_inv.
  clearbody st.
  destruct (_common_handler st) as [hc|] eqn:H3.
  - destruct (I1 hc H3) as [dc Hdc].
    eexists. exists (length (handlers st)), (S (length (handlers st))), hc, dc.
    cbv zeta.
    rewrite (get_logger_next os name dir hc st H1 H2 H3 H4 H6). cbv zeta.
    split; [reflexivity|]. cbn [handlers _common_handler _loggers os_calls].
    split; [now apply list_lookup_middle|].
    split; [now rewrite (lookup_app_r _ _ (S _)) by lia;
            replace (S _ - _)%nat with 1%nat by lia|].
    split; [now apply lookup_app_l_Some|].
    split; [reflexivity|]. split; [discriminate|].
    split; [now intros h [= <-]|].
    split; [intros h x Hx; now apply lookup_app_l_Some|].
    split; [intros other Hne; now apply lookup_insert_ne|].
    intros os'.
    rewrite (get_logger_registered os' name _ _ (lookup_insert_eq _ _ _)).
    reflexivity.
  - specialize (H5 eq_refl).
    eexists.
    exists (S (length (handlers st))), (S (S (length (handlers st)))),
      (length (handlers st)), dir.
    cbv zeta.
    rewrite (get_logger_first os name dir st H1 H2 H3 H4 H5 H6). cbv zeta.
    split; [reflexivity|]. cbn [handlers _common_handler _loggers os_calls].
    split; [now rewrite (lookup_app_r _ _ (S _)) by lia;
            replace (S _ - _)%nat with 1%nat by lia|].
    split; [now rewrite (lookup_app_r _ _ (S (S _))) by lia;
            replace (S (S _) - _)%nat with 2%nat by lia|].
    split; [now apply list_lookup_middle|].
    split; [reflexivity|].
    split; [intros _; split; reflexivity|].
    split; [discriminate|].
    split; [intros h x Hx; now apply lookup_app_l_Some|].
    split; [intros other Hne; now apply lookup_insert_ne|].
    intros os'.
    rewrite (get_logger_registered os' name _ _ (lookup_insert_eq _ _ _)).
    reflexivity.
Qed.

Lemma get_logger_constructs_witness :
  let os := {| mkdir_ok := true; open_ok := fun _ => true |} in
  let st := reached [call_set_log_directory "logs/";
                     call_get_logger os "OrderManager";
                     call_set_stdout_log_level "OrderManager" INFO] in
  exists (st' : State) (hs hf hc : nat) (dc : string),
    let lg := {| logger_name := "Strategy"; logger_level := DEBUG;
                 logger_handlers := [hs; hf; hc] |} in
    get_logger os "Strategy" st = (st', inl (Some lg))
    /\ handlers st' !! hs
       = Some {| handler_stream := Stderr; handler_level := DEBUG;
                 handler_formatted := true |}
    /\ handlers st' !! hf
       = Some {| handler_stream := LogFile "logs/" ("Strategy" ++ ".log");
                 handler_level := DEBUG; handler_formatted := true |}
    /\ handlers st' !! hc
       = Some {| handler_stream := LogFile dc "All.log";
                 handler_level := DEBUG; handler_formatted := true |}
    /\ _common_handler st' = Some hc
    /\ (_common_handler st = None ->
        dc = "logs/"%string
        /\ os_calls st'
           = os_calls st
             ++ [Mkdir "logs/"; Open "logs/" "All.log";
                 Open "logs/" ("Strategy" ++ ".log")])
    /\ (forall h : nat,
          _common_handler st = Some h ->
          hc = h
          /\ os_calls st'
             = os_calls st
               ++ [Mkdir "logs/"; Open "logs/" ("Strategy" ++ ".log")])
    /\ (forall (h : nat) (x : Handler),
          handlers st !! h = Some x -> handlers st' !! h = Some x)
    /\ (forall other : string,
          other <> "Strategy"%string ->
          _loggers st' !! other = _loggers st !! other)
    /\ (forall os' : Os, get_logger os' "Strategy" st' = (st', inl (Some lg))).
Proof.
  intros os st.
  refine (get_logger_constructs
            [call_set_log_directory "logs/";
             call_get_logger os "OrderManager";
             call_set_stdout_log_level "OrderManager" INFO]
            os "Strategy" "logs/" _ _ eq_refl (fun _ => eq_refl) eq_refl).
  - vm_compute. reflexivity.
  - vm_compute. reflexivity.
Defined.

Lemma ex_logging_start_fresh :
  _loggers (fst (set_log_directory "logs/" initial)) !! "main"%string = None.
Proof. reflexivity. Qed.

(** X23 -- A level set for a name before its logger is made leaves that
    name without a logger: [set_stdout_log_level] or [set_file_log_level]
    on a name not yet registered registers it, and from then on
    [get_logger] of that name finds the entry and returns None, whatever
    the operating system would do, making no handler and no call of it.  A
    level outside [levels] fails the assertion and changes nothing. *)
Theorem level_set_first_leaves_no_logger
    (name : string) (level : Z) (is_file : bool) (st : State) :
  (level ∉ levels ->
   _set_log_level name level is_file st = (st, inr AssertionFailed))
  /\ (level ∈ levels -> _loggers st !! name = None ->
      exists st1 : State,
        _set_log_level name level is_file st = (st1, inl tt)
        /\ handlers st1 = handlers st /\ os_calls st1 = os_calls st
        /\ forall os : Os, get_logger os name st1 = (st1, inl None)).
Proof.
  split.
  - intros Hl. run_logging. now rewrite bool_decide_eq_false_2 by exact Hl.
  - intros Hl Hi. eexists.
    rewrite (set_log_level_unregistered name level is_file st Hl Hi).
    split; [reflexivity|]. split; [reflexivity|]. split; [reflexivity|].
    intros os.
    rewrite (get_logger_registered os name _ _ (lookup_insert_eq _ _ _)).
    now destruct is_file.
Qed.

Lemma level_set_first_leaves_no_logger_witness :
  exists st1 : State,
    _set_log_level "Strategy" INFO false
      (fst (set_log_directory "logs/" initial)) = (st1, inl tt)
    /\ handlers st1 = handlers (fst (set_log_directory "logs/" initial))
    /\ os_calls st1 = os_calls (fst (set_log_directory "logs/" initial))
    /\ forall os : Os, get_logger os "Strategy" st1 = (st1, inl None).
Proof.
  apply (proj2 (level_set_first_leaves_no_logger "Strategy" INFO false
                  (fst (set_log_directory "logs/" initial)))).
  - unfold levels. rewrite !elem_of_cons. auto.
  - reflexivity.
Defined.

(** X24 -- When the file of a new logger cannot be opened, [get_logger]
    raises the error of the operating system with the name already
    registered and its stderr handler made, but no logger: every later
    [get_logger] of that name returns None instead of trying again.
    Without a log directory [get_logger] of a new name fails its assertion
    and changes nothing, and when the directory cannot be made the error
    leaves the registry as it was. *)
Theorem get_logger_failures (os : Os) (name : string) (st : State) :
  _loggers st !! name = None ->
  (_log_directory st = None ->
   get_logger os name st = (st, inr AssertionFailed))
  /\ (forall dir : string,
        _log_directory st = Some dir -> mkdir_ok os = false ->
        exists st' : State,
          get_logger os name st = (st', inr OSError)
          /\ _loggers st' = _loggers st /\ handlers st' = handlers st)
  /\ (forall dir : string,
        _log_directory st = Some dir -> mkdir_ok os = true ->
        (_common_handler st = None -> open_ok os "All.log" = true) ->
        open_ok os (name ++ ".log") = false ->
        exists st' : State,
          get_logger os name st = (st', inr OSError)
          /\ forall os' : Os, get_logger os' name st' = (st', inl None)).
Proof.
  intros H1. split; [|split].
  - intros H2. run_logging. now rewrite H1, H2.
  - intros dir H2 H4. eexists. run_logging. rewrite H1, H2. cbn. rewrite H4.
    cbn. repeat split.
  - intros dir H2 H4 H5 H6.
    destruct (_common_handler st) as [hc|] eqn:H3.
    + eexists. split.
      * run_logging. rewrite H1, H2, H3. cbn. rewrite H4. cbn. rewrite H6.
        cbn. reflexivity.
      * intros os'. erewrite get_logger_registered; cycle 1.
        { cbn. rewrite insert_insert_eq. apply lookup_insert_eq. }
        reflexivity.
    + specialize (H5 eq_refl). eexists. split.
      * run_logging. rewrite H1, H2, H3. cbn. rewrite H4. cbn. rewrite H5.
        cbn. rewrite H6. cbn. reflexivity.
      * intros os'. erewrite get_logger_registered; cycle 1.
        { cbn. rewrite insert_insert_eq. apply lookup_insert_eq. }
        reflexivity.
Qed.

Lemma get_logger_failures_witness :
  exists st' : State,
    get_logger {| mkdir_ok := true;
                  open_ok := fun f => bool_decide (f = "All.log"%string) |}
      "main" (fst (set_log_directory "logs/" initial)) = (st', inr OSError)
    /\ forall os' : Os, get_logger os' "main" st' = (st', inl None).
Proof.
  apply (proj2 (proj2 (get_logger_failures
           {| mkdir_ok := true;
              open_ok := fun f => bool_decide (f = "All.log"%string) |}
           "main" (fst (set_log_directory "logs/" initial))
           ex_logging_start_fresh)) "logs/"%string);
    try reflexivity.
Defined.

(** X25 -- The level of stderr after construction, as [OrderManager] and
    [Strategy] set it: on a registered name whose entry has its stderr
    handler, [set_stdout_log_level] with one of [levels] gives that handler
    the level and records it in the entry; every other handler, with the
    file handler of the name and the common one, keeps its level, the
    logger is the same, and no call of the operating system is made.
    [set_file_log_level] does the same with the file handler. *)
Theorem set_log_level_after_construction
    (name : string) (level : Z) (is_file : bool) (info : LoggerInfo)
    (h : nat) (x : Handler) (st : State) :
  level ∈ levels ->
  _loggers st !! name = Some info ->
  Logging.name info = name ->
  (if is_file then file_handler info else stdout_handler info) = Some h ->
  handlers st !! h = Some x ->
  exists st' : State,
    _set_log_level name level is_file st = (st', inl tt)
    /\ handlers st' !! h
       = Some {| handler_stream := handler_stream x; handler_level := level;
                 handler_formatted := handler_formatted x |}
    /\ (forall h' : nat, h' <> h -> handlers st' !! h' = handlers st !! h')
    /\ (exists info' : LoggerInfo,
          _loggers st' !! name = Some info'
          /\ logger info' = logger info
          /\ (if is_file then file_log_level info' else stdout_log_level info')
             = Some level
          /\ (if is_file then stdout_log_level info' else file_log_level info')
             = (if is_file then stdout_log_level info else file_log_level info))
    /\ os_calls st' = os_calls st
    /\ forall os : Os, get_logger os name st' = (st', inl (logger info)).
Proof.
  intros Hl Hi Hn Hh Hx. eexists.
  rewrite (set_log_level_registered name level is_file info st Hl Hi).
  cbv zeta. rewrite Hh, Hn.
  split; [reflexivity|]. cbn [handlers _loggers os_calls].
  split; [now rewrite list_lookup_alter_eq, Hx|].
  split; [intros h' Hne; apply list_lookup_alter_ne; congruence|].
  split.
  { eexists. split; [apply lookup_insert_eq|]. now destruct is_file. }
  split; [reflexivity|].
  intros os.
  rewrite (get_logger_registered os name _ _ (lookup_insert_eq _ _ _)).
  now destruct is_file.
Qed.

Lemma set_log_level_after_construction_witness :
  let os := {| mkdir_ok := true; open_ok := fun _ => true |} in
  let st := fst (get_logger os "OrderManager"
                   (fst (set_log_directory "logs/" initial))) in
  exists st' : State,
    _set_log_level "OrderManager" INFO false st = (st', inl tt)
    /\ handlers st' !! 1%nat
       = Some {| handler_stream := Stderr; handler_level := INFO;
                 handler_formatted := true |}
    /\ (forall h' : nat, h' <> 1%nat -> handlers st' !! h' = handlers st !! h')
    /\ (exists info' : LoggerInfo,
          _loggers st' !! "OrderManager"%string = Some info'
          /\ logger info'
             = Some {| logger_name := "OrderManager"; logger_level := DEBUG;
                       logger_handlers := [1%nat; 2%nat; 0%nat] |}
          /\ stdout_log_level info' = Some INFO
          /\ file_log_level info' = Some DEBUG)
    /\ os_calls st' = os_calls st
    /\ forall os : Os,
         get_logger os "OrderManager" st'
         = (st', inl (Some {| logger_name := "OrderManager";
                              logger_level := DEBUG;
                              logger_handlers := [1%nat; 2%nat; 0%nat] |})).
Proof.
  intros os st.
  refine (set_log_level_after_construction "OrderManager" INFO false
            {| Logging.name := "OrderManager";
               logger := Some {| logger_name := "OrderManager";
                                 logger_level := DEBUG;
                                 logger_handlers := [1%nat; 2%nat; 0%nat] |};
               stdout_log_level := Some DEBUG; stdout_handler := Some 1%nat;
               file_log_level := Some DEBUG; file_handler := Some 2%nat |}
            1%nat
            {| handler_stream := Stderr; handler_level := DEBUG;
               handler_formatted := true |}
            st _ _ eq_refl eq_refl _).
  - unfold levels. rewrite !elem_of_cons. auto.
  - vm_compute. reflexivity.
  - vm_compute. reflexivity.
Defined.
End LoggingRegistry.
